(** * gptme: conversation log, chat loop step and prompt path inclusion

    A shallow embedding of the parts of [gptme/logmanager.py],
    [gptme/chat.py] and [gptme/util/generate_name.py] that the specification
    talks about, together with the properties checked against it.

    Conventions.  A Python [str] is a [string]; every [ascii] stands for one
    code point below 256.  Python lists are Rocq lists.  Code that raises is
    modelled with an explicit [outcome]; code that mutates an object or the
    file system threads the state explicitly. *)

From Stdlib Require Import Ascii String List Bool Arith Lia.
From stdpp Require Import base option list strings gmap.

Local Arguments String.append !_ _ / : simpl nomatch.

Set Warnings "-register-all".

(** * Part I: the embedding *)

(** ** Python string primitives *)

Module Str.

(** [s.count(c)] for a one-character pattern. *)
Fixpoint count (c : ascii) (s : string) : nat :=
  match s with
  | EmptyString => 0
  | String a s' => (if Ascii.eqb a c then 1 else 0) + count c s'
  end.

(** [s.split(c)] for a one-character separator: never empty, [""] splits
    into [[""]]. *)
Fixpoint split (c : ascii) (s : string) : list string :=
  match s with
  | EmptyString => [EmptyString]
  | String a s' =>
      if Ascii.eqb a c then EmptyString :: split c s'
      else match split c s' with
           | w :: ws => String a w :: ws
           | [] => [String a EmptyString]
           end
  end.

(** [x in l] on a list of strings. *)
Definition mem (x : string) (l : list string) : bool :=
  existsb (String.eqb x) l.

(** [all(f(x) for x in l)]. *)
Definition all {A} (f : A -> bool) (l : list A) : bool := forallb f l.

(** [s.startswith(p)]. *)
Definition startswith (p s : string) : bool := String.prefix p s.

End Str.

(** ** [gptme/util/generate_name.py] *)

Module GenerateName.

Definition actions : list string :=
  [ "running"; "jumping"; "walking"; "skipping"; "hopping"; "flying";
    "swimming"; "crawling"; "sneaking"; "sprinting"; "sneaking"; "dancing";
    "singing"; "laughing" ].

Definition adjectives : list string :=
  [ "funny"; "happy"; "sad"; "angry"; "silly"; "crazy"; "sneaky"; "sleepy";
    "hungry"; "red"; "blue"; "green"; "pink"; "purple"; "yellow"; "orange" ].

Definition nouns : list string :=
  [ "cat"; "dog"; "rat"; "mouse"; "fish"; "elephant"; "dinosaur"; "bird";
    "pelican"; "dragon"; "unicorn"; "mermaid"; "monster"; "alien"; "robot";
    "whale"; "shark"; "walrus"; "octopus"; "squid"; "jellyfish"; "starfish";
    "penguin"; "seal" ].

(** [random.choice(seq)] is [seq[randbelow(len(seq))]]; the generator's raw
    draw [r] is reduced below the length. *)
Definition choice (r : nat) (seq : list string) : string :=
  nth (r mod List.length seq) seq "".

(** [f"{action}-{adjective}-{noun}"] for the three draws [r1 r2 r3]. *)
Definition generate_name (r1 r2 r3 : nat) : string :=
  let action := choice r1 actions in
  let adjective := choice r2 adjectives in
  let noun := choice r3 nouns in
  action +:+ "-" +:+ adjective +:+ "-" +:+ noun.

Definition is_generated_name (name : string) : bool :=
  let all_words := actions ++ adjectives ++ nouns in
  Nat.eqb (Str.count "-" name) 2
  && Str.all (fun word => Str.mem word all_words) (Str.split "-" name).

End GenerateName.

(** ** Messages

    [gptme/message.py] is not among the sources; the record below has the
    attributes the specification lists and the ones the code reads
    ([role], [content], [files], [hide], [quiet], [pinned], [timestamp]). *)

Inductive Role := system | user | assistant.

Global Instance Role_eq_dec : EqDecision Role.
Proof. solve_decision. Defined.

Definition Role_eqb (a b : Role) : bool := bool_decide (a = b).

Definition role_str (r : Role) : string :=
  match r with
  | system => "system"
  | user => "user"
  | assistant => "assistant"
  end.

Definition role_of_str (s : string) : option Role :=
  if String.eqb s "system" then Some system
  else if String.eqb s "user" then Some user
  else if String.eqb s "assistant" then Some assistant
  else None.

(** A timestamp is kept in its ISO text form. *)
Definition Timestamp := string.

Record Message := mkMessage {
  role : Role;
  content : string;
  files : list string;
  hide : bool;
  quiet : bool;
  pinned : bool;
  timestamp : Timestamp
}.

Global Instance Message_eq_dec : EqDecision Message.
Proof. solve_decision. Defined.

(** [Message(role, content)] with every flag at its default, created at
    time [now]. *)
Definition Msg (r : Role) (c : string) (now : Timestamp) : Message :=
  mkMessage r c [] false false false now.

(** [msg.replace(quiet=q)], [msg.replace(content=c)],
    [msg.replace(files=fs)]: a new value, the old one is not touched. *)
Definition replace_quiet (q : bool) (m : Message) : Message :=
  mkMessage (role m) (content m) (files m) (hide m) q (pinned m) (timestamp m).

Definition replace_content (c : string) (m : Message) : Message :=
  mkMessage (role m) c (files m) (hide m) (quiet m) (pinned m) (timestamp m).

Definition replace_files (fs : list string) (m : Message) : Message :=
  mkMessage (role m) (content m) fs (hide m) (quiet m) (pinned m) (timestamp m).

(** ** Exceptions *)

Inductive exn :=
| IndexError
| FileNotFoundError
| JSONDecodeError
| TypeError
| ValueError
| OSError (errno : nat)
| KeyboardInterrupt.

Inductive outcome (A : Type) :=
| Return (a : A)
| Raise (e : exn).
Arguments Return {A} a.
Arguments Raise {A} e.

(** ** JSON values and the persisted record *)

Inductive json :=
| JNull
| JBool (b : bool)
| JStr (s : string)
| JList (l : list json)
| JDict (d : list (string * json)).

Definition LF : ascii := "010"%char.
Definition CR : ascii := "013"%char.
Definition NL : string := String LF "".

Module MessageRecord.

(** Modelled from the spec: [Message.to_dict] of the absent
    [gptme/message.py].  One record per message whose fields correspond one
    to one to the message attributes. *)
Definition to_dict (m : Message) : json :=
  JDict [ ("role", JStr (role_str (role m)));
          ("content", JStr (content m));
          ("files", JList (map JStr (files m)));
          ("hide", JBool (hide m));
          ("quiet", JBool (quiet m));
          ("pinned", JBool (pinned m));
          ("timestamp", JStr (timestamp m)) ].

Definition known_keys : list string :=
  [ "role"; "content"; "files"; "hide"; "quiet"; "pinned"; "timestamp" ].

Fixpoint lookup_key (k : string) (d : list (string * json)) : option json :=
  match d with
  | [] => None
  | (k', v) :: d' => if String.eqb k k' then Some v else lookup_key k d'
  end.

Definition as_str (v : json) : option string :=
  match v with JStr s => Some s | _ => None end.

Definition as_bool (v : json) : option bool :=
  match v with JBool b => Some b | _ => None end.

Fixpoint as_strs (l : list json) : option (list string) :=
  match l with
  | [] => Some []
  | v :: l' =>
      match as_str v, as_strs l' with
      | Some s, Some ss => Some (s :: ss)
      | _, _ => None
      end
  end.

Definition as_str_list (v : json) : option (list string) :=
  match v with JList l => as_strs l | _ => None end.

(** A keyword argument that may be left out. *)
Definition optional {A} (conv : json -> option A) (dflt : A)
    (k : string) (d : list (string * json)) : option A :=
  match lookup_key k d with
  | None => Some dflt
  | Some v => conv v
  end.

(** Modelled from the spec: the constructor [Message] of the absent
    [gptme/message.py], called with the record as keyword arguments.  [role] and [content] are required, the other
    attributes have defaults ([now] for the timestamp), an unknown keyword or
    an ill-typed value is a [TypeError]. *)
Definition of_dict (now : Timestamp) (v : json) : outcome Message :=
  match v with
  | JDict d =>
      if negb (forallb (fun kv => Str.mem (fst kv) known_keys) d)
      then Raise TypeError
      else
        match lookup_key "role" d, lookup_key "content" d with
        | Some (JStr r), Some (JStr c) =>
            match role_of_str r,
                  optional as_str_list [] "files" d,
                  optional as_bool false "hide" d,
                  optional as_bool false "quiet" d,
                  optional as_bool false "pinned" d,
                  optional as_str now "timestamp" d with
            | Some r', Some fs, Some h, Some q, Some p, Some t =>
                Return (mkMessage r' c fs h q p t)
            | _, _, _, _, _, _ => Raise TypeError
            end
        | _, _ => Raise TypeError
        end
  | _ => Raise TypeError
  end.

End MessageRecord.

(** ** A JSON codec

    [json.dumps] and [json.loads] belong to the Python library.  The log
    functions below take the codec as a parameter; this module gives one
    that follows the library's defaults (ASCII-only output, [", "] and
    [": "] separators), so that the log functions can be run. *)

Module Json.

Definition DQ : ascii := "034"%char.
Definition BS : ascii := "\"%char.

Definition hex_digit (n : nat) : ascii :=
  nth n (list_ascii_of_string "0123456789abcdef") "0"%char.

Definition hex_value (c : ascii) : option nat :=
  let n := nat_of_ascii c in
  if (48 <=? n) && (n <=? 57) then Some (n - 48)
  else if (97 <=? n) && (n <=? 102) then Some (n - 87)
  else if (65 <=? n) && (n <=? 70) then Some (n - 55)
  else None.

Definition escape_char (c : ascii) : string :=
  let n := nat_of_ascii c in
  if Ascii.eqb c DQ then String BS (String DQ "")
  else if Ascii.eqb c BS then String BS (String BS "")
  else if n =? 10 then "\n"
  else if n =? 13 then "\r"
  else if n =? 9 then "\t"
  else if n =? 8 then "\b"
  else if n =? 12 then "\f"
  else if (n <? 32) || (126 <? n)
       then "\u00" +:+ String (hex_digit (n / 16)) (String (hex_digit (n mod 16)) "")
  else String c "".

Fixpoint escape (s : string) : string :=
  match s with
  | EmptyString => ""
  | String c s' => escape_char c +:+ escape s'
  end.

Definition quote (s : string) : string :=
  String DQ (escape s +:+ String DQ "").

Definition join (sep : string) (l : list string) : string :=
  String.concat sep l.

Fixpoint dumps (v : json) : string :=
  match v with
  | JNull => "null"
  | JBool true => "true"
  | JBool false => "false"
  | JStr s => quote s
  | JList l => "[" +:+ join ", " (map dumps l) +:+ "]"
  | JDict d =>
      "{" +:+ join ", "
                (map (fun kv => match kv with
                                | (k, x) => quote k +:+ ": " +:+ dumps x
                                end) d)
          +:+ "}"
  end.

Definition is_ws (c : ascii) : bool :=
  let n := nat_of_ascii c in
  (n =? 32) || (n =? 9) || (n =? 10) || (n =? 13).

Fixpoint skip_ws (s : string) : string :=
  match s with
  | String c s' => if is_ws c then skip_ws s' else s
  | EmptyString => ""
  end.

Definition unescape_simple (e : ascii) : option ascii :=
  if Ascii.eqb e DQ then Some DQ
  else if Ascii.eqb e BS then Some BS
  else if Ascii.eqb e "/" then Some "/"%char
  else if Ascii.eqb e "b" then Some "008"%char
  else if Ascii.eqb e "f" then Some "012"%char
  else if Ascii.eqb e "n" then Some "010"%char
  else if Ascii.eqb e "r" then Some "013"%char
  else if Ascii.eqb e "t" then Some "009"%char
  else None.

Definition hex4 (h1 h2 h3 h4 : ascii) : option ascii :=
  match hex_value h1, hex_value h2, hex_value h3, hex_value h4 with
  | Some a, Some b, Some c, Some d =>
      let n := ((a * 16 + b) * 16 + c) * 16 + d in
      if n <? 256 then Some (ascii_of_nat n) else None
  | _, _, _, _ => None
  end.

(** The text after an opening quote, up to the closing one. *)
Fixpoint parse_str (s : string) : option (string * string) :=
  match s with
  | EmptyString => None
  | String c s' =>
      if Ascii.eqb c DQ then Some ("", s')
      else if Ascii.eqb c BS then
        match s' with
        | String "u" (String h1 (String h2 (String h3 (String h4 r)))) =>
            match hex4 h1 h2 h3 h4, parse_str r with
            | Some a, Some (t, rest) => Some (String a t, rest)
            | _, _ => None
            end
        | String e r =>
            match unescape_simple e, parse_str r with
            | Some a, Some (t, rest) => Some (String a t, rest)
            | _, _ => None
            end
        | EmptyString => None
        end
      else if nat_of_ascii c <? 32 then None
      else match parse_str s' with
           | Some (t, rest) => Some (String c t, rest)
           | None => None
           end
  end.

(** [s] without its prefix [p], when it has it. *)
Fixpoint drop_prefix (p s : string) : option string :=
  match p, s with
  | EmptyString, _ => Some s
  | String a p', String b s' =>
      if Ascii.eqb a b then drop_prefix p' s' else None
  | String _ _, EmptyString => None
  end.

Fixpoint parse_value (n : nat) (s : string) : option (json * string) :=
  match n with
  | 0 => None
  | S n' =>
      match skip_ws s with
      | EmptyString => None
      | String c r as s1 =>
          if Ascii.eqb c DQ then
            match parse_str r with
            | Some (t, rest) => Some (JStr t, rest)
            | None => None
            end
          else if Ascii.eqb c "[" then
            match skip_ws r with
            | String "]" rest => Some (JList [], rest)
            | _ => match parse_elems n' r with
                   | Some (l, rest) => Some (JList l, rest)
                   | None => None
                   end
            end
          else if Ascii.eqb c "{" then
            match skip_ws r with
            | String "}" rest => Some (JDict [], rest)
            | _ => match parse_members n' r with
                   | Some (d, rest) => Some (JDict d, rest)
                   | None => None
                   end
            end
          else
            match drop_prefix "true" s1, drop_prefix "false" s1,
                  drop_prefix "null" s1 with
            | Some rest, _, _ => Some (JBool true, rest)
            | _, Some rest, _ => Some (JBool false, rest)
            | _, _, Some rest => Some (JNull, rest)
            | _, _, _ => None
            end
      end
  end
with parse_elems (n : nat) (s : string) : option (list json * string) :=
  match n with
  | 0 => None
  | S n' =>
      match parse_value n' s with
      | Some (v, rest) =>
          match skip_ws rest with
          | String "," rest' =>
              match parse_elems n' rest' with
              | Some (l, rest'') => Some (v :: l, rest'')
              | None => None
              end
          | String "]" rest' => Some ([v], rest')
          | _ => None
          end
      | None => None
      end
  end
with parse_members (n : nat) (s : string)
    : option (list (string * json) * string) :=
  match n with
  | 0 => None
  | S n' =>
      match skip_ws s with
      | String c r =>
          if Ascii.eqb c DQ then
            match parse_str r with
            | Some (k, rest) =>
                match skip_ws rest with
                | String ":" rest1 =>
                    match parse_value n' rest1 with
                    | Some (v, rest2) =>
                        match skip_ws rest2 with
                        | String "," rest3 =>
                            match parse_members n' rest3 with
                            | Some (d, rest4) => Some ((k, v) :: d, rest4)
                            | None => None
                            end
                        | String "}" rest3 => Some ([(k, v)], rest3)
                        | _ => None
                        end
                    | None => None
                    end
                | _ => None
                end
            | None => None
            end
          else None
      | EmptyString => None
      end
  end.

(** [json.loads]: one value, surrounded by optional white space. *)
Definition loads (s : string) : option json :=
  match parse_value (S (String.length s)) s with
  | Some (v, rest) =>
      match skip_ws rest with
      | EmptyString => Some v
      | _ => None
      end
  | None => None
  end.

End Json.

(** ** [gptme/logmanager.py] *)

(** A path is its list of components; [p.parent] drops the last one and
    [p / name] adds one.  The name given to [rename] and [fork] is one
    component. *)
Definition Path := list string.
Definition parent (p : Path) : Path := removelast p.
Definition joinpath (p : Path) (name : string) : Path := p ++ [name].

(** As in the [parts] of a [pathlib] path, an absolute path starts with the
    root component; [a / b] for a path [b] is [b] itself when [b] is
    absolute. *)
Definition is_absolute_path (p : Path) : bool :=
  match p with
  | root :: _ => String.eqb root "/"
  | [] => false
  end.

Definition join_paths (a b : Path) : Path :=
  if is_absolute_path b then b else a ++ b.

(** The error number of [IsADirectoryError], an [OSError]. *)
Definition EISDIR : nat := 21.

(** What reaches the display: a line given to [print], or a message given to
    [print_msg]. *)
Inductive Printed :=
| PrintLine (s : string)
| PrintMsg (m : Message).

(** The file system maps the path of every existing regular file to its
    text; opening an absent file for writing creates it. *)
Record World := mkWorld {
  fs : gmap Path string;
  console : list Printed
}.

Record LogManager := mkLogManager {
  log : list Message;
  logfile : Path;
  show_hidden : bool
}.

Definition set_log (l : list Message) (mgr : LogManager) : LogManager :=
  mkLogManager l (logfile mgr) (show_hidden mgr).

Definition set_logfile (p : Path) (mgr : LogManager) : LogManager :=
  mkLogManager (log mgr) p (show_hidden mgr).

Definition set_fs (f : gmap Path string) (w : World) : World :=
  mkWorld f (console w).

(** Methods run on the manager object and the outside world; an exception
    leaves both as they were when it was raised. *)
Definition St : Type := LogManager * World.
Definition M (A : Type) : Type := St -> outcome A * St.

Definition ret {A} (a : A) : M A := fun st => (Return a, st).
Definition raise {A} (e : exn) : M A := fun st => (Raise e, st).
Definition bind {A B} (c : M A) (k : A -> M B) : M B :=
  fun st =>
    match c st with
    | (Return a, st') => k a st'
    | (Raise e, st') => (Raise e, st')
    end.

Notation "'let*' x ':=' c 'in' k" := (bind c (fun x => k))
  (at level 10, x name, c at level 100, k at level 200).

(** [for _ in range(k): body]. *)
Fixpoint for_range (k : nat) (body : M unit) : M unit :=
  match k with
  | 0 => ret tt
  | S k' => let* _ := body in for_range k' body
  end.

Definition print (s : string) : M unit :=
  fun '(mgr, w) => (Return tt, (mgr, mkWorld (fs w) (console w ++ [PrintLine s]))).

Definition print_msg (m : Message) : M unit :=
  fun '(mgr, w) => (Return tt, (mgr, mkWorld (fs w) (console w ++ [PrintMsg m]))).

(** [self[-1] if self.log else None]. *)
Definition peek_last : M (option Message) :=
  fun '(mgr, w) => (Return (last (log mgr)), (mgr, w)).

(** Text-mode reading: [universal_newlines] is the newline translation of
    [open(..., "r")], [splitlines] cuts after every line feed and keeps
    it, as [readlines] does. *)
Fixpoint universal_newlines (s : string) : string :=
  match s with
  | EmptyString => ""
  | String c s' =>
      if Ascii.eqb c CR then
        match s' with
        | String c' s'' =>
            if Ascii.eqb c' LF then String LF (universal_newlines s'')
            else String LF (universal_newlines s')
        | EmptyString => String LF ""
        end
      else String c (universal_newlines s')
  end.

Fixpoint splitlines (s : string) : list string :=
  match s with
  | EmptyString => []
  | String c s' =>
      if Ascii.eqb c LF then String LF "" :: splitlines s'
      else match splitlines s' with
           | [] => [String c ""]
           | l :: ls => String c l :: ls
           end
  end.

Definition readlines (text : string) : list string :=
  splitlines (universal_newlines text).

(** Runs [f] on every element in turn and stops at the first exception. *)
Fixpoint map_outcome {A B} (f : A -> outcome B) (l : list A)
    : outcome (list B) :=
  match l with
  | [] => Return []
  | x :: l' =>
      match f x with
      | Raise e => Raise e
      | Return y =>
          match map_outcome f l' with
          | Raise e => Raise e
          | Return ys => Return (y :: ys)
          end
      end
  end.

Section Logmanager.

(** The collaborators: the JSON codec, [textwrap.shorten] applied to the
    stripped content, the clock read by a message built without a
    timestamp, the constant [LOGSDIR], and the directories of the file
    system: [is_dir p] says that a directory is at [p].  The methods of the
    manager create, move and write regular files only, so the directories
    stay as they are. *)
Variable dumps : json -> string.
Variable loads : string -> option json.
Variable shorten : string -> string.
Variable now : Timestamp.
Variable LOGSDIR : Path.
Variable is_dir : Path -> bool.

(** The text of a log file: one record per line. *)
Definition record_line (m : Message) : string :=
  dumps (MessageRecord.to_dict m) +:+ NL.

Fixpoint serialize (l : list Message) : string :=
  match l with
  | [] => ""
  | m :: l' => record_line m +:+ serialize l'
  end.

(** [write_log(msg_or_log, logfile)]: a single message is added at the end
    of the file, a list replaces the file. *)
Definition write_log (msg_or_log : Message + list Message) (p : Path)
    (f : gmap Path string) : gmap Path string :=
  match msg_or_log with
  | inl msg => <[p := default "" (f !! p) +:+ record_line msg]> f
  | inr l => <[p := serialize l]> f
  end.

Definition pop : M Message :=
  fun '(mgr, w) =>
    match last (log mgr) with
    | Some m => (Return m, (set_log (removelast (log mgr)) mgr, w))
    | None => (Raise IndexError, (mgr, w))
    end.

Definition write : M unit :=
  fun '(mgr, w) =>
    (Return tt, (mgr, set_fs (write_log (inr (log mgr)) (logfile mgr) (fs w)) w)).

Definition append (msg : Message) : M unit :=
  let* _ := (fun '(mgr, w) => (Return tt, (set_log (log mgr ++ [msg]) mgr, w))) in
  let* _ := write in
  if negb (quiet msg) then print_msg msg else ret tt.

Definition undo_line (undid : Message) : string :=
  "[red]  " +:+ role_str (role undid) +:+ ": "
    +:+ shorten (content undid) +:+ "[/]".

(** The body of the loop of [undo]. *)
Definition undo_body (quiet : bool) : M unit :=
  let* undid := pop in
  let* _ := (if negb quiet then print (undo_line undid) else ret tt) in
  let* _ := peek_last in
  ret tt.

Definition undo (n : Z) (quiet : bool) : M unit :=
  let* undid := peek_last in
  let* _ :=
    match undid with
    | Some u =>
        if Str.startswith ".undo" (content u)
        then (let* _ := pop in ret tt)
        else ret tt
    | None => ret tt
    end in
  let* peek := peek_last in
  match peek with
  | None => print "[yellow]Nothing to undo.[/]"
  | Some _ =>
      let* _ := (if negb quiet
                 then print "[yellow]Undoing messages:[/yellow]"
                 else ret tt) in
      for_range (Z.to_nat n) (undo_body quiet)
  end.

(** [Path(p).exists()]: a regular file or a directory is at [p]. *)
Definition path_exists (w : World) (p : Path) : bool :=
  bool_decide (is_Some (fs w !! p)) || is_dir p.

(** [LogManager.load(logfile, initial_msgs)]: the literal path if something
    exists there, else [LOGSDIR / logfile / "conversation.jsonl"]; when
    nothing exists at the path chosen, [FileNotFoundError]; [open] of a
    directory raises [IsADirectoryError]; one message per line; a file
    without messages gives the caller's initial messages. *)
Definition load (p : Path) (initial_msgs : list Message) (show : bool)
    (w : World) : outcome LogManager :=
  let p1 :=
    if path_exists w p then p
    else join_paths LOGSDIR p ++ ["conversation.jsonl"] in
  if negb (path_exists w p1) then Raise FileNotFoundError
  else
    match fs w !! p1 with
    | None => Raise (OSError EISDIR)
    | Some text =>
        match map_outcome
                (fun line =>
                   match loads line with
                   | None => Raise JSONDecodeError
                   | Some v => MessageRecord.of_dict now v
                   end)
                (readlines text) with
        | Raise e => Raise e
        | Return msgs =>
            let msgs := match msgs with [] => initial_msgs | _ => msgs end in
            Return (mkLogManager msgs p1 show)
        end
    end.

(** [rename(name)]: the file moves, the manager follows it. *)
Definition rename (name : string) : M unit :=
  fun '(mgr, w) =>
    let target := joinpath (parent (logfile mgr)) (name +:+ ".log") in
    match fs w !! logfile mgr with
    | None => (Raise FileNotFoundError, (mgr, w))
    | Some text =>
        (Return tt,
         (set_logfile target mgr,
          set_fs (<[target := text]> (delete (logfile mgr) (fs w))) w))
    end.

(** [fork(name)]: save, then switch to a new log file without renaming the
    old one. *)
Definition fork (name : string) : M unit :=
  let* _ := write in
  fun '(mgr, w) =>
    (Return tt,
     (set_logfile (joinpath (parent (logfile mgr)) (name +:+ ".log")) mgr, w)).

End Logmanager.

(** ** Reading the result of a method call *)

Definition result {A} (x : outcome A * St) : outcome A := fst x.
Definition final_log {A} (x : outcome A * St) : list Message := log (fst (snd x)).
Definition final_logfile {A} (x : outcome A * St) : Path := logfile (fst (snd x)).
Definition final_fs {A} (x : outcome A * St) : gmap Path string := fs (snd (snd x)).
Definition final_console {A} (x : outcome A * St) : list Printed :=
  console (snd (snd x)).

(** The log once a trailing message whose content starts with [.undo] has
    been discarded: what [undo] works on after its first two lines. *)
Definition discard_undo_tail (l : list Message) : list Message :=
  match last l with
  | Some u => if Str.startswith ".undo" (content u) then removelast l else l
  | None => l
  end.

(** What the log functions need from the codec for one message: its record
    is printed on one line, and the line is read back as the same record. *)
Definition codec_ok (dumps : json -> string) (loads : string -> option json)
    (m : Message) : Prop :=
  Str.count LF (dumps (MessageRecord.to_dict m)) = 0 /\
  Str.count CR (dumps (MessageRecord.to_dict m)) = 0 /\
  loads (record_line dumps m) = Some (MessageRecord.to_dict m).

(** ** [gptme/chat.py]: text scanning used by [_include_paths] *)

Module Text.

Definition BACKTICK : ascii := "`"%char.
Definition QMARK : ascii := "?"%char.
Definition FENCE : string := "```".

(** White space as [\s] and [str.split()] see it, for code points below
    256. *)
Definition is_space (c : ascii) : bool :=
  let n := nat_of_ascii c in
  ((9 <=? n) && (n <=? 13)) || ((28 <=? n) && (n <=? 32))
  || (n =? 133) || (n =? 160).

(** The class [[\s`]]. *)
Definition is_sep (c : ascii) : bool := is_space c || Ascii.eqb c BACKTICK.

Fixpoint drop (n : nat) (s : string) : string :=
  match n, s with
  | S k, String _ s' => drop k s'
  | _, _ => s
  end.

(** Where the first line feed followed by a fence ends in [s], counted from
    the start of [s]. *)
Fixpoint find_close (s : string) : option nat :=
  match s with
  | EmptyString => None
  | String _ s' =>
      if String.prefix (NL +:+ FENCE) s then Some 4
      else option_map S (find_close s')
  end.

(** [re.sub(r"```.*?\n```", "", s, flags=re.DOTALL)]: from the left, every
    fence that has a closing line-feed-and-fence after it is removed up to
    the first such closing; [skip] counts the characters of the current
    match still to drop. *)
Fixpoint strip_codeblocks_from (skip : nat) (s : string) : string :=
  match s with
  | EmptyString => ""
  | String c s' =>
      match skip with
      | S k => strip_codeblocks_from k s'
      | 0 =>
          if String.prefix FENCE s then
            match find_close (drop 3 s) with
            | Some n => strip_codeblocks_from (2 + n) s'
            | None => String c (strip_codeblocks_from 0 s')
            end
          else String c (strip_codeblocks_from 0 s')
      end
  end.

Definition strip_codeblocks (s : string) : string := strip_codeblocks_from 0 s.

(** [re.split] on a one-character class: every separator cuts, so empty
    pieces appear between adjacent separators. *)
Fixpoint re_split (sep : ascii -> bool) (s : string) : list string :=
  match s with
  | EmptyString => [EmptyString]
  | String c s' =>
      if sep c then EmptyString :: re_split sep s'
      else match re_split sep s' with
           | w :: ws => String c w :: ws
           | [] => [String c EmptyString]
           end
  end.

(** [s.lstrip(c)], [s.rstrip(c)] and [s.strip(c)] for one character. *)
Fixpoint lstrip (c : ascii) (s : string) : string :=
  match s with
  | String a s' => if Ascii.eqb a c then lstrip c s' else s
  | EmptyString => ""
  end.

Fixpoint rstrip (c : ascii) (s : string) : string :=
  match s with
  | EmptyString => ""
  | String a s' =>
      match rstrip c s' with
      | EmptyString => if Ascii.eqb a c then "" else String a ""
      | r => String a r
      end
  end.

Definition strip (c : ascii) (s : string) : string := rstrip c (lstrip c s).

(** [s.split()]: the maximal runs without white space. *)
Definition split_whitespace (s : string) : list string :=
  filter (fun w => w <> "") (re_split is_space s).

(** [s.split("/", 1)[0]]. *)
Fixpoint first_segment (s : string) : string :=
  match s with
  | EmptyString => ""
  | String c s' => if Ascii.eqb c "/" then "" else String c (first_segment s')
  end.

(** [s.endswith(c)] for one character. *)
Fixpoint endswith (c : ascii) (s : string) : bool :=
  match s with
  | EmptyString => false
  | String a EmptyString => Ascii.eqb a c
  | String _ s' => endswith c s'
  end.

(** [n] copies of a character. *)
Fixpoint replicate (n : nat) (c : ascii) : string :=
  match n with
  | 0 => ""
  | S k => String c (replicate k c)
  end.

(** ASCII [lower]. *)
Definition lower_char (c : ascii) : ascii :=
  let n := nat_of_ascii c in
  if (65 <=? n) && (n <=? 90) then ascii_of_nat (n + 32) else c.

Fixpoint lower (s : string) : string :=
  match s with
  | EmptyString => ""
  | String c s' => String (lower_char c) (lower s')
  end.

(** The text after the last dot of [s], with what precedes that dot. *)
Fixpoint rsplit_dot (s : string) : option (string * string) :=
  match s with
  | EmptyString => None
  | String c s' =>
      match rsplit_dot s' with
      | Some (stem, ext) => Some (String c stem, ext)
      | None => if Ascii.eqb c "." then Some ("", s') else None
      end
  end.

(** [Path(p).suffix[1:]]: the extension of the final component, empty when
    the name has no dot, starts with its only dot or ends with a dot. *)
Definition extension (p : string) : string :=
  let name := List.last (filter (fun w => w <> "") (Str.split "/" p)) "" in
  match rsplit_dot name with
  | Some (stem, ext) =>
      if String.eqb stem "" || String.eqb ext "" then "" else ext
  | None => ""
  end.

End Text.

(** ** The surroundings of the chat loop

    What [chat.py] gets from outside: the file system as seen through
    [pathlib], the URL reader, the command table, the user, the model and the
    tools.  One record holds them for one pass of the loop. *)

(** Reading a file: text, bytes that are not text ([UnicodeDecodeError]), or
    an [OSError]. *)
Inductive ReadResult :=
| Text (t : string)
| NotText
| ReadError (errno : nat).

(** [Path(p).expanduser()] probed with [exists()] and [is_file()]: no regular
    file there, an [OSError] from the probe itself, or a regular file. *)
Inductive Probe :=
| NoFile
| StatError (errno : nat)
| File (r : ReadResult).

(** The model call: a response, or a cancellation that arrived while the
    (possibly partly streamed) response was being produced. *)
Inductive ReplyResult :=
| Replied (response : Message)
| ReplyInterrupted (streamed : string).

(** The lazy run of the tools on a response: the messages produced, and
    whether a cancellation ended the run after them. *)
Record ToolRun := mkToolRun {
  produced : list Message;
  tools_interrupted : bool
}.

Definition ENAMETOOLONG : nat := 36.

(** The fields, in the order of their use:
    - [cwd_files]: the names in [Path.cwd().iterdir()];
    - [use_fresh_context]: the flag of [gptme/util/context.py];
    - [action_descriptions]: the command names, the keys of the table of
      [gptme/commands.py];
    - [probe]: the file system behind [Path(p).expanduser()];
    - [has_netloc]: whether [urlparse(w)] has both a scheme and a netloc;
    - [has_browser], [read_url]: [has_tool("browser")] and the URL reader,
      [None] when it raises;
    - [workspace], [expanduser], [is_absolute], [relative_to]: the workspace
      argument and the path operations applied to a collected file,
      [relative_to ws f] being [f.absolute().relative_to(ws)], [None] when it
      raises [ValueError];
    - [user_input]: the first non-empty line the user enters, [None] at the
      end of input;
    - [prepare_messages], [reply], [execute_msg], [execute_cmd]: the context
      preparer, the model call, the tool run and the command executor;
    - [clock]: the time of the [k]-th message built during the pass;
    - [json_dumps]: the codec the log manager writes with.
    The record describes a run in which the working directory can be listed
    and the home directory is known: an [OSError] of
    [Path.cwd().iterdir()] and the [RuntimeError] of [expanduser()] have no
    counterpart here, so nothing below speaks of them. *)
Record Env := mkEnv {
  cwd_files : list string;
  use_fresh_context : bool;
  action_descriptions : list string;
  probe : string -> Probe;
  has_netloc : string -> bool;
  has_browser : bool;
  read_url : string -> option string;
  workspace : option string;
  expanduser : string -> string;
  is_absolute : string -> bool;
  relative_to : string -> string -> option string;
  user_input : option string;
  prepare_messages : list Message -> list Message;
  reply : list Message -> ReplyResult;
  execute_msg : Message -> ToolRun;
  execute_cmd : Message -> St -> bool * St;
  clock : nat -> Timestamp;
  json_dumps : json -> string
}.

(** Exceptions that leave [chat.py]: those of the log manager, a failed
    [assert], the interpreter's recursion limit, and [sys.exit]. *)
Inductive exn_chat :=
| Exn (e : exn)
| AssertionError
| RecursionError
| SystemExit.

Inductive result_of (A : Type) :=
| Ok (a : A)
| Err (e : exn_chat).
Arguments Ok {A} a.
Arguments Err {A} e.

Section IncludePaths.

Variable E : Env.

(** [any(prompt.startswith(command) for command in [f"/{cmd}" ...])]. *)
Definition is_command (prompt : string) : bool :=
  existsb (fun cmd => Str.startswith ("/" +:+ cmd) prompt)
    (action_descriptions E).

(** [f"```{label}\n{body}\n```"]. *)
Definition codeblock (label body : string) : string :=
  Text.FENCE +:+ label +:+ NL +:+ body +:+ NL +:+ Text.FENCE.

(** [f.exists() and f.is_file()]. *)
Definition is_file (p : string) : result_of bool :=
  match probe E p with
  | NoFile => Ok false
  | StatError e => Err (Exn (OSError e))
  | File _ => Ok true
  end.

(** The first part of [_parse_prompt]: a command is left alone, a readable
    text file becomes a code block, a file that is not text gives [None];
    [Continue] stands for falling out of the [try] block.  Every [OSError] is
    raised again. *)
Inductive Direct :=
| Done (r : option string)
| Continue.

Definition parse_prompt_direct (prompt : string) : result_of Direct :=
  if is_command prompt then Ok (Done None)
  else
    match probe E prompt with
    | StatError e => Err (Exn (OSError e))
    | NoFile => Ok Continue
    | File (Text t) => Ok (Done (Some (codeblock prompt t)))
    | File NotText => Ok (Done None)
    | File (ReadError e) => Err (Exn (OSError e))
    end.

(** The loop over [prompt.split()]: words that are files, words that are
    URLs. *)
Fixpoint classify_words (words : list string)
    : result_of (list string * list string) :=
  match words with
  | [] => Ok ([], [])
  | word :: rest =>
      match is_file word with
      | Err e => Err e
      | Ok isf =>
          match classify_words rest with
          | Err e => Err e
          | Ok (paths, urls) =>
              if isf then Ok (word :: paths, urls)
              else if has_netloc E word then Ok (paths, word :: urls)
              else Ok (paths, urls)
          end
      end
  end.

(** [for path in paths: result += f(path) or ""]. *)
Fixpoint add_paths (f : string -> result_of (option string))
    (paths : list string) (result : string) : result_of string :=
  match paths with
  | [] => Ok result
  | path :: rest =>
      match f path with
      | Err e => Err e
      | Ok r => add_paths f rest (result +:+ default "" r)
      end
  end.

(** [for url in urls: ...], a failed read is logged and skipped. *)
Fixpoint add_urls (urls : list string) (result : string) : string :=
  match urls with
  | [] => result
  | url :: rest =>
      match read_url E url with
      | Some text => add_urls rest (result +:+ codeblock url text)
      | None => add_urls rest result
      end
  end.

(** [_parse_prompt(prompt)]; [depth] bounds the nesting of the calls the
    function makes to itself on the words that are files. *)
Fixpoint parse_prompt_at (depth : nat) (prompt : string)
    : result_of (option string) :=
  match parse_prompt_direct prompt with
  | Err e => Err e
  | Ok (Done r) => Ok r
  | Ok Continue =>
      match classify_words (Text.split_whitespace prompt) with
      | Err e => Err e
      | Ok (paths, urls) =>
          let result :=
            match paths, urls with
            | [], [] => ""
            | _, _ => NL +:+ NL
            end in
          let self :=
            match depth with
            | 0 => fun _ => Err RecursionError
            | S d => parse_prompt_at d
            end in
          match add_paths self paths result with
          | Err e => Err e
          | Ok result =>
              if has_browser E then Ok (Some (add_urls urls result))
              else Ok (Some result)
          end
      end
  end.

Definition recursion_limit : nat := 1000.

Definition _parse_prompt (prompt : string) : result_of (option string) :=
  parse_prompt_at recursion_limit prompt.

(** [_parse_prompt_files(prompt)]: the path of a file that is text or has a
    supported image or PDF extension.  An [OSError] gives [None] unless it is
    [ENAMETOOLONG], which is raised again. *)
Definition on_oserror (errno : nat) : result_of (option string) :=
  if errno =? ENAMETOOLONG then Err (Exn (OSError errno)) else Ok None.

Definition _parse_prompt_files (prompt : string) : result_of (option string) :=
  if is_command prompt then Ok None
  else
    match probe E prompt with
    | StatError e => on_oserror e
    | NoFile => Ok None
    | File (Text _) => Ok (Some (expanduser E prompt))
    | File NotText =>
        if Str.mem (Text.lower (Text.extension (expanduser E prompt)))
             ["png"; "jpg"; "jpeg"; "gif"; "pdf"]
        then Ok (Some (expanduser E prompt))
        else Ok None
    | File (ReadError e) => on_oserror e
    end.

(** The candidate test of [_include_paths]. *)
Definition is_candidate (word : string) : bool :=
  existsb (fun s => Str.startswith s word) ["/"; "~/"; "./"]
  || Str.startswith "http" word
  || existsb (fun file => String.eqb (Text.first_segment word) file)
       (cwd_files E).

(** The path stored for a file: relative to the workspace when there is one
    and the path is not absolute; [relative_to] fails with [ValueError]. *)
Definition stored_path (file : string) : result_of string :=
  let file := expanduser E file in
  match workspace E with
  | Some ws =>
      if negb (is_absolute E file) then
        match relative_to E ws file with
        | Some rel => Ok rel
        | None => Err (Exn ValueError)
        end
      else Ok file
  | None => Ok file
  end.

(** [word.strip("`").rstrip("?")]. *)
Definition clean_word (word : string) : string :=
  Text.rstrip Text.QMARK (Text.strip Text.BACKTICK word).

(** The body of the loop of [_include_paths] for one cleaned word, on
    [(append_msg, files)]. *)
Definition include_word (word : string) (acc : string * list string)
    : result_of (string * list string) :=
  let '(append_msg, files) := acc in
  if String.eqb word "" then Ok acc
  else if is_candidate word then
    match (if use_fresh_context E then Ok None else _parse_prompt word) with
    | Err e => Err e
    | Ok contents =>
        if negb (String.eqb (default "" contents) "") then
          Ok (append_msg +:+ NL +:+ NL +:+ default "" contents, files)
        else
          match _parse_prompt_files word with
          | Err e => Err e
          | Ok None => Ok acc
          | Ok (Some file) =>
              match stored_path file with
              | Err e => Err e
              | Ok file => Ok (append_msg, files ++ [file])
              end
          end
    end
  else Ok acc.

Fixpoint include_words (words : list string) (acc : string * list string)
    : result_of (string * list string) :=
  match words with
  | [] => Ok acc
  | word :: rest =>
      match include_word word acc with
      | Err e => Err e
      | Ok acc' => include_words rest acc'
      end
  end.

(** The cleaned words of a content, in order, code blocks left out. *)
Definition cleaned_words (content : string) : list string :=
  map clean_word (Text.re_split Text.is_sep (Text.strip_codeblocks content)).

Definition _include_paths (msg : Message) : result_of Message :=
  if negb (Role_eqb (role msg) user) then Err AssertionError
  else
    match include_words (cleaned_words (content msg)) ("", []) with
    | Err e => Err e
    | Ok (append_msg, files') =>
        let msg :=
          match files' with
          | [] => msg
          | _ :: _ => replace_files (files msg ++ files') msg
          end in
        let msg :=
          if String.eqb append_msg "" then msg
          else replace_content (content msg +:+ append_msg) msg in
        Ok msg
    end.

End IncludePaths.

(** [sub in s]. *)
Definition contains (sub s : string) : bool :=
  match String.index 0 sub s with
  | Some _ => true
  | None => false
  end.

(** ** Conditions on the surroundings of [_include_paths] *)

Section IncludeConditions.

Variable E : Env.

(** The inclusion of one word cannot fail for this word, whatever has been
    gathered so far. *)
Definition word_safe (w : string) : Prop :=
  forall acc, exists acc', include_word E w acc = Ok acc'.

(** No token of the content makes its inclusion raise. *)
Definition no_inclusion_raises (content : string) : Prop :=
  Forall word_safe (cleaned_words content).

(** No probe and no read fails with an [OSError], and every relative path
    lies in the workspace. *)
Definition never_fails : Prop :=
  (forall p e, probe E p <> StatError e) /\
  (forall p e, probe E p <> File (ReadError e)) /\
  (forall ws f, relative_to E ws f <> None).

End IncludeConditions.

(** ** [gptme/chat.py]: one pass of [step] and the loops that consume it *)

(** What happens during a pass, in order: the interrupt flag is armed or
    disarmed, the user is prompted, the model is called on the prepared
    messages, the generator yields a message. *)
Inductive Event :=
| Armed
| Disarmed
| Prompted
| ModelCalled (msgs : list Message)
| Yield (m : Message).

Definition is_prompt (e : Event) : bool :=
  match e with Prompted => true | _ => false end.

Definition is_model_call (e : Event) : bool :=
  match e with ModelCalled _ => true | _ => false end.

(** Whether the user was prompted during the events. *)
Definition prompts (evs : list Event) : bool := existsb is_prompt evs.

(** Whether the model was called during the events. *)
Definition calls_model (evs : list Event) : bool := existsb is_model_call evs.

(** The condition under which [step] asks for input. *)
Definition needs_input (log : list Message) : bool :=
  match last log with
  | None => true
  | Some last_msg =>
      Role_eqb (role last_msg) assistant
      || String.eqb (content last_msg) "Interrupted"
      || pinned last_msg
      || negb (existsb (fun r => Role_eqb r user) (map role log))
  end.

(** The condition as the specification words it: the last message has role
    user, or is the [Interrupted] sentinel, or is pinned, or the log has no
    user message at all. *)
Definition demands_response (log : list Message) : bool :=
  match last log with
  | Some last_msg =>
      Role_eqb (role last_msg) user
      || String.eqb (content last_msg) "Interrupted"
      || pinned last_msg
  | None => false
  end
  || negb (existsb (fun r => Role_eqb r user) (map role log)).

Section Chat.

Variable E : Env.

(** [Message("system", "Interrupted")]. *)
Definition interrupted_msg : Message := Msg system "Interrupted" (clock E 1).

(** The [try] block of [step]: arm, prepare, call the model, yield the quiet
    response and what the tools produce; a cancellation yields the sentinel;
    the flag is cleared at the end in every case.  The choice of the tool
    specifications and the cost log do not touch the messages and are left
    out. *)
Definition respond (log : list Message) : list Event :=
  let msgs := prepare_messages E log in
  [Armed; ModelCalled msgs]
  ++ match reply E msgs with
     | ReplyInterrupted _ => [Disarmed; Yield interrupted_msg]
     | Replied msg_response =>
         let run := execute_msg E msg_response in
         Yield (replace_quiet true msg_response)
         :: map Yield (produced run)
         ++ (if tools_interrupted run
             then [Disarmed; Yield interrupted_msg]
             else [])
     end
  ++ [Disarmed].

(** [step(log, ...)]: the events of the generator run to its end, and how it
    ends.  [user_input] is the first non-empty line the user enters, [None]
    at the end of input, where [prompt_user] exits. *)
Definition step (log : list Message) : list Event * result_of unit :=
  if needs_input log then
    match user_input E with
    | None => ([Armed; Prompted], Err SystemExit)
    | Some inquiry =>
        let msg := replace_quiet true (Msg user inquiry (clock E 0)) in
        match _include_paths E msg with
        | Err e => ([Armed; Prompted; Disarmed], Err e)
        | Ok msg =>
            ([Armed; Prompted; Disarmed; Yield msg] ++ respond (log ++ [msg]),
             Ok tt)
        end
    end
  else (respond log, Ok tt).

Definition manager_append (msg : Message) (st : St) : St :=
  snd (append (json_dumps E) msg st).

(** The loop [for msg in step(...)] of the interactive branch, run on the
    events of the generator: every yielded message is appended, a user
    message that [execute_cmd] handles ends the loop, which closes the
    generator (its [finally] disarms when the [try] block had been entered).
    Returns the state and the events that took place. *)
Fixpoint consume (in_try : bool) (evs : list Event) (st : St)
    : St * list Event :=
  match evs with
  | [] => (st, [])
  | Yield msg :: rest =>
      let st1 := manager_append msg st in
      if Role_eqb (role msg) user then
        let '(handled, st2) := execute_cmd E msg st1 in
        if handled
        then (st2, Yield msg :: (if in_try then [Disarmed] else []))
        else let '(st3, done) := consume in_try rest st2 in
             (st3, Yield msg :: done)
      else let '(st3, done) := consume in_try rest st1 in
           (st3, Yield msg :: done)
  | ModelCalled msgs :: rest =>
      let '(st', done) := consume true rest st in
      (st', ModelCalled msgs :: done)
  | e :: rest =>
      let '(st', done) := consume in_try rest st in (st', e :: done)
  end.

(** One cycle of the interactive branch of [chat]. *)
Definition interactive_cycle (st : St) : St * list Event * result_of unit :=
  let '(evs, r) := step (log (fst st)) in
  let '(st', done) := consume false (Disarmed :: evs) st in
  (st', done, r).

(** The appends of the scripted branch, after [list(step(...))] has run the
    generator to its end. *)
Fixpoint append_responses (msgs : list Message) (st : St) : St :=
  match msgs with
  | [] => st
  | msg :: rest =>
      let st1 := manager_append msg st in
      if Role_eqb (role msg) user then
        let '(handled, st2) := execute_cmd E msg st1 in
        if handled then st2 else append_responses rest st2
      else append_responses rest st1
  end.

Fixpoint yielded (evs : list Event) : list Message :=
  match evs with
  | [] => []
  | Yield m :: rest => m :: yielded rest
  | _ :: rest => yielded rest
  end.

(** One round of the inner loop of the scripted branch of [chat]: the
    generator is run to its end, then its messages are appended; an exception
    of [step] leaves the log as it was. *)
Definition scripted_cycle (st : St) : St * list Event * result_of unit :=
  let '(evs, r) := step (log (fst st)) in
  match r with
  | Err e => (st, Armed :: evs ++ [Disarmed], Err e)
  | Ok _ => (append_responses (yielded evs) st, Armed :: evs ++ [Disarmed], Ok tt)
  end.

End Chat.

(** ** Reading the result of a cycle *)

Definition cycle_log (c : St * list Event * result_of unit) : list Message :=
  log (fst (fst (fst c))).
Definition cycle_events (c : St * list Event * result_of unit) : list Event :=
  snd (fst c).

(** ** A small conversation to run the methods on *)

Module Demo.

Definition hi : Message := Msg user "hi" "2024-05-01T10:00:00".
Definition hello : Message := Msg assistant "hello" "2024-05-01T10:00:02".
Definition undo_cmd : Message := Msg user ".undo" "2024-05-01T10:00:09".

Definition logpath : Path := ["logs"; "demo"; "conversation.jsonl"].

(** The directories: the working directory, [logs] and [logs/demo]. *)
Definition is_dir (p : Path) : bool :=
  match p with
  | [] => true
  | [a] => String.eqb a "logs"
  | [a; b] => String.eqb a "logs" && String.eqb b "demo"
  | _ => false
  end.

(** No shortening is needed for contents this short. *)
Definition shorten (s : string) : string := s.

(** A manager whose file holds exactly its log. *)
Definition saved (l : list Message) : St :=
  (mkLogManager l logpath false,
   mkWorld {[ logpath := serialize Json.dumps l ]} []).

End Demo.

Module Demo2.

(** A message whose content has a line feed, a quote, a backslash and a
    character above 127. *)
Definition tricky : Message :=
  mkMessage user
    ("line one" +:+ NL +:+ "say " +:+ String Json.DQ "" +:+ "caf"
       +:+ String (ascii_of_nat 233) "" +:+ " \ done")
    ["notes.txt"; "img.png"] false true true "2024-05-01T10:00:05".

Definition system_prompt : Message :=
  Msg system "You are gptme." "2024-05-01T09:59:59".

End Demo2.

(** ** A working directory with [notes.txt] *)

Module Desk.

(** [./notes.txt] holds [hello]; a name of more than 255 characters makes
    the probe fail with [ENAMETOOLONG]; nothing else is a file. *)
Definition probe (p : string) : Probe :=
  if String.eqb p "./notes.txt" then File (Text "hello")
  else if 255 <? String.length p then StatError ENAMETOOLONG
  else NoFile.

Definition is_http (w : string) : bool :=
  Str.startswith "http://" w || Str.startswith "https://" w.

(** The user types [hi], the model call is given by [model], no tool runs,
    no command is recognised. *)
Definition env (fresh : bool) (model : list Message -> ReplyResult) : Env :=
  mkEnv ["notes.txt"; "src"] fresh ["undo"; "log"; "exit"; "help"]
    probe is_http false (fun _ => None)
    None (fun p => p) (Str.startswith "/") (fun _ _ => None)
    (Some "hi") (fun msgs => msgs) model
    (fun _ => mkToolRun [] false) (fun _ st => (false, st))
    (fun k => match k with 0 => "2024-05-01T10:01:00" | _ => "2024-05-01T10:01:30" end)
    Json.dumps.

Definition cancelled (_ : list Message) : ReplyResult :=
  ReplyInterrupted "Sure, let me".

Definition legacy : Env := env false cancelled.
Definition fresh : Env := env true cancelled.

Definition ask (content : string) : Message :=
  Msg user content "2024-05-01T10:00:00".

Definition long_name : string := "/" +:+ Text.replicate 300 "a".

End Desk.

(** ** [gptme/logmanager.py]: [get_last_code_block] *)

Module Sub.

(** [s.count(pat)] for a non-empty pattern: the occurrences found from the
    left without overlap; [skip] counts the characters of the current
    occurrence still to pass. *)
Fixpoint count_from (skip : nat) (pat s : string) : nat :=
  match s with
  | EmptyString => 0
  | String _ s' =>
      match skip with
      | S k => count_from k pat s'
      | 0 =>
          if String.prefix pat s
          then S (count_from (String.length pat - 1) pat s')
          else count_from 0 pat s'
      end
  end.

Definition count (pat s : string) : nat := count_from 0 pat s.

(** [s.split(pat)] for a non-empty pattern. *)
Fixpoint split_from (skip : nat) (pat s : string) : list string :=
  match s with
  | EmptyString => [EmptyString]
  | String c s' =>
      match skip with
      | S k => split_from k pat s'
      | 0 =>
          if String.prefix pat s
          then EmptyString :: split_from (String.length pat - 1) pat s'
          else match split_from 0 pat s' with
               | w :: ws => String c w :: ws
               | [] => [String c EmptyString]
               end
      end
  end.

Definition split (pat s : string) : list string := split_from 0 pat s.

(** [l[-2]], an [IndexError] when [l] has fewer than two elements. *)
Definition penultimate {A} (l : list A) : outcome A :=
  match rev l with
  | _ :: x :: _ => Return x
  | _ => Raise IndexError
  end.

(** The text after the first [c] of [s], if [c] occurs. *)
Fixpoint after_first (c : ascii) (s : string) : option string :=
  match s with
  | EmptyString => None
  | String a s' => if Ascii.eqb a c then Some s' else after_first c s'
  end.

(** [s.split(c, 1)[-1]]. *)
Definition last_of_split1 (c : ascii) (s : string) : string :=
  default s (after_first c s).

End Sub.

(** [msg.content.split("```")[-2].split("\n", 1)[-1]]. *)
Definition code_block_of (content : string) : outcome string :=
  match Sub.penultimate (Sub.split Text.FENCE content) with
  | Return part => Return (Sub.last_of_split1 LF part)
  | Raise e => Raise e
  end.

(** The loop of [get_last_code_block] over [self.log[::-1]]. *)
Fixpoint scan_code_block (reversed : list Message) : outcome (option string) :=
  match reversed with
  | [] => Return None
  | msg :: rest =>
      if 2 <=? Sub.count Text.FENCE (content msg)
      then match code_block_of (content msg) with
           | Return s => Return (Some s)
           | Raise e => Raise e
           end
      else scan_code_block rest
  end.

Definition get_last_code_block (mgr : LogManager) : outcome (option string) :=
  scan_code_block (rev (log mgr)).

(** Messages with code blocks: a closed block, and a closed block followed
    by a fence that is never closed. *)
Module Blocks.

Definition closed : Message :=
  Msg assistant ("Run" +:+ NL +:+ "```sh" +:+ NL +:+ "ls" +:+ NL +:+ "```")
    "2024-05-03T09:00:00".

Definition unclosed : Message :=
  Msg assistant ("```py" +:+ NL +:+ "x = 1```done```sh" +:+ NL +:+ "pwd")
    "2024-05-03T09:00:05".

Definition thanks : Message := Msg user "thanks" "2024-05-03T09:00:09".

End Blocks.

(** ** [gptme/chat.py]: [prompt_input] and [prompt_user] *)

Module Prompt.

(** What the user does at the prompt; the end of the list is the end of the
    input. *)
Inductive Input :=
| Line (s : string)
| CtrlC.

(** The terminal: the input to come, the lines printed, the input history,
    and the interrupt flag. *)
Record Term := mkTerm {
  pending : list Input;
  shown : list string;
  history : list string;
  interruptible : bool
}.

Inductive Read :=
| Got (s : string)
| Interrupt
| EndOfInput.

Fixpoint lstrip_space (s : string) : string :=
  match s with
  | String a s' => if Text.is_space a then lstrip_space s' else s
  | EmptyString => ""
  end.

Fixpoint rstrip_space (s : string) : string :=
  match s with
  | EmptyString => ""
  | String a s' =>
      match rstrip_space s' with
      | EmptyString => if Text.is_space a then "" else String a ""
      | r => String a r
      end
  end.

(** [s.strip()]. *)
Definition strip_space (s : string) : string := rstrip_space (lstrip_space s).

(** [get_input(prompt, ...)]: the next thing the user does. *)
Definition get_input (t : Term) : Read * Term :=
  match pending t with
  | [] => (EndOfInput, t)
  | Line s :: rest =>
      (Got s, mkTerm rest (shown t) (history t) (interruptible t))
  | CtrlC :: rest =>
      (Interrupt, mkTerm rest (shown t) (history t) (interruptible t))
  end.

(** [prompt_input(prompt, value)]: a given value is printed after the prompt
    and returned without reading anything. *)
Definition prompt_input (prompt : string) (value : option string) (t : Term)
    : Read * Term :=
  let prompt := strip_space prompt +:+ ": " in
  match value with
  | Some v =>
      if negb (String.eqb v "")
      then (Got v, mkTerm (pending t) (shown t ++ [prompt +:+ v]) (history t)
                     (interruptible t))
      else get_input t
  | None => get_input t
  end.

Definition arm (t : Term) : Term :=
  mkTerm (pending t) (shown t) (history t) true.
Definition disarm (t : Term) : Term :=
  mkTerm (pending t) (shown t) (history t) false.
Definition say (line : string) (t : Term) : Term :=
  mkTerm (pending t) (shown t ++ [line]) (history t) (interruptible t).
Definition add_history (s : string) (t : Term) : Term :=
  mkTerm (pending t) (shown t) (history t ++ [s]) (interruptible t).

(** One round of the loop of [prompt_user]: arm, read, record a non-empty
    response in the history; [None] means that the loop goes on. *)
Definition prompt_round (PROMPT_USER : string) (value : option string)
    (t : Term) : option (result_of string) * Term :=
  match prompt_input PROMPT_USER value (arm t) with
  | (Got response, t') =>
      if negb (String.eqb response "")
      then (Some (Ok response), disarm (add_history response t'))
      else (None, t')
  | (Interrupt, t') =>
      (None, say (NL +:+ "Interrupted. Press Ctrl-D to exit.") t')
  | (EndOfInput, t') => (Some (Err SystemExit), say (NL +:+ "Goodbye!") t')
  end.

(** [while not response: ...], at most [rounds] times; [None] when the
    rounds did not suffice. *)
Fixpoint prompt_loop (rounds : nat) (PROMPT_USER : string)
    (value : option string) (t : Term) : option (result_of string) * Term :=
  match rounds with
  | 0 => (None, t)
  | S k =>
      match prompt_round PROMPT_USER value t with
      | (Some r, t') => (Some r, t')
      | (None, t') => prompt_loop k PROMPT_USER value t'
      end
  end.

(** [prompt_user(value)].  Every round that does not end the loop consumes
    one input, so one round more than there are inputs suffices.  The bell
    and the flush of the standard input before the loop leave the terminal
    of this model as it is. *)
Definition prompt_user (PROMPT_USER : string) (value : option string)
    (t : Term) : option (result_of string) * Term :=
  prompt_loop (S (length (pending t))) PROMPT_USER value t.

(** An input that neither answers nor ends the prompt: an empty line or an
    interrupt. *)
Definition idle (i : Input) : bool :=
  match i with
  | Line s => String.eqb s ""
  | CtrlC => true
  end.

Definition is_ctrl_c (i : Input) : bool :=
  match i with CtrlC => true | Line _ => false end.

(** What idle inputs leave on the terminal: one notice for every interrupt,
    nothing for an empty line. *)
Definition notices (idles : list Input) : list string :=
  map (fun _ => NL +:+ "Interrupted. Press Ctrl-D to exit.")
      (List.filter is_ctrl_c idles).

End Prompt.

(** ** [gptme/chat.py]: the body of [chat] *)

Section ChatBody.

Variable E : Env.

(** Lines 95 to 100 of [chat]: the workspace prompt is appended as a hidden,
    quiet system message unless it is empty, already the content of a
    message, or the log has a user message. *)
Definition add_workspace_prompt (workspace_prompt : string) (now : Timestamp)
    (st : St) : St :=
  if negb (String.eqb workspace_prompt "")
     && negb (Str.mem workspace_prompt (map content (log (fst st))))
     && negb (existsb (fun r => Role_eqb r user) (map role (log (fst st))))
  then manager_append E
         (mkMessage system workspace_prompt [] true true false now) st
  else st.

(** [next((m.content for m in reversed(log) if m.role == "assistant"), "")]. *)
Fixpoint first_assistant_content (reversed : list Message) : string :=
  match reversed with
  | [] => ""
  | m :: rest =>
      if Role_eqb (role m) assistant then content m
      else first_assistant_content rest
  end.

Definition last_assistant_content (l : list Message) : string :=
  first_assistant_content (rev l).

(** [any(tooluse.is_runnable for tooluse in ToolUse.iter_from_content(c))],
    of [gptme/tools], is the parameter [runnable]. *)
Variable runnable : string -> bool.

(** How the handling of one prompt ends: the loop is done, an exception
    leaves [chat], or the bound on the rounds was reached first. *)
Inductive Ending :=
| Finished
| Raised (e : exn_chat)
| StillRunning.

(** The inner [while True] of the scripted branch, at most [rounds] rounds:
    a round runs [step] to its end and appends its messages, and the loop
    goes on while the last assistant message has a runnable tool use. *)
Fixpoint respond_rounds (rounds : nat) (st : St) : St * list Event * Ending :=
  match rounds with
  | 0 => (st, [], StillRunning)
  | S k =>
      match scripted_cycle E st with
      | (st', evs, Err e) => (st', evs, Raised e)
      | (st', evs, Ok _) =>
          if negb (runnable (last_assistant_content (log (fst st'))))
          then (st', evs, Finished)
          else let '(st'', evs', ending) := respond_rounds k st' in
               (st'', evs ++ evs', ending)
      end
  end.

(** The handling of one queued prompt in the scripted branch: paths are
    included unless the content starts with a slash, the message is appended,
    and either it is a command that [execute_cmd] handles or the responses
    are generated. *)
Definition run_prompt (rounds : nat) (msg : Message) (st : St)
    : St * list Event * Ending :=
  match (if negb (Str.startswith "/" (content msg))
         then _include_paths E msg else Ok msg) with
  | Err e => (st, [], Raised e)
  | Ok msg =>
      let st1 := manager_append E msg st in
      let '(handled, st2) := execute_cmd E msg st1 in
      if handled then (st2, [], Finished) else respond_rounds rounds st2
  end.

End ChatBody.

(** ** The exceptions of the inclusion of paths *)

(** What the probes, the reads and [relative_to] make the inclusion of a
    word raise: an [OSError], in fresh-context mode only [ENAMETOOLONG]; or
    the [ValueError] of [relative_to], which needs a workspace. *)
Definition include_error (E : Env) (e : exn_chat) : Prop :=
  (exists n, e = Exn (OSError n) /\
             (use_fresh_context E = true -> n = ENAMETOOLONG)) \/
  (e = Exn ValueError /\ exists ws, workspace E = Some ws).

(** ** Observations on the events of a cycle *)

(** The interrupt flag after the events, from its value before them. *)
Fixpoint flag_after (armed : bool) (evs : list Event) : bool :=
  match evs with
  | [] => armed
  | Armed :: rest => flag_after true rest
  | Disarmed :: rest => flag_after false rest
  | _ :: rest => flag_after armed rest
  end.

(** How often the model was called during the events. *)
Definition model_calls (evs : list Event) : nat :=
  length (List.filter is_model_call evs).

(** ** A session with a model that answers and a tool that runs *)

Module Office.

Definition answer : Message := Msg assistant "Sure." "2024-05-01T10:01:10".

Definition tool_output : Message :=
  Msg system "Ran command" "2024-05-01T10:01:20".

Definition model (_ : list Message) : ReplyResult := Replied answer.

(** Every content that starts with a slash is a command, handled without a
    change of the log. *)
Definition run_cmd (m : Message) (st : St) : bool * St :=
  (Str.startswith "/" (content m), st).

(** The user types [typed]; [notes.txt] is in the working directory, no
    file is on the disk, no browser is there. *)
Definition env (typed : string) : Env :=
  mkEnv ["notes.txt"] false ["undo"; "log"; "exit"; "help"]
    (fun _ => NoFile) Desk.is_http false (fun _ => None)
    None (fun p => p) (Str.startswith "/") (fun _ _ => None)
    (Some typed) (fun msgs => msgs) model
    (fun _ => mkToolRun [tool_output] false) run_cmd
    (fun k => match k with 0 => "2024-05-01T10:01:00" | _ => "2024-05-01T10:01:30" end)
    Json.dumps.

(** No tool use is runnable. *)
Definition nothing_runnable (_ : string) : bool := false.

End Office.

(** * Part II: properties *)

(** ** Facts on the string primitives *)

Module StrFacts.

Import Str.

Lemma append_nil_r (s : string) : s +:+ "" = s.
Proof. induction s as [|a s IH]; simpl; [reflexivity | now rewrite IH]. Qed.

Lemma append_assoc (s t u : string) : (s +:+ t) +:+ u = s +:+ t +:+ u.
Proof. induction s as [|a s IH]; simpl; [reflexivity | now rewrite IH]. Qed.

Lemma length_append (s t : string) :
  String.length (s +:+ t) = String.length s + String.length t.
Proof. induction s as [|a s IH]; simpl; [reflexivity | now rewrite IH]. Qed.

Lemma count_append c s t : count c (s +:+ t) = count c s + count c t.
Proof. induction s as [|a s IH]; simpl; [reflexivity | rewrite IH; lia]. Qed.

Lemma split_nonempty c s : split c s <> [].
Proof.
  induction s as [|a s IH]; simpl; [discriminate |].
  destruct (Ascii.eqb a c); [discriminate |].
  destruct (split c s); discriminate.
Qed.

(** Splitting [w ++ c ++ rest] when [w] does not contain [c]. *)
Lemma split_append_sep c w rest :
  count c w = 0 ->
  split c (w +:+ String c rest) = w :: split c rest.
Proof.
  induction w as [|a w IH]; simpl; intros Hc.
  - now rewrite Ascii.eqb_refl.
  - destruct (Ascii.eqb a c) eqn:E; [discriminate |].
    rewrite IH by exact Hc. reflexivity.
Qed.

Lemma split_no_sep c w : count c w = 0 -> split c w = [w].
Proof.
  induction w as [|a w IH]; simpl; intros Hc; [reflexivity |].
  destruct (Ascii.eqb a c) eqn:E; [discriminate |].
  rewrite IH by exact Hc. reflexivity.
Qed.

Lemma mem_In x l : mem x l = true <-> In x l.
Proof.
  unfold mem. rewrite existsb_exists. split.
  - intros (y & Hy & E). apply String.eqb_eq in E. now subst.
  - intros H. exists x. split; [exact H | apply String.eqb_refl].
Qed.

End StrFacts.

(** ** [generate_name] and [is_generated_name] *)

Module GenerateNameFacts.

Import GenerateName.

Lemma choice_In r seq : seq <> [] -> In (choice r seq) seq.
Proof.
  intros Hne. unfold choice. apply nth_In.
  apply Nat.mod_upper_bound. destruct seq; [congruence | simpl; lia].
Qed.

Lemma words_hyphen_free :
  Forall (fun w => Str.count "-" w = 0) (actions ++ adjectives ++ nouns).
Proof. repeat constructor. Qed.

Lemma hyphenated_is_generated a b c :
  In a actions -> In b adjectives -> In c nouns ->
  is_generated_name (a +:+ "-" +:+ b +:+ "-" +:+ c) = true.
Proof.
  intros Ha Hb Hc.
  pose proof words_hyphen_free as HF. rewrite Forall_forall in HF.
  assert (Ha' : In a (actions ++ adjectives ++ nouns))
    by (apply in_or_app; now left).
  assert (Hb' : In b (actions ++ adjectives ++ nouns))
    by (apply in_or_app; right; apply in_or_app; now left).
  assert (Hc' : In c (actions ++ adjectives ++ nouns))
    by (apply in_or_app; right; apply in_or_app; now right).
  pose proof (HF _ (proj2 (list_elem_of_In _ _) Ha')) as Ca.
  pose proof (HF _ (proj2 (list_elem_of_In _ _) Hb')) as Cb.
  pose proof (HF _ (proj2 (list_elem_of_In _ _) Hc')) as Cc.
  unfold is_generated_name. apply andb_true_iff. split.
  - rewrite !StrFacts.count_append, Ca, Cb, Cc. reflexivity.
  - change ("-" +:+ b +:+ "-" +:+ c) with (String "-" (b +:+ "-" +:+ c)).
    rewrite StrFacts.split_append_sep by exact Ca.
    change ("-" +:+ c) with (String "-" c).
    rewrite StrFacts.split_append_sep by exact Cb.
    rewrite StrFacts.split_no_sep by exact Cc.
    unfold Str.all.
    repeat (apply andb_true_iff; split); try reflexivity;
      now apply StrFacts.mem_In.
Qed.

(** C10: every string [generate_name] can return is recognised by
    [is_generated_name], whatever the three random draws are. *)
Theorem generate_name_is_generated (r1 r2 r3 : nat) :
  is_generated_name (generate_name r1 r2 r3) = true.
Proof.
  unfold generate_name.
  apply hyphenated_is_generated; apply choice_In; discriminate.
Qed.

End GenerateNameFacts.

(** ** The record of a message *)

Module MessageRecordFacts.

Import MessageRecord.

Lemma as_strs_map_JStr (l : list string) : as_strs (map JStr l) = Some l.
Proof. induction l as [|s l IH]; simpl; [reflexivity | now rewrite IH]. Qed.

(** The record keeps every attribute: rebuilding a message from its own
    record gives the message back. *)
Lemma of_dict_to_dict (now : Timestamp) (m : Message) :
  of_dict now (to_dict m) = Return m.
Proof.
  destruct m as [r c fs h q p t]. unfold of_dict, to_dict. simpl.
  unfold optional. simpl. rewrite as_strs_map_JStr.
  destruct r; reflexivity.
Qed.

End MessageRecordFacts.

(** ** [undo], [append], [write] and [fork] *)

Section UndoFacts.

Variable shorten : string -> string.

Lemma last_removelast_app {A} (l : list A) (x : A) :
  last l = Some x -> l = removelast l ++ [x].
Proof.
  intros H. destruct l as [|a l] using rev_ind; [discriminate |].
  rewrite last_snoc in H. injection H as ->.
  now rewrite removelast_last.
Qed.

Lemma removelast_take {A} (l : list A) :
  removelast l = take (length l - 1) l.
Proof.
  rewrite removelast_firstn_len. f_equal. lia.
Qed.

Lemma undo_body_nil quiet mgr w :
  log mgr = [] -> undo_body shorten quiet (mgr, w) = (Raise IndexError, (mgr, w)).
Proof.
  intros H. unfold undo_body, bind, pop. now rewrite H.
Qed.

Lemma undo_body_cons quiet mgr w :
  log mgr <> [] ->
  exists c,
    undo_body shorten quiet (mgr, w)
    = (Return tt, (set_log (removelast (log mgr)) mgr, mkWorld (fs w) c)).
Proof.
  intros H. unfold undo_body, bind, pop.
  destruct (last (log mgr)) as [u|] eqn:E.
  - destruct quiet; simpl.
    + exists (console w). destruct w; reflexivity.
    + eexists. reflexivity.
  - apply last_None in E. contradiction.
Qed.

(** [k] rounds of the loop: they remove [k] messages when the log has that
    many, and otherwise empty the log and fail on the next [pop]. *)
Lemma for_range_undo_body quiet k : forall mgr w,
  exists c,
    for_range k (undo_body shorten quiet) (mgr, w)
    = (if k <=? length (log mgr) then Return tt else Raise IndexError,
       (set_log (take (length (log mgr) - k) (log mgr)) mgr,
        mkWorld (fs w) c)).
Proof.
  induction k as [|k IH]; intros mgr w.
  - exists (console w). simpl. unfold ret.
    rewrite Nat.sub_0_r, firstn_all. destruct mgr, w; reflexivity.
  - simpl for_range. unfold bind at 1.
    destruct (log mgr) as [|m l] eqn:E.
    + rewrite undo_body_nil by exact E. exists (console w).
      unfold set_log. destruct mgr, w; simpl in *. now subst.
    + destruct (undo_body_cons quiet mgr w) as [c Hc]; [congruence |].
      rewrite Hc.
      destruct (IH (set_log (removelast (log mgr)) mgr) (mkWorld (fs w) c))
        as [c' Hc'].
      rewrite Hc'. exists c'. simpl fs. unfold set_log at 1 2 3. simpl log.
      simpl logfile. simpl show_hidden.
      rewrite ?E. rewrite (removelast_take (m :: l)).
      rewrite length_take. simpl length.
      replace (S (length l) - 1) with (length l) by lia.
      rewrite Nat.min_l by lia.
      rewrite take_take.
      replace ((length l - k) `min` length l) with (length l - k) by lia.
      replace (S (length l) - S k) with (length l - k) by lia.
      unfold set_log. simpl.
      destruct (k <=? length l) eqn:L.
      * apply Nat.leb_le in L.
        replace (S k <=? S (length l)) with true
          by (symmetry; apply Nat.leb_le; lia).
        reflexivity.
      * apply Nat.leb_gt in L.
        replace (S k <=? S (length l)) with false
          by (symmetry; apply Nat.leb_gt; lia).
        reflexivity.
Qed.

Lemma set_log_same mgr : set_log (log mgr) mgr = mgr.
Proof. now destruct mgr. Qed.

(** The first two lines of [undo] leave the log without its marker. *)
Lemma undo_discard (k : M unit) mgr w :
  (let* undid := peek_last in
   let* _ :=
     match undid with
     | Some u =>
         if Str.startswith ".undo" (content u)
         then (let* _ := pop in ret tt)
         else ret tt
     | None => ret tt
     end in
   k) (mgr, w)
  = k (set_log (discard_undo_tail (log mgr)) mgr, w).
Proof.
  unfold discard_undo_tail, bind, peek_last.
  destruct (last (log mgr)) as [u|] eqn:E.
  - destruct (Str.startswith ".undo" (content u)).
    + unfold pop. rewrite E. reflexivity.
    + unfold ret. now rewrite set_log_same.
  - unfold ret. now rewrite set_log_same.
Qed.

(** [undo] in one equation: discard the marker, then either report that
    nothing is left or run the loop. *)
Lemma undo_unfold n quiet mgr w :
  let l1 := discard_undo_tail (log mgr) in
  undo shorten n quiet (mgr, w)
  = match l1 with
    | [] => (Return tt,
             (set_log l1 mgr,
              mkWorld (fs w) (console w ++ [PrintLine "[yellow]Nothing to undo.[/]"])))
    | _ :: _ =>
        for_range (Z.to_nat n) (undo_body shorten quiet)
          (set_log l1 mgr,
           mkWorld (fs w)
             (if negb quiet
              then console w ++ [PrintLine "[yellow]Undoing messages:[/yellow]"]
              else console w))
    end.
Proof.
  cbv zeta. unfold undo. rewrite undo_discard.
  destruct (discard_undo_tail (log mgr)) as [|a l].
  - reflexivity.
  - unfold bind at 1. unfold peek_last at 1.
    change (log (set_log (a :: l) mgr)) with (a :: l).
    destruct (last (a :: l)) as [x|] eqn:L.
    + unfold bind at 1. destruct quiet; simpl negb; cbv iota.
      * unfold ret at 1. destruct w; reflexivity.
      * reflexivity.
    + apply last_None in L. discriminate.
Qed.

End UndoFacts.

Section UndoProperties.

Variable dumps : json -> string.
Variable shorten : string -> string.

(** The whole effect of [undo]: the file system is the one before the call,
    the log is a prefix of the log without its marker. *)
Lemma undo_shape n quiet mgr w :
  let l1 := discard_undo_tail (log mgr) in
  exists c,
    undo shorten n quiet (mgr, w)
    = (match l1 with
       | [] => Return tt
       | _ :: _ =>
           if Z.to_nat n <=? length l1 then Return tt else Raise IndexError
       end,
       (set_log (take (length l1 - Z.to_nat n) l1) mgr, mkWorld (fs w) c)).
Proof.
  cbv zeta. rewrite undo_unfold.
  destruct (discard_undo_tail (log mgr)) as [|a l] eqn:E.
  - eexists. reflexivity.
  - match goal with
    | |- context [for_range ?k ?b (?m, ?w')] =>
        destruct (for_range_undo_body shorten quiet k m w') as [c Hc]
    end.
    rewrite Hc. exists c. reflexivity.
Qed.

Lemma undo_nothing n quiet mgr w :
  discard_undo_tail (log mgr) = [] ->
  undo shorten n quiet (mgr, w)
  = (Return tt,
     (set_log [] mgr,
      mkWorld (fs w) (console w ++ [PrintLine "[yellow]Nothing to undo.[/]"]))).
Proof. intros H. rewrite undo_unfold. cbv zeta. now rewrite H. Qed.

Lemma discard_undo_tail_prefix (l : list Message) :
  exists r, l = discard_undo_tail l ++ r /\ length r <= 1.
Proof.
  unfold discard_undo_tail. destruct (last l) as [u|] eqn:E.
  - destruct (Str.startswith ".undo" (content u)).
    + exists [u]. split; [now apply last_removelast_app | simpl; lia].
    + exists []. split; [now rewrite app_nil_r | simpl; lia].
  - exists []. split; [now rewrite app_nil_r | simpl; lia].
Qed.

Lemma serialize_app (a b : list Message) :
  serialize dumps (a ++ b) = serialize dumps a +:+ serialize dumps b.
Proof.
  induction a as [|m a IH]; simpl; [reflexivity |].
  rewrite IH. now rewrite StrFacts.append_assoc.
Qed.

Lemma serialize_nonempty (l : list Message) :
  l <> [] -> serialize dumps l <> "".
Proof.
  destruct l as [|m l]; [congruence |]. intros _ H.
  apply (f_equal String.length) in H. simpl in H.
  unfold record_line in H. rewrite !StrFacts.length_append in H. simpl in H. lia.
Qed.

Lemma append_not_self (s t : string) : t <> "" -> s +:+ t <> s.
Proof.
  intros Ht H. apply (f_equal String.length) in H.
  rewrite StrFacts.length_append in H. destruct t; [congruence | simpl in H; lia].
Qed.

Lemma append_consistent msg mgr w :
  let st2 := append dumps msg (mgr, w) in
  result st2 = Return tt /\
  final_log st2 = log mgr ++ [msg] /\
  final_logfile st2 = logfile mgr /\
  final_fs st2 = <[logfile mgr := serialize dumps (log mgr ++ [msg])]> (fs w).
Proof.
  cbv zeta. unfold append, bind, write. simpl.
  destruct (quiet msg); simpl; repeat split.
Qed.

Lemma write_consistent mgr w :
  let st2 := write dumps (mgr, w) in
  result st2 = Return tt /\
  final_log st2 = log mgr /\
  final_logfile st2 = logfile mgr /\
  final_fs st2 = <[logfile mgr := serialize dumps (log mgr)]> (fs w).
Proof. cbv zeta. unfold write. simpl. repeat split. Qed.

(** C3, as amended: on a log of length [N >= 1] whose last message does not
    start with [.undo], [undo(1)] returns and leaves [N - 1] messages; when
    the last message does start with [.undo] it is discarded first and one
    more message goes, if there is one ([N - 2], and [0] for [N = 1]); on an
    empty log [undo] returns, leaves the log empty and prints the notice
    that there is nothing to undo. *)
Theorem undo_one_length (quiet : bool) (st : St) :
  let st' := undo shorten 1 quiet st in
  result st' = Return tt /\
  (forall u, last (log (fst st)) = Some u ->
     Str.startswith ".undo" (content u) = false ->
     length (final_log st') = length (log (fst st)) - 1) /\
  (forall u, last (log (fst st)) = Some u ->
     Str.startswith ".undo" (content u) = true ->
     length (final_log st') = length (log (fst st)) - 2) /\
  (log (fst st) = [] ->
     final_log st' = [] /\
     final_console st'
     = console (snd st) ++ [PrintLine "[yellow]Nothing to undo.[/]"]).
Proof.
  destruct st as [mgr w]. cbv zeta. simpl fst. simpl snd.
  destruct (undo_shape 1 quiet mgr w) as [c Hc]. cbv zeta in Hc.
  split; [| split; [| split]].
  - rewrite Hc. unfold result. simpl fst.
    destruct (discard_undo_tail (log mgr)) as [|a l]; [reflexivity |].
    reflexivity.
  - intros u Hu Hs. rewrite Hc. unfold final_log. simpl.
    unfold discard_undo_tail. rewrite Hu, Hs.
    rewrite length_take. lia.
  - intros u Hu Hs. rewrite Hc. unfold final_log. simpl.
    unfold discard_undo_tail. rewrite Hu, Hs.
    rewrite length_take. rewrite removelast_take, length_take. lia.
  - intros Hnil. rewrite undo_nothing.
    + split; reflexivity.
    + unfold discard_undo_tail. now rewrite Hnil.
Qed.

(** C9: when the log, once a trailing [.undo] message is discarded, is not
    empty but holds fewer than [n] messages, [undo(n)] removes them all and
    then raises [IndexError] from the next [pop]. *)
Theorem undo_more_than_available (n : Z) (quiet : bool) (st : St) :
  discard_undo_tail (log (fst st)) <> [] ->
  (Z.of_nat (length (discard_undo_tail (log (fst st)))) < n)%Z ->
  result (undo shorten n quiet st) = Raise IndexError /\
  final_log (undo shorten n quiet st) = [].
Proof.
  destruct st as [mgr w]. simpl fst. intros Hne Hlt.
  destruct (undo_shape n quiet mgr w) as [c Hc]. cbv zeta in Hc.
  rewrite Hc. unfold result, final_log. simpl.
  destruct (discard_undo_tail (log mgr)) as [|a l] eqn:E; [congruence |].
  assert (Hn : length (a :: l) < Z.to_nat n) by lia.
  split.
  - replace (Z.to_nat n <=? length (a :: l)) with false; [reflexivity |].
    symmetry. apply Nat.leb_gt. exact Hn.
  - replace (length (a :: l) - Z.to_nat n) with 0 by lia. reflexivity.
Qed.

(** C8: [undo] changes the log in memory only.  The file system and the file
    pointer are the ones before the call; if the file held the log before,
    it still holds the removed messages after the kept ones, so it differs
    from the log in memory as soon as something was removed; the next
    [append] or [write] makes the file hold the log in memory again. *)
Theorem undo_never_writes (n : Z) (quiet : bool) (st : St) :
  let st' := undo shorten n quiet st in
  final_fs st' = fs (snd st) /\
  final_logfile st' = logfile (fst st) /\
  (exists removed,
     log (fst st) = final_log st' ++ removed /\
     (fs (snd st) !! logfile (fst st) = Some (serialize dumps (log (fst st))) ->
      final_fs st' !! final_logfile st'
      = Some (serialize dumps (final_log st') +:+ serialize dumps removed) /\
      (removed <> [] ->
       final_fs st' !! final_logfile st'
       <> Some (serialize dumps (final_log st'))))) /\
  (forall msg,
     let st2 := append dumps msg (snd st') in
     final_log st2 = final_log st' ++ [msg] /\
     final_fs st2 !! final_logfile st2 = Some (serialize dumps (final_log st2))) /\
  (let st2 := write dumps (snd st') in
   final_log st2 = final_log st' /\
   final_fs st2 !! final_logfile st2 = Some (serialize dumps (final_log st2))).
Proof.
  destruct st as [mgr w]. cbv zeta. simpl fst. simpl snd.
  destruct (undo_shape n quiet mgr w) as [c Hc]. cbv zeta in Hc.
  rewrite Hc. unfold final_fs, final_logfile, final_log. simpl.
  split; [reflexivity |]. split; [reflexivity |].
  split; [| split].
  - destruct (discard_undo_tail_prefix (log mgr)) as (r & Hr & _).
    set (l1 := discard_undo_tail (log mgr)) in *.
    exists (drop (length l1 - Z.to_nat n) l1 ++ r). split.
    + rewrite app_assoc, take_drop. exact Hr.
    + intros Hfile. rewrite Hfile. split.
      * rewrite <- serialize_app. rewrite app_assoc, take_drop, <- Hr.
        reflexivity.
      * intros Hrem Heq. injection Heq as Heq.
        rewrite Hr in Heq at 1.
        rewrite <- (take_drop (length l1 - Z.to_nat n) l1) in Heq at 1.
        rewrite <- app_assoc, serialize_app in Heq.
        revert Heq. apply append_not_self. now apply serialize_nonempty.
  - intros msg.
    match goal with
    | |- context [append dumps msg (?m, ?w')] =>
        destruct (append_consistent msg m w') as (_ & A1 & A2 & A3)
    end.
    unfold final_log, final_logfile, final_fs in A1, A2, A3.
    rewrite A1, A2, A3. simpl. split; [reflexivity |].
    apply lookup_insert_eq.
  - split; [reflexivity |]. apply lookup_insert_eq.
Qed.

(** C5, as amended: [fork(name)] writes the log in memory to the current
    file, then points the manager at [parent / (name + ".log")]; it does not
    write that new file itself.  Every later [append] writes the whole log to
    the new file and leaves the old file as [fork] saved it. *)
Theorem fork_saves_then_switches (name : string) (st : St) :
  let st' := fork dumps name st in
  let old := logfile (fst st) in
  let new := joinpath (parent old) (name +:+ ".log") in
  result st' = Return tt /\
  final_log st' = log (fst st) /\
  final_logfile st' = new /\
  final_fs st' = <[old := serialize dumps (log (fst st))]> (fs (snd st)) /\
  (new <> old -> final_fs st' !! new = fs (snd st) !! new) /\
  (forall msg,
     let st2 := append dumps msg (snd st') in
     final_fs st2 !! new = Some (serialize dumps (log (fst st) ++ [msg])) /\
     (new <> old ->
      final_fs st2 !! old = Some (serialize dumps (log (fst st))))).
Proof.
  destruct st as [mgr w]. cbv zeta. simpl fst. simpl snd.
  unfold fork, bind, write. simpl.
  unfold result, final_log, final_logfile, final_fs. simpl.
  repeat split.
  - intros Hne. now rewrite lookup_insert_ne.
  - match goal with
    | |- context [append dumps msg (?m, ?w')] =>
        destruct (append_consistent msg m w') as (_ & _ & _ & A)
    end.
    unfold final_fs in A. rewrite A. apply lookup_insert_eq.
  - intros Hne.
    match goal with
    | |- context [append dumps msg (?m, ?w')] =>
        destruct (append_consistent msg m w') as (_ & _ & _ & A)
    end.
    unfold final_fs in A. rewrite A. simpl.
    rewrite lookup_insert_ne by exact Hne. apply lookup_insert_eq.
Qed.

End UndoProperties.

(** C3, counterexample: on the two-message log [hi; .undo], [undo(1)] first
    discards the [.undo] message and then removes [hi]: the log is empty,
    not of length one. *)
Lemma undo_one_after_marker_removes_two :
  ~ (forall (shorten : string -> string) (quiet : bool) (st : St),
       1 <= length (log (fst st)) ->
       length (final_log (undo shorten 1 quiet st))
       = length (log (fst st)) - 1).
Proof.
  intros H.
  pose proof (H Demo.shorten true (Demo.saved [Demo.hi; Demo.undo_cmd])
                ltac:(simpl; lia)) as X.
  vm_compute in X. discriminate X.
Qed.

Lemma undo_one_length_witness :
  last [Demo.hi; Demo.hello] = Some Demo.hello /\
  Str.startswith ".undo" (content Demo.hello) = false /\
  length (final_log (undo Demo.shorten 1 false
                       (Demo.saved [Demo.hi; Demo.hello]))) = 2 - 1.
Proof.
  split; [reflexivity |]. split; [reflexivity |].
  exact (proj1 (proj2 (undo_one_length Demo.shorten false
                         (Demo.saved [Demo.hi; Demo.hello])))
           Demo.hello eq_refl eq_refl).
Defined.

Lemma undo_more_than_available_witness :
  discard_undo_tail [Demo.hi; Demo.undo_cmd] = [Demo.hi] /\
  result (undo Demo.shorten 2 false (Demo.saved [Demo.hi; Demo.undo_cmd]))
  = Raise IndexError.
Proof.
  split; [reflexivity |].
  apply (undo_more_than_available Demo.shorten 2 false
           (Demo.saved [Demo.hi; Demo.undo_cmd])).
  - discriminate.
  - vm_compute. reflexivity.
Defined.

Lemma undo_never_writes_witness :
  let st' := undo Demo.shorten 1 true (Demo.saved [Demo.hi; Demo.hello]) in
  final_log st' = [Demo.hi] /\
  final_fs st' !! Demo.logpath
  = Some (serialize Json.dumps [Demo.hi; Demo.hello]) /\
  final_fs st' !! Demo.logpath <> Some (serialize Json.dumps (final_log st')).
Proof.
  cbv zeta.
  destruct (undo_never_writes Json.dumps Demo.shorten 1 true
              (Demo.saved [Demo.hi; Demo.hello]))
    as (Hfs & Hfile & (removed & Hlog & Hdisk) & _).
  split; [reflexivity |].
  destruct (Hdisk ltac:(apply lookup_singleton_eq)) as [Hkeep Hdiff].
  split.
  - rewrite Hfs. apply lookup_singleton_eq.
  - rewrite Hfile in Hdiff. apply Hdiff.
    intros ->. rewrite app_nil_r in Hlog. discriminate Hlog.
Defined.

(** C5, counterexample: after [hi; hello] was saved and [hello] undone,
    [fork("branch")] leaves no file at [branch.log] and replaces the text of
    the old file, which held both messages, by the single message left. *)
Lemma fork_writes_old_file_only :
  let st1 := snd (undo Demo.shorten 1 true (Demo.saved [Demo.hi; Demo.hello])) in
  let st2 := fork Json.dumps "branch" st1 in
  fs (snd st1) !! Demo.logpath
  = Some (serialize Json.dumps [Demo.hi; Demo.hello]) /\
  final_logfile st2 = ["logs"; "demo"; "branch.log"] /\
  final_fs st2 !! ["logs"; "demo"; "branch.log"] = None /\
  final_fs st2 !! Demo.logpath = Some (serialize Json.dumps [Demo.hi]).
Proof. vm_compute. repeat split. Qed.

Lemma fork_saves_then_switches_witness :
  let st' := fork Json.dumps "branch" (Demo.saved [Demo.hi]) in
  let st2 := append Json.dumps Demo.hello (snd st') in
  ["logs"; "demo"; "branch.log"] <> Demo.logpath /\
  final_fs st2 !! ["logs"; "demo"; "branch.log"]
  = Some (serialize Json.dumps [Demo.hi; Demo.hello]) /\
  final_fs st2 !! Demo.logpath = Some (serialize Json.dumps [Demo.hi]).
Proof.
  cbv zeta.
  assert (Hne : ["logs"; "demo"; "branch.log"] <> Demo.logpath)
    by discriminate.
  split; [exact Hne |].
  destruct (fork_saves_then_switches Json.dumps "branch" (Demo.saved [Demo.hi]))
    as (_ & _ & _ & _ & _ & Happ).
  destruct (Happ Demo.hello) as [Hnew Hold].
  split; [exact Hnew | exact (Hold Hne)].
Defined.

(** ** Writing a log and loading it again *)

Section RoundTrip.

Variable dumps : json -> string.
Variable loads : string -> option json.
Variable now : Timestamp.
Variable LOGSDIR : Path.
Variable is_dir : Path -> bool.

(** Where a regular file is, [load] reads it, whatever else there is. *)
Lemma load_file_at (p : Path) (text : string) (initial : list Message)
    (show : bool) (w : World) :
  fs w !! p = Some text ->
  load loads now LOGSDIR is_dir p initial show w
  = match map_outcome
            (fun line =>
               match loads line with
               | None => Raise JSONDecodeError
               | Some v => MessageRecord.of_dict now v
               end)
            (readlines text) with
    | Raise e => Raise e
    | Return msgs =>
        Return (mkLogManager
                  (match msgs with [] => initial | _ :: _ => msgs end) p show)
    end.
Proof.
  intros Hp.
  assert (Hex : path_exists is_dir w p = true).
  { unfold path_exists. rewrite Hp.
    now rewrite bool_decide_eq_true_2 by (eexists; reflexivity). }
  unfold load. cbv zeta. rewrite Hex. cbv iota. rewrite Hex.
  cbn [negb]. cbv iota. unfold Path in *. rewrite Hp. reflexivity.
Qed.

Lemma universal_newlines_no_cr (s : string) :
  Str.count CR s = 0 -> universal_newlines s = s.
Proof.
  induction s as [|c s IH]; [reflexivity |]. simpl.
  destruct (Ascii.eqb c CR); [discriminate |].
  intros H. now rewrite IH.
Qed.

Lemma splitlines_line (s rest : string) :
  Str.count LF s = 0 ->
  splitlines (s +:+ String LF rest) = (s +:+ NL) :: splitlines rest.
Proof.
  induction s as [|c s IH]; simpl; intros H; [reflexivity |].
  destruct (Ascii.eqb c LF); [discriminate |].
  now rewrite IH.
Qed.

Lemma serialize_no_cr (msgs : list Message) :
  Forall (codec_ok dumps loads) msgs -> Str.count CR (serialize dumps msgs) = 0.
Proof.
  induction 1 as [|m l (_ & Hcr & _) _ IH]; [reflexivity |].
  simpl. unfold record_line. rewrite !StrFacts.count_append, Hcr, IH. reflexivity.
Qed.

Lemma readlines_serialize (msgs : list Message) :
  Forall (codec_ok dumps loads) msgs ->
  readlines (serialize dumps msgs) = map (record_line dumps) msgs.
Proof.
  intros H. unfold readlines.
  rewrite universal_newlines_no_cr by now apply serialize_no_cr.
  induction H as [|m l (Hlf & _ & _) _ IH]; [reflexivity |].
  simpl. unfold record_line at 1. rewrite StrFacts.append_assoc.
  change (NL +:+ serialize dumps l) with (String LF (serialize dumps l)).
  rewrite splitlines_line by exact Hlf. now rewrite IH.
Qed.

Lemma decode_lines (msgs : list Message) :
  Forall (codec_ok dumps loads) msgs ->
  map_outcome
    (fun line =>
       match loads line with
       | None => Raise JSONDecodeError
       | Some v => MessageRecord.of_dict now v
       end)
    (map (record_line dumps) msgs)
  = Return msgs.
Proof.
  induction 1 as [|m l (_ & _ & Hl) _ IH]; [reflexivity |].
  simpl. rewrite Hl, MessageRecordFacts.of_dict_to_dict, IH. reflexivity.
Qed.

(** Loading the file that [write_log] has just written for the list
    [msgs]: the messages come back in order, except that an empty list comes
    back as the caller's initial messages. *)
Lemma load_after_write_log (p : Path) (msgs initial : list Message)
    (show : bool) (w : World) :
  Forall (codec_ok dumps loads) msgs ->
  load loads now LOGSDIR is_dir p initial show
    (set_fs (write_log dumps (inr msgs) p (fs w)) w)
  = Return (mkLogManager
              (match msgs with [] => initial | _ :: _ => msgs end) p show).
Proof.
  intros H.
  rewrite (load_file_at p (serialize dumps msgs))
    by (unfold set_fs; cbn [fs write_log]; apply lookup_insert_eq).
  rewrite readlines_serialize by exact H.
  rewrite decode_lines by exact H.
  reflexivity.
Qed.

End RoundTrip.

(** ** The codec of [Json] on message records *)

Module JsonFacts.

Import Json.

Lemma escape_char_one_line (c : ascii) :
  Str.count LF (escape_char c) = 0 /\ Str.count CR (escape_char c) = 0.
Proof. destruct c as [[] [] [] [] [] [] [] []]; split; reflexivity. Qed.

Lemma escape_one_line (s : string) :
  Str.count LF (escape s) = 0 /\ Str.count CR (escape s) = 0.
Proof.
  induction s as [|c s [IH1 IH2]]; [split; reflexivity |].
  destruct (escape_char_one_line c) as [H1 H2].
  simpl. rewrite !StrFacts.count_append, H1, H2, IH1, IH2. split; reflexivity.
Qed.

Lemma quote_one_line (s : string) :
  Str.count LF (quote s) = 0 /\ Str.count CR (quote s) = 0.
Proof.
  destruct (escape_one_line s) as [H1 H2].
  unfold quote. simpl. rewrite !StrFacts.count_append, H1, H2.
  split; reflexivity.
Qed.

Lemma join_one_line (x : ascii) (sep : string) (l : list string) :
  Str.count x sep = 0 ->
  Forall (fun s => Str.count x s = 0) l ->
  Str.count x (join sep l) = 0.
Proof.
  intros Hsep H. unfold join.
  induction H as [|s l Hs Hl IH]; [reflexivity |].
  simpl. destruct l as [|t l]; [exact Hs |].
  rewrite !StrFacts.count_append, Hs, Hsep, IH. reflexivity.
Qed.

Lemma quoted_files_one_line (x : ascii) (l : list string) :
  x = LF \/ x = CR ->
  Forall (fun s => Str.count x s = 0) (map dumps (map JStr l)).
Proof.
  intros Hx. induction l as [|s l IH]; simpl; constructor; [| exact IH].
  destruct (quote_one_line s) as [H1 H2]. destruct Hx; subst; assumption.
Qed.

Lemma dumps_JDict (d : list (string * json)) :
  dumps (JDict d)
  = "{" +:+ join ", " (map (fun kv => quote (fst kv) +:+ ": " +:+ dumps (snd kv)) d)
        +:+ "}".
Proof.
  simpl. do 3 f_equal. apply map_ext. now intros [k v].
Qed.

Lemma dumps_JList (l : list json) :
  dumps (JList l) = "[" +:+ join ", " (map dumps l) +:+ "]".
Proof. reflexivity. Qed.

Lemma dumps_record_one_line (x : ascii) (m : Message) :
  x = LF \/ x = CR ->
  Str.count x (dumps (MessageRecord.to_dict m)) = 0.
Proof.
  intros Hx.
  assert (Hq : forall s, Str.count x (quote s) = 0).
  { intros s. destruct (quote_one_line s). destruct Hx; subst; assumption. }
  assert (Hb : forall b, Str.count x (dumps (JBool b)) = 0).
  { intros []; destruct Hx; subst; reflexivity. }
  assert (Hl : Str.count x (join ", " (map dumps (map JStr (files m)))) = 0).
  { apply join_one_line; [destruct Hx; subst; reflexivity |].
    now apply quoted_files_one_line. }
  destruct m as [r c fs h q p t]. unfold MessageRecord.to_dict.
  cbn [role content files hide quiet pinned timestamp] in *.
  rewrite dumps_JDict. rewrite !StrFacts.count_append.
  rewrite join_one_line.
  - destruct Hx; subst; reflexivity.
  - destruct Hx; subst; reflexivity.
  - repeat constructor; cbn [fst snd]; rewrite ?dumps_JList;
      rewrite !StrFacts.count_append;
      rewrite ?Hl, ?Hb; change (dumps (JStr ?s)) with (quote s);
      rewrite ?Hq; destruct Hx; subst; reflexivity.
Qed.

(** Reading back what [escape] printed. *)
Lemma parse_str_escape_char (c : ascii) (tail : string) :
  parse_str (escape_char c +:+ tail)
  = match parse_str tail with
    | Some (t, r) => Some (String c t, r)
    | None => None
    end.
Proof. destruct c as [[] [] [] [] [] [] [] []]; reflexivity. Qed.

Lemma parse_str_escape (s rest : string) :
  parse_str (escape s +:+ String DQ rest) = Some (s, rest).
Proof.
  induction s as [|c s IH].
  - reflexivity.
  - simpl escape. rewrite StrFacts.append_assoc, parse_str_escape_char, IH.
    reflexivity.
Qed.

Lemma parse_value_space (n : nat) (s : string) :
  parse_value n (String " " s) = parse_value n s.
Proof. destruct n; reflexivity. Qed.

Lemma parse_members_space (n : nat) (s : string) :
  parse_members n (String " " s) = parse_members n s.
Proof. destruct n; reflexivity. Qed.

Lemma parse_value_quote (n : nat) (s rest : string) :
  parse_value (S n) (quote s +:+ rest) = Some (JStr s, rest).
Proof.
  unfold quote. simpl. rewrite StrFacts.append_assoc. simpl.
  rewrite parse_str_escape. reflexivity.
Qed.

Lemma parse_value_bool (n : nat) (b : bool) (rest : string) :
  parse_value (S n) (dumps (JBool b) +:+ rest) = Some (JBool b, rest).
Proof. destruct b; reflexivity. Qed.

Lemma parse_elems_space (n : nat) (s : string) :
  parse_elems n (String " " s) = parse_elems n s.
Proof. destruct n; [reflexivity |]. simpl. now rewrite parse_value_space. Qed.

Lemma parse_elems_eq (n : nat) (s : string) :
  parse_elems (S n) s
  = match parse_value n s with
    | Some (v, rest) =>
        match skip_ws rest with
        | String "," rest' =>
            match parse_elems n rest' with
            | Some (l, rest'') => Some (v :: l, rest'')
            | None => None
            end
        | String "]" rest' => Some ([v], rest')
        | _ => None
        end
    | None => None
    end.
Proof. reflexivity. Qed.

Lemma comma_space (x : string) : ", " +:+ x = String "," (String " " x).
Proof. reflexivity. Qed.

Lemma parse_elems_quoted (fs : list string) : forall (f : string) (n : nat) (rest : string),
  S (length (f :: fs)) <= n ->
  parse_elems n (join ", " (map quote (f :: fs)) +:+ String "]" rest)
  = Some (map JStr (f :: fs), rest).
Proof.
  induction fs as [|g fs IH]; intros f n rest Hn.
  - destruct n as [|[|n]]; [simpl in Hn; lia .. |].
    change (join ", " (map quote [f])) with (quote f).
    rewrite parse_elems_eq, parse_value_quote. reflexivity.
  - destruct n as [|[|n]]; [simpl in Hn; lia .. |].
    change (join ", " (map quote (f :: g :: fs)))
      with (quote f +:+ ", " +:+ join ", " (map quote (g :: fs))).
    rewrite !StrFacts.append_assoc.
    rewrite parse_elems_eq, parse_value_quote, comma_space.
    change (skip_ws (String "," ?x)) with (String "," x).
    cbv beta iota.
    rewrite parse_elems_space.
    rewrite IH by (simpl in *; lia). reflexivity.
Qed.

Lemma parse_value_bracket (n : nat) (r : string) :
  parse_value (S n) (String "[" r)
  = match skip_ws r with
    | String "]" rest => Some (JList [], rest)
    | _ => match parse_elems n r with
           | Some (l, rest) => Some (JList l, rest)
           | None => None
           end
    end.
Proof. reflexivity. Qed.

Lemma parse_value_brace (n : nat) (r : string) :
  parse_value (S n) (String "{" r)
  = match skip_ws r with
    | String "}" rest => Some (JDict [], rest)
    | _ => match parse_members n r with
           | Some (d, rest) => Some (JDict d, rest)
           | None => None
           end
    end.
Proof. reflexivity. Qed.

Lemma parse_value_files (fs : list string) (n : nat) (rest : string) :
  S (S (length fs)) <= n ->
  parse_value n (dumps (JList (map JStr fs)) +:+ rest)
  = Some (JList (map JStr fs), rest).
Proof.
  intros Hn. destruct n as [|n]; [lia |].
  rewrite dumps_JList, map_map.
  change (map (fun x => dumps (JStr x)) fs) with (map quote fs).
  rewrite !StrFacts.append_assoc.
  change ("[" +:+ ?x) with (String "[" x).
  change ("]" +:+ rest) with (String "]" rest).
  rewrite parse_value_bracket.
  destruct fs as [|f fs]; [reflexivity |].
  rewrite parse_elems_quoted by (simpl in *; lia).
  change (join ", " (map quote (f :: fs)))
    with (String.concat ", " (quote f :: map quote fs)).
  unfold quote at 1.
  destruct (map quote fs); reflexivity.
Qed.

Lemma parse_members_eq (n : nat) (r : string) :
  parse_members (S n) (String DQ r)
  = match parse_str r with
    | Some (k, rest) =>
        match skip_ws rest with
        | String ":" rest1 =>
            match parse_value n rest1 with
            | Some (v, rest2) =>
                match skip_ws rest2 with
                | String "," rest3 =>
                    match parse_members n rest3 with
                    | Some (d, rest4) => Some ((k, v) :: d, rest4)
                    | None => None
                    end
                | String "}" rest3 => Some ([(k, v)], rest3)
                | _ => None
                end
            | None => None
            end
        | _ => None
        end
    | None => None
    end.
Proof. reflexivity. Qed.

(** One member followed by more members, and the last member. *)
Lemma parse_members_step (n : nat) (k V : string) (v : json) (more : string) :
  (forall X, parse_value n (V +:+ X) = Some (v, X)) ->
  parse_members (S n) (quote k +:+ ": " +:+ V +:+ ", " +:+ more)
  = match parse_members n more with
    | Some (d, r) => Some ((k, v) :: d, r)
    | None => None
    end.
Proof.
  intros HV. unfold quote.
  change (String DQ (escape k +:+ String DQ "") +:+ ?x)
    with (String DQ ((escape k +:+ String DQ "") +:+ x)).
  rewrite StrFacts.append_assoc.
  change (String DQ "" +:+ ?x) with (String DQ x).
  rewrite parse_members_eq, parse_str_escape.
  change (": " +:+ ?x) with (String ":" (String " " x)).
  change (skip_ws (String ":" ?x)) with (String ":" x). cbv beta iota.
  rewrite parse_value_space, HV, comma_space.
  change (skip_ws (String "," ?x)) with (String "," x). cbv beta iota.
  now rewrite parse_members_space.
Qed.

Lemma parse_members_last (n : nat) (k V : string) (v : json) (rest : string) :
  (forall X, parse_value n (V +:+ X) = Some (v, X)) ->
  parse_members (S n) (quote k +:+ ": " +:+ V +:+ String "}" rest)
  = Some ([(k, v)], rest).
Proof.
  intros HV. unfold quote.
  change (String DQ (escape k +:+ String DQ "") +:+ ?x)
    with (String DQ ((escape k +:+ String DQ "") +:+ x)).
  rewrite StrFacts.append_assoc.
  change (String DQ "" +:+ ?x) with (String DQ x).
  rewrite parse_members_eq, parse_str_escape.
  change (": " +:+ ?x) with (String ":" (String " " x)).
  change (skip_ws (String ":" ?x)) with (String ":" x). cbv beta iota.
  rewrite parse_value_space, HV. reflexivity.
Qed.

Lemma parse_value_brace_quote (n : nat) (k r : string) :
  parse_value (S n) (String "{" (quote k +:+ r))
  = match parse_members n (quote k +:+ r) with
    | Some (d, rest) => Some (JDict d, rest)
    | None => None
    end.
Proof. reflexivity. Qed.

(** Enough fuel reads a message record back. *)
Lemma parse_value_record (m : Message) (n : nat) (rest : string) :
  9 + length (files m) <= n ->
  parse_value n (dumps (MessageRecord.to_dict m) +:+ rest)
  = Some (MessageRecord.to_dict m, rest).
Proof.
  destruct m as [r c fs h q p t]. cbn [files]. intros Hn.
  do 9 (destruct n as [|n]; [lia |]).
  unfold MessageRecord.to_dict. cbn [role content files hide quiet pinned timestamp].
  rewrite dumps_JDict. cbn [map join String.concat fst snd].
  rewrite !StrFacts.append_assoc.
  change ("{" +:+ ?x) with (String "{" x).
  change ("}" +:+ rest) with (String "}" rest).
  rewrite parse_value_brace_quote.
  rewrite (parse_members_step _ "role" _ (JStr (role_str r)))
    by (intros X; apply parse_value_quote).
  rewrite (parse_members_step _ "content" _ (JStr c))
    by (intros X; apply parse_value_quote).
  rewrite (parse_members_step _ "files" _ (JList (map JStr fs)))
    by (intros X; apply parse_value_files; lia).
  rewrite (parse_members_step _ "hide" _ (JBool h))
    by (intros X; apply parse_value_bool).
  rewrite (parse_members_step _ "quiet" _ (JBool q))
    by (intros X; apply parse_value_bool).
  rewrite (parse_members_step _ "pinned" _ (JBool p))
    by (intros X; apply parse_value_bool).
  rewrite (parse_members_last _ "timestamp" _ (JStr t))
    by (intros X; apply parse_value_quote).
  reflexivity.
Qed.

Lemma length_quote (s : string) : 2 <= String.length (quote s).
Proof.
  unfold quote. simpl. rewrite StrFacts.length_append. simpl. lia.
Qed.

Lemma length_join_quoted (fs : list string) :
  length fs <= String.length (join ", " (map quote fs)).
Proof.
  induction fs as [|f fs IH]; [simpl; lia |].
  change (join ", " (map quote (f :: fs)))
    with (String.concat ", " (quote f :: map quote fs)).
  pose proof (length_quote f) as Hq.
  cbn [String.concat]. destruct (map quote fs) as [|g l] eqn:E.
  - destruct fs; [simpl; lia | discriminate].
  - rewrite !StrFacts.length_append. unfold join in IH. simpl length. lia.
Qed.

Lemma record_length (m : Message) :
  9 + length (files m) <= String.length (dumps (MessageRecord.to_dict m)).
Proof.
  destruct m as [r c fs h q p t]. cbn [files].
  unfold MessageRecord.to_dict. cbn [role content files hide quiet pinned timestamp].
  rewrite dumps_JDict. cbn [map join String.concat fst snd].
  rewrite dumps_JList, map_map.
  change (map (fun x => dumps (JStr x)) fs) with (map quote fs).
  rewrite !StrFacts.length_append.
  pose proof (length_join_quoted fs) as Hfs.
  pose proof (length_quote "role") as H1.
  pose proof (length_quote "content") as H2.
  pose proof (length_quote "files") as H3.
  pose proof (length_quote "hide") as H4.
  change (String.length "{") with 1.
  lia.
Qed.

Lemma loads_record_line (m : Message) :
  loads (record_line dumps m) = Some (MessageRecord.to_dict m).
Proof.
  unfold loads, record_line.
  rewrite parse_value_record.
  - reflexivity.
  - pose proof (record_length m) as H. rewrite StrFacts.length_append. lia.
Qed.

(** The codec of [Json] prints every message record on one line and reads
    the line back as the same record. *)
Lemma Json_codec_ok (m : Message) : codec_ok dumps loads m.
Proof.
  split; [| split].
  - apply dumps_record_one_line. now left.
  - apply dumps_record_one_line. now right.
  - apply loads_record_line.
Qed.

End JsonFacts.

(** C4, as amended: for every non-empty list of messages, whatever their
    contents, loading the file that [write_log] wrote for the list gives a
    manager on that file whose log is the list, in order and with every
    field; this for any codec that prints a record on one line and reads it
    back.  (An empty list is not recovered: [load] then takes the caller's
    initial messages.) *)
Theorem write_log_then_load (dumps : json -> string)
    (loads : string -> option json) (now : Timestamp) (LOGSDIR : Path)
    (is_dir : Path -> bool) (p : Path)
    (msgs initial : list Message) (show : bool) (w : World) :
  (forall m, codec_ok dumps loads m) ->
  msgs <> [] ->
  load loads now LOGSDIR is_dir p initial show
    (set_fs (write_log dumps (inr msgs) p (fs w)) w)
  = Return (mkLogManager msgs p show).
Proof.
  intros Hcodec Hne.
  rewrite (load_after_write_log dumps)
    by (apply Forall_forall; intros; apply Hcodec).
  destruct msgs; [congruence | reflexivity].
Qed.

Lemma write_log_then_load_witness :
  [Demo.hi; Demo2.tricky; Demo.hello] <> [] /\
  load Json.loads "2024-05-02T08:00:00" ["logs"] Demo.is_dir Demo.logpath
    [Demo2.system_prompt] false
    (set_fs (write_log Json.dumps (inr [Demo.hi; Demo2.tricky; Demo.hello])
               Demo.logpath ∅) (mkWorld ∅ []))
  = Return (mkLogManager [Demo.hi; Demo2.tricky; Demo.hello] Demo.logpath false).
Proof.
  split; [discriminate |].
  apply (write_log_then_load Json.dumps Json.loads "2024-05-02T08:00:00"
           ["logs"] Demo.is_dir Demo.logpath
           [Demo.hi; Demo2.tricky; Demo.hello]
           [Demo2.system_prompt] false (mkWorld ∅ [])).
  - exact JsonFacts.Json_codec_ok.
  - discriminate.
Defined.

(** C4, counterexample: the empty list is written as an empty file, and
    loading that file gives the caller's initial messages, not the empty
    list. *)
Lemma load_of_empty_log_is_initial :
  exists mgr,
    load Json.loads "2024-05-02T08:00:00" ["logs"] Demo.is_dir Demo.logpath
      [Demo2.system_prompt] false
      (set_fs (write_log Json.dumps (inr []) Demo.logpath ∅) (mkWorld ∅ []))
    = Return mgr
    /\ log mgr = [Demo2.system_prompt]
    /\ log mgr <> [].
Proof.
  eexists. split; [vm_compute; reflexivity |]. split; [reflexivity | discriminate].
Qed.

(** ** [_include_paths] *)

Section IncludePathsFacts.

Variable E : Env.

(** *** The nesting of [_parse_prompt] stops after one level *)

Lemma parse_prompt_at_file (d : nat) (w : string) :
  is_file E w = Ok true ->
  parse_prompt_at E d w = parse_prompt_at E 0 w.
Proof.
  unfold is_file. intros H.
  destruct d; [reflexivity |]. simpl. unfold parse_prompt_direct.
  destruct (is_command E w); [reflexivity |].
  destruct (probe E w) as [| e | [t | | e]]; try discriminate; reflexivity.
Qed.

Lemma classify_words_files (ws : list string) : forall paths urls,
  classify_words E ws = Ok (paths, urls) ->
  Forall (fun w => is_file E w = Ok true) paths.
Proof.
  induction ws as [|w ws IH]; simpl; intros paths urls H.
  - injection H as <- <-. constructor.
  - destruct (is_file E w) as [isf|] eqn:Hf; [| discriminate].
    destruct (classify_words E ws) as [[ps us]|] eqn:Hc; [| discriminate].
    specialize (IH ps us eq_refl).
    destruct isf.
    + injection H as <- <-. constructor; assumption.
    + destruct (has_netloc E w); injection H as <- <-; assumption.
Qed.

Lemma add_paths_ext (f g : string -> result_of (option string))
    (paths : list string) : forall result,
  Forall (fun w => f w = g w) paths ->
  add_paths f paths result = add_paths g paths result.
Proof.
  induction paths as [|p ps IH]; intros result H; [reflexivity |].
  inversion H as [|? ? Hp Hps]; subst. simpl. rewrite Hp.
  destruct (g p); [apply IH; assumption | reflexivity].
Qed.

(** One level of nesting is all [_parse_prompt] ever uses: any larger bound
    gives the same result. *)
Lemma parse_prompt_at_enough (d : nat) (prompt : string) :
  parse_prompt_at E (S d) prompt = parse_prompt_at E 1 prompt.
Proof.
  simpl. destruct (parse_prompt_direct E prompt) as [[r|]|e]; try reflexivity.
  destruct (classify_words E (Text.split_whitespace prompt))
    as [[paths urls]|e] eqn:Hc; [| reflexivity].
  rewrite (add_paths_ext (parse_prompt_at E d) (parse_prompt_at E 0)).
  - reflexivity.
  - eapply Forall_impl; [eapply classify_words_files; exact Hc |].
    intros w Hw. now apply parse_prompt_at_file.
Qed.

(** *** Cleaning a word *)

Lemma rstrip_all (c : ascii) (s : string) :
  exists k, s = Text.rstrip c s +:+ Text.replicate k c.
Proof.
  induction s as [|a s [k IH]].
  - exists 0. reflexivity.
  - simpl. destruct (Text.rstrip c s) as [|b r] eqn:R.
    + destruct (Ascii.eqb a c) eqn:Ea.
      * apply Ascii.eqb_eq in Ea. subst a. exists (S k). simpl.
        now rewrite IH at 1.
      * exists k. simpl. now rewrite IH at 1.
    + exists k. simpl. now rewrite IH at 1.
Qed.

Lemma rstrip_no_tail (c : ascii) (s : string) :
  Text.endswith c (Text.rstrip c s) = false.
Proof.
  induction s as [|a s IH]; [reflexivity |]. simpl.
  destruct (Text.rstrip c s) as [|b r] eqn:R.
  - destruct (Ascii.eqb a c) eqn:Ea; [reflexivity |]. simpl. exact Ea.
  - exact IH.
Qed.

Lemma re_split_no_sep (sep : ascii -> bool) (s : string) :
  Forall (fun w => forall c, sep c = true -> Str.count c w = 0)
    (Text.re_split sep s).
Proof.
  induction s as [|a s IH]; simpl.
  - constructor; [reflexivity | constructor].
  - destruct (sep a) eqn:Ha.
    + constructor; [reflexivity | exact IH].
    + destruct (Text.re_split sep s) as [|w ws]; inversion IH; subst.
      * constructor; [| constructor]. intros c Hc. simpl.
        destruct (Ascii.eqb a c) eqn:Eac; [| reflexivity].
        apply Ascii.eqb_eq in Eac. congruence.
      * constructor; [| assumption]. intros c Hc. simpl.
        destruct (Ascii.eqb a c) eqn:Eac.
        -- apply Ascii.eqb_eq in Eac. congruence.
        -- simpl. now apply H1.
Qed.

Lemma lstrip_absent (c : ascii) (s : string) :
  Str.count c s = 0 -> Text.lstrip c s = s.
Proof.
  destruct s as [|a s]; [reflexivity |]. simpl.
  destruct (Ascii.eqb a c); [discriminate | reflexivity].
Qed.

Lemma rstrip_absent (c : ascii) (s : string) :
  Str.count c s = 0 -> Text.rstrip c s = s.
Proof.
  induction s as [|a s IH]; [reflexivity |]. simpl.
  destruct (Ascii.eqb a c) eqn:Ea; [discriminate |].
  intros H. rewrite IH by exact H. destruct s; reflexivity.
Qed.

Lemma strip_absent (c : ascii) (s : string) :
  Str.count c s = 0 -> Text.strip c s = s.
Proof.
  intros H. unfold Text.strip. rewrite lstrip_absent by exact H.
  now apply rstrip_absent.
Qed.

End IncludePathsFacts.

(** C7, as amended: every piece that the split on white space and backticks
    gives holds no backtick, so stripping backticks leaves it as it is, and
    the cleaned word is the piece without all of its trailing question marks:
    the piece is the cleaned word followed by question marks only, and the
    cleaned word does not end with one. *)
Theorem clean_word_drops_every_question_mark (content piece : string) :
  In piece (Text.re_split Text.is_sep (Text.strip_codeblocks content)) ->
  Text.strip Text.BACKTICK piece = piece /\
  (exists k, piece = clean_word piece +:+ Text.replicate k Text.QMARK) /\
  Text.endswith Text.QMARK (clean_word piece) = false.
Proof.
  intros Hin.
  pose proof (re_split_no_sep Text.is_sep (Text.strip_codeblocks content)) as HF.
  rewrite Forall_forall in HF.
  assert (Hb : Text.strip Text.BACKTICK piece = piece).
  { apply strip_absent. apply HF; [now apply list_elem_of_In |].
    unfold Text.is_sep. rewrite Ascii.eqb_refl. apply orb_true_r. }
  split; [exact Hb |]. unfold clean_word. rewrite Hb. split.
  - apply rstrip_all.
  - apply rstrip_no_tail.
Qed.

Lemma clean_word_drops_every_question_mark_witness :
  In "./notes.txt??"
    (Text.re_split Text.is_sep (Text.strip_codeblocks "is ./notes.txt?? there")) /\
  clean_word "./notes.txt??" = "./notes.txt" /\
  Text.endswith Text.QMARK (clean_word "./notes.txt??") = false.
Proof.
  assert (Hin : In "./notes.txt??"
            (Text.re_split Text.is_sep
               (Text.strip_codeblocks "is ./notes.txt?? there")))
    by (vm_compute; tauto).
  split; [exact Hin |]. split; [reflexivity |].
  exact (proj2 (proj2 (clean_word_drops_every_question_mark
                         "is ./notes.txt?? there" "./notes.txt??" Hin))).
Defined.

(** C7, counterexample: the token [./notes.txt??] is cleaned to
    [./notes.txt]; no cleaned word keeps one of the two question marks. *)
Lemma two_question_marks_both_dropped :
  cleaned_words "is ./notes.txt?? there" = ["is"; "./notes.txt"; "there"] /\
  ~ In "./notes.txt?" (cleaned_words "is ./notes.txt?? there").
Proof.
  split; [reflexivity |]. vm_compute. intuition discriminate.
Qed.

Section IncludeTextFile.

Variable E : Env.

(** A word that starts with a dot is never a command: commands start with a
    slash. *)
Lemma is_command_dot (rest : string) : is_command E (String "." rest) = false.
Proof.
  unfold is_command. induction (action_descriptions E) as [|cmd l IH];
    [reflexivity | exact IH].
Qed.

Lemma parse_prompt_direct_done (p : string) (r : option string) (d : nat) :
  parse_prompt_direct E p = Ok (Done r) -> parse_prompt_at E d p = Ok r.
Proof. intros H. destruct d; simpl; now rewrite H. Qed.

Lemma include_word_extends (w : string) (a a' : string) (f f' : list string) :
  include_word E w (a, f) = Ok (a', f') -> exists suf, a' = a +:+ suf.
Proof.
  unfold include_word.
  assert (Hsame : forall x : string * list string,
             Ok (a, f) = Ok x -> exists suf, fst x = a +:+ suf).
  { intros x Hx. injection Hx as <-. exists "". simpl.
    now rewrite StrFacts.append_nil_r. }
  destruct (String.eqb w ""); [intros H; exact (Hsame _ H) |].
  destruct (is_candidate E w); [| intros H; exact (Hsame _ H)].
  destruct (if use_fresh_context E then Ok None else _parse_prompt E w)
    as [contents|e]; [| discriminate].
  destruct (negb (String.eqb (default "" contents) "")).
  - intros H. injection H as <- <-. eexists. reflexivity.
  - destruct (_parse_prompt_files E w) as [[file|]|e]; try discriminate.
    + destruct (stored_path E file); [| discriminate].
      intros H. injection H as <- <-. exists "". now rewrite StrFacts.append_nil_r.
    + intros H. exact (Hsame _ H).
Qed.

Lemma include_words_extends (ws : list string) :
  forall a f a' f',
    include_words E ws (a, f) = Ok (a', f') -> exists suf, a' = a +:+ suf.
Proof.
  induction ws as [|w ws IH]; cbn [include_words]; intros a f a' f'.
  - intros H. injection H as <- <-. exists "". now rewrite StrFacts.append_nil_r.
  - destruct (include_word E w (a, f)) as [[a1 f1]|e] eqn:Hw;
      [intros H | discriminate].
    destruct (include_word_extends _ _ _ _ _ Hw) as [s1 ->].
    destruct (IH _ _ _ _ H) as [s2 ->].
    exists (s1 +:+ s2). now rewrite StrFacts.append_assoc.
Qed.

Lemma include_words_total (ws : list string) :
  Forall (word_safe E) ws -> forall acc, exists acc', include_words E ws acc = Ok acc'.
Proof.
  induction 1 as [|w ws Hw _ IH]; intros acc; cbn [include_words].
  - eexists. reflexivity.
  - destruct (Hw acc) as [acc1 ->]. apply IH.
Qed.

Lemma include_words_app (ws1 ws2 : list string) : forall acc,
  include_words E (ws1 ++ ws2) acc
  = match include_words E ws1 acc with
    | Err e => Err e
    | Ok acc' => include_words E ws2 acc'
    end.
Proof.
  induction ws1 as [|w ws1 IH]; intros acc; cbn [include_words app];
    [reflexivity |].
  destruct (include_word E w acc); [apply IH | reflexivity].
Qed.

(** In legacy mode a candidate word that names a readable text file adds a
    blank line and the file as a code block labelled with the word. *)
Lemma include_word_text_file (w body a : string) (f : list string) :
  use_fresh_context E = false ->
  w <> "" ->
  is_candidate E w = true ->
  is_command E w = false ->
  probe E w = File (Text body) ->
  include_word E w (a, f) = Ok (a +:+ NL +:+ NL +:+ codeblock w body, f).
Proof.
  intros Hfresh Hne Hcand Hcmd Hprobe. unfold include_word.
  apply String.eqb_neq in Hne. rewrite Hne, Hcand, Hfresh.
  unfold _parse_prompt.
  rewrite (parse_prompt_direct_done w (Some (codeblock w body)))
    by (unfold parse_prompt_direct; now rewrite Hcmd, Hprobe).
  reflexivity.
Qed.

End IncludeTextFile.

(** *** A sufficient condition for no inclusion to raise *)

Section QuietFileSystem.

Variable E : Env.

Hypothesis Hquiet : never_fails E.

Lemma is_file_ok (w : string) : exists b, is_file E w = Ok b.
Proof.
  destruct Hquiet as (Hs & _ & _). unfold is_file.
  destruct (probe E w) as [| e |] eqn:P; eauto. now destruct (Hs w e).
Qed.

Lemma classify_words_ok (ws : list string) :
  exists paths urls, classify_words E ws = Ok (paths, urls).
Proof.
  induction ws as [|w ws (ps & us & IH)]; simpl; [eauto |].
  destruct (is_file_ok w) as [b ->]. rewrite IH.
  destruct b; [eauto |]. destruct (has_netloc E w); eauto.
Qed.

Lemma parse_prompt_direct_ok (w : string) :
  exists r, parse_prompt_direct E w = Ok r.
Proof.
  destruct Hquiet as (Hs & Hr & _). unfold parse_prompt_direct.
  destruct (is_command E w); [eauto |].
  destruct (probe E w) as [| e | [t | | e]] eqn:P; eauto.
  - now destruct (Hs w e).
  - now destruct (Hr w e).
Qed.

Lemma parse_prompt_at_file_ok (d : nat) (w : string) :
  is_file E w = Ok true -> exists r, parse_prompt_at E d w = Ok r.
Proof.
  intros Hf. rewrite parse_prompt_at_file by exact Hf. simpl.
  destruct (parse_prompt_direct_ok w) as [r Hr].
  unfold parse_prompt_direct in *. unfold is_file in Hf.
  destruct (is_command E w); [eauto |].
  destruct (probe E w) as [| e | [t | | e]]; try discriminate; eauto.
Qed.

Lemma add_paths_ok (f : string -> result_of (option string))
    (paths : list string) : forall result,
  Forall (fun p => exists r, f p = Ok r) paths ->
  exists s, add_paths f paths result = Ok s.
Proof.
  induction paths as [|p ps IH]; intros result H; simpl; [eauto |].
  inversion H as [|? ? [r Hr] Hps]; subst. rewrite Hr. now apply IH.
Qed.

Lemma parse_prompt_ok (d : nat) (w : string) :
  exists r, parse_prompt_at E (S d) w = Ok r.
Proof.
  simpl. destruct (parse_prompt_direct_ok w) as [[r|] ->]; [eauto |].
  destruct (classify_words_ok (Text.split_whitespace w)) as (ps & us & Hc).
  rewrite Hc.
  match goal with
  | |- context [add_paths ?f ps ?res] =>
      destruct (add_paths_ok f ps res) as [s ->]
  end.
  - eapply Forall_impl; [eapply classify_words_files; exact Hc |].
    intros p Hp. now apply parse_prompt_at_file_ok.
  - destruct (has_browser E); eauto.
Qed.

Lemma parse_prompt_files_ok (w : string) :
  exists r, _parse_prompt_files E w = Ok r.
Proof.
  destruct Hquiet as (Hs & Hr & _). unfold _parse_prompt_files.
  destruct (is_command E w); [eauto |].
  destruct (probe E w) as [| e | [t | | e]] eqn:P; eauto.
  - now destruct (Hs w e).
  - destruct (Str.mem _ _); eauto.
  - now destruct (Hr w e).
Qed.

Lemma stored_path_ok (file : string) : exists r, stored_path E file = Ok r.
Proof.
  destruct Hquiet as (_ & _ & Hrel). unfold stored_path.
  destruct (workspace E) as [ws|]; [| eauto].
  destruct (negb (is_absolute E (expanduser E file))); [| eauto].
  destruct (relative_to E ws (expanduser E file)) eqn:R; [eauto |].
  now destruct (Hrel ws (expanduser E file)).
Qed.

(** On such a file system no word makes its inclusion raise. *)
Lemma never_fails_word_safe (w : string) : word_safe E w.
Proof.
  intros [a f]. unfold include_word.
  destruct (String.eqb w ""); [eauto |].
  destruct (is_candidate E w); [| eauto].
  assert (Hp : exists c, (if use_fresh_context E then Ok None
                          else _parse_prompt E w) = Ok c).
  { destruct (use_fresh_context E); [eauto |]. apply parse_prompt_ok. }
  destruct Hp as [c ->].
  destruct (negb (String.eqb (default "" c) "")); [eauto |].
  destruct (parse_prompt_files_ok w) as [[file|] ->]; [| eauto].
  destruct (stored_path_ok file) as [r ->]. eauto.
Qed.

Lemma never_fails_no_inclusion_raises (content : string) :
  no_inclusion_raises E content.
Proof.
  unfold no_inclusion_raises. apply Forall_forall.
  intros w _. apply never_fails_word_safe.
Qed.

End QuietFileSystem.

(** C6, as amended: in legacy mode (fresh-context mode off), when the
    content of a user message has the token [./notes.txt] outside any fenced
    code block, [./notes.txt] is a readable text file whose text contains
    [hello], and no token makes its inclusion raise, [_include_paths] returns
    a message whose content is the original content followed by appended text
    in which, after a blank line, stands the fenced code block labelled
    [./notes.txt] whose body is exactly the text of the file, which
    contains [hello]. *)
Theorem include_paths_appends_notes (E : Env) (msg : Message) (body : string) :
  use_fresh_context E = false ->
  role msg = user ->
  In "./notes.txt" (cleaned_words (content msg)) ->
  probe E "./notes.txt" = File (Text body) ->
  contains "hello" body = true ->
  no_inclusion_raises E (content msg) ->
  exists msg' before after,
    _include_paths E msg = Ok msg' /\
    content msg'
    = content msg +:+ before +:+ NL +:+ NL
        +:+ codeblock "./notes.txt" body +:+ after /\
    contains "hello" body = true /\
    role msg' = user.
Proof.
  intros Hfresh Hrole Hin Hprobe Hhello Hsafe.
  apply in_split in Hin. destruct Hin as (ws1 & ws2 & Hws).
  unfold no_inclusion_raises in Hsafe. rewrite Hws in Hsafe.
  apply Forall_app in Hsafe. destruct Hsafe as [Hs1 Hs2].
  apply Forall_cons in Hs2. destruct Hs2 as [_ Hs2].
  destruct (include_words_total E ws1 Hs1 ("", [])) as [[a1 f1] H1].
  destruct (include_words_extends E ws1 _ _ _ _ H1) as [before Hb].
  simpl in Hb. subst a1.
  pose proof (include_word_text_file E "./notes.txt" body before f1 Hfresh
                ltac:(discriminate) eq_refl (is_command_dot E _) Hprobe) as Hw.
  destruct (include_words_total E ws2 Hs2
              (before +:+ NL +:+ NL +:+ codeblock "./notes.txt" body, f1))
    as [[a2 f2] H2].
  destruct (include_words_extends E ws2 _ _ _ _ H2) as [after Ha].
  subst a2.
  assert (Hall : include_words E (cleaned_words (content msg)) ("", [])
                 = Ok ((before +:+ NL +:+ NL +:+ codeblock "./notes.txt" body)
                         +:+ after, f2)).
  { rewrite Hws, include_words_app, H1. cbn [include_words].
    rewrite Hw. exact H2. }
  unfold _include_paths. rewrite Hrole. simpl negb. cbv iota. rewrite Hall.
  assert (Hne : String.eqb
                  ((before +:+ NL +:+ NL +:+ codeblock "./notes.txt" body)
                     +:+ after) "" = false).
  { apply String.eqb_neq. intros Heq.
    apply (f_equal String.length) in Heq.
    rewrite !StrFacts.length_append in Heq. simpl in Heq. lia. }
  rewrite Hne.
  eexists _, before, after. split; [reflexivity |].
  split; [| split; [exact Hhello |]].
  - destruct f2; cbn [content replace_content replace_files];
      now rewrite !StrFacts.append_assoc.
  - destruct f2; cbn [role replace_content replace_files]; exact Hrole.
Qed.

(** The example of the specification, run. *)
Example include_notes_run :
  _include_paths Desk.legacy (Desk.ask "see ./notes.txt")
  = Ok (Desk.ask ("see ./notes.txt" +:+ NL +:+ NL +:+ "```./notes.txt"
                    +:+ NL +:+ "hello" +:+ NL +:+ "```")).
Proof. vm_compute. reflexivity. Qed.

(** A path inside a fenced example is not included. *)
Example include_notes_fenced_run :
  _include_paths Desk.legacy
    (Desk.ask ("like this:" +:+ NL +:+ "```sh" +:+ NL +:+ "cat ./notes.txt"
                 +:+ NL +:+ "```"))
  = Ok (Desk.ask ("like this:" +:+ NL +:+ "```sh" +:+ NL +:+ "cat ./notes.txt"
                    +:+ NL +:+ "```")).
Proof. vm_compute. reflexivity. Qed.

Lemma include_paths_appends_notes_witness :
  use_fresh_context Desk.legacy = false /\
  In "./notes.txt" (cleaned_words "see ./notes.txt") /\
  probe Desk.legacy "./notes.txt" = File (Text "hello") /\
  exists msg' before after,
    _include_paths Desk.legacy (Desk.ask "see ./notes.txt") = Ok msg' /\
    content msg'
    = "see ./notes.txt" +:+ before +:+ NL +:+ NL
        +:+ codeblock "./notes.txt" "hello" +:+ after /\
    contains "hello" "hello" = true /\
    role msg' = user.
Proof.
  assert (Hin : In "./notes.txt" (cleaned_words "see ./notes.txt"))
    by (vm_compute; tauto).
  split; [reflexivity |]. split; [exact Hin |]. split; [reflexivity |].
  apply (include_paths_appends_notes Desk.legacy
           (Desk.ask "see ./notes.txt") "hello");
    try reflexivity; try exact Hin.
  repeat constructor; intros [a f]; eexists; vm_compute; reflexivity.
Defined.

(** C6, counterexample.  With fresh-context mode on, the content comes back
    unchanged and [./notes.txt] is only added to the files; in legacy mode,
    a second token that is too long to be a file name makes the function
    raise [OSError] instead of returning a message. *)
Lemma include_paths_without_block :
  _include_paths Desk.fresh (Desk.ask "see ./notes.txt")
  = Ok (replace_files ["./notes.txt"] (Desk.ask "see ./notes.txt"))
  /\
  In "./notes.txt" (cleaned_words ("see ./notes.txt " +:+ Desk.long_name))
  /\
  _include_paths Desk.legacy (Desk.ask ("see ./notes.txt " +:+ Desk.long_name))
  = Err (Exn (OSError ENAMETOOLONG)).
Proof.
  split; [vm_compute; reflexivity |].
  split; [vm_compute; tauto | vm_compute; reflexivity].
Qed.

(** ** [step] and the cycles *)

Section ChatFacts.

Variable E : Env.

Lemma manager_append_log (msg : Message) (st : St) :
  log (fst (manager_append E msg st)) = log (fst st) ++ [msg].
Proof.
  destruct st as [mgr w]. unfold manager_append.
  destruct (append_consistent (json_dumps E) msg mgr w) as (_ & H & _).
  exact H.
Qed.

Lemma prompts_respond (log : list Message) : prompts (respond E log) = false.
Proof.
  unfold respond, prompts. cbn [app existsb is_prompt orb].
  rewrite existsb_app. cbn [existsb is_prompt orb].
  rewrite orb_false_r.
  destruct (reply E (prepare_messages E log)) as [r | s]; [| reflexivity].
  cbn [existsb is_prompt orb]. rewrite existsb_app.
  assert (H : existsb is_prompt (map Yield (produced (execute_msg E r))) = false).
  { induction (produced (execute_msg E r)); [reflexivity | exact IHl]. }
  rewrite H. destruct (tools_interrupted (execute_msg E r)); reflexivity.
Qed.

Lemma needs_input_cases (log : list Message) :
  needs_input log = true <->
  log = [] \/
  exists last_msg, last log = Some last_msg /\
    (role last_msg = assistant \/ content last_msg = "Interrupted" \/
     pinned last_msg = true \/ Forall (fun m => role m <> user) log).
Proof.
  assert (Hno : negb (existsb (fun r => Role_eqb r user) (map role log)) = true
                <-> Forall (fun m => role m <> user) log).
  { rewrite negb_true_iff. induction log as [|m l IH]; simpl.
    - split; [constructor | reflexivity].
    - rewrite orb_false_iff, IH. unfold Role_eqb.
      rewrite bool_decide_eq_false, Forall_cons. tauto. }
  unfold needs_input. destruct (last log) as [m|] eqn:El.
  - rewrite !orb_true_iff, Hno. unfold Role_eqb.
    rewrite bool_decide_eq_true, String.eqb_eq. split.
    + intros H. right. exists m. split; [reflexivity | tauto].
    + intros [-> | (m' & Hm & H)]; [discriminate |].
      injection Hm as <-. tauto.
  - apply last_None in El. split; [now left | reflexivity].
Qed.

Lemma include_paths_role (m m' : Message) :
  _include_paths E m = Ok m' -> role m' = role m.
Proof.
  unfold _include_paths. destruct (negb (Role_eqb (role m) user)); [discriminate |].
  destruct (include_words E (cleaned_words (content m)) ("", []))
    as [[a f]|e]; [| discriminate].
  intros H. injection H as <-.
  destruct f, (String.eqb a ""); reflexivity.
Qed.

End ChatFacts.

(** C1, as amended: [step] prompts the user exactly when the log is empty,
    or its last message has role assistant, or has the content
    [Interrupted], or is pinned, or the log has no user message; otherwise
    it goes straight to arming and calling the model on the prepared log.
    The latter is the case, in particular, when the last message has role
    user, is not pinned and does not read [Interrupted]. *)
Theorem step_prompts_exactly_when (E : Env) (log : list Message) :
  prompts (fst (step E log)) = needs_input log /\
  (needs_input log = true <->
   log = [] \/
   exists last_msg, last log = Some last_msg /\
     (role last_msg = assistant \/ content last_msg = "Interrupted" \/
      pinned last_msg = true \/ Forall (fun m => role m <> user) log)) /\
  (needs_input log = false ->
   exists rest,
     step E log
     = (Armed :: ModelCalled (prepare_messages E log) :: rest, Ok tt)) /\
  (forall last_msg,
     last log = Some last_msg ->
     role last_msg = user ->
     pinned last_msg = false ->
     content last_msg <> "Interrupted" ->
     needs_input log = false).
Proof.
  split; [| split; [apply needs_input_cases | split]].
  - unfold step. destruct (needs_input log); [| apply prompts_respond].
    destruct (user_input E) as [inquiry|]; [| reflexivity].
    destruct (_include_paths E _); reflexivity.
  - intros H. unfold step. rewrite H. unfold respond. eexists. reflexivity.
  - intros m Hl Hr Hp Hc.
    destruct (needs_input log) eqn:Hn; [| reflexivity].
    apply needs_input_cases in Hn.
    destruct Hn as [-> | (m' & Hm & H)]; [discriminate |].
    rewrite Hl in Hm. injection Hm as <-.
    destruct H as [H | [H | [H | H]]]; try congruence.
    rewrite Forall_forall in H.
    exfalso. apply (H m); [| exact Hr].
    apply last_Some in Hl. destruct Hl as [l' ->].
    apply list_elem_of_In, in_or_app. right. now left.
Qed.

Section CancelledCall.

Variable E : Env.

(** What both loops do with the events of a cancelled model call that no
    prompt preceded. *)
Lemma respond_cancelled (l : list Message) (streamed : string) :
  reply E (prepare_messages E l) = ReplyInterrupted streamed ->
  respond E l
  = [Armed; ModelCalled (prepare_messages E l); Disarmed;
     Yield (interrupted_msg E); Disarmed].
Proof. intros H. unfold respond. now rewrite H. Qed.

Lemma interactive_cancelled (st : St) (streamed : string) :
  needs_input (log (fst st)) = false ->
  reply E (prepare_messages E (log (fst st))) = ReplyInterrupted streamed ->
  interactive_cycle E st
  = (manager_append E (interrupted_msg E) st,
     [Disarmed; Armed; ModelCalled (prepare_messages E (log (fst st)));
      Disarmed; Yield (interrupted_msg E); Disarmed],
     Ok tt).
Proof.
  intros Hn Hr. unfold interactive_cycle, step. rewrite Hn.
  rewrite (respond_cancelled _ _ Hr). reflexivity.
Qed.

Lemma scripted_cancelled (st : St) (streamed : string) :
  needs_input (log (fst st)) = false ->
  reply E (prepare_messages E (log (fst st))) = ReplyInterrupted streamed ->
  scripted_cycle E st
  = (manager_append E (interrupted_msg E) st,
     [Armed; Armed; ModelCalled (prepare_messages E (log (fst st)));
      Disarmed; Yield (interrupted_msg E); Disarmed; Disarmed],
     Ok tt).
Proof.
  intros Hn Hr. unfold scripted_cycle, step. rewrite Hn.
  rewrite (respond_cancelled _ _ Hr). reflexivity.
Qed.

Lemma interactive_prompted_cancelled (st st' : St) (inquiry streamed : string)
    (umsg : Message) :
  needs_input (log (fst st)) = true ->
  user_input E = Some inquiry ->
  _include_paths E (replace_quiet true (Msg user inquiry (clock E 0))) = Ok umsg ->
  execute_cmd E umsg (manager_append E umsg st) = (false, st') ->
  reply E (prepare_messages E (log (fst st) ++ [umsg])) = ReplyInterrupted streamed ->
  interactive_cycle E st
  = (manager_append E (interrupted_msg E) st',
     [Disarmed; Armed; Prompted; Disarmed; Yield umsg; Armed;
      ModelCalled (prepare_messages E (log (fst st) ++ [umsg]));
      Disarmed; Yield (interrupted_msg E); Disarmed],
     Ok tt).
Proof.
  intros Hn Hu Hi Hc Hr. unfold interactive_cycle, step. rewrite Hn, Hu, Hi.
  rewrite (respond_cancelled _ _ Hr).
  assert (Hrole : role umsg = user)
    by (rewrite (include_paths_role E _ _ Hi); reflexivity).
  cbn [app consume is_prompt]. rewrite Hrole.
  change (Role_eqb user user) with true. cbv iota. rewrite Hc.
  reflexivity.
Qed.

Lemma scripted_prompted_cancelled (st st' : St) (inquiry streamed : string)
    (umsg : Message) :
  needs_input (log (fst st)) = true ->
  user_input E = Some inquiry ->
  _include_paths E (replace_quiet true (Msg user inquiry (clock E 0))) = Ok umsg ->
  execute_cmd E umsg (manager_append E umsg st) = (false, st') ->
  reply E (prepare_messages E (log (fst st) ++ [umsg])) = ReplyInterrupted streamed ->
  fst (fst (scripted_cycle E st)) = manager_append E (interrupted_msg E) st'.
Proof.
  intros Hn Hu Hi Hc Hr. unfold scripted_cycle, step. rewrite Hn, Hu, Hi.
  rewrite (respond_cancelled _ _ Hr).
  assert (Hrole : role umsg = user)
    by (rewrite (include_paths_role E _ _ Hi); reflexivity).
  cbn [app yielded fst append_responses]. rewrite Hrole.
  change (Role_eqb user user) with true. cbv iota. rewrite Hc.
  reflexivity.
Qed.

End CancelledCall.

(** C2, as amended: when the model call of a cycle is cancelled, the cycle
    appends after that point exactly one message, the system message
    [Interrupted], and nothing of the response that was being streamed.  If
    the cycle did not prompt, the log after the cycle is the log before it
    plus that one message.  If the cycle prompted, the user's message was
    appended (and found not to be a command) before the model call, and the
    log after the cycle is the log at that point plus the sentinel.  This
    holds for the interactive loop and for the scripted one. *)
Theorem cancelled_call_appends_sentinel (E : Env) (st : St) (streamed : string) :
  (needs_input (log (fst st)) = false ->
   reply E (prepare_messages E (log (fst st))) = ReplyInterrupted streamed ->
   cycle_log (interactive_cycle E st)
   = log (fst st) ++ [Msg system "Interrupted" (clock E 1)] /\
   cycle_log (scripted_cycle E st)
   = log (fst st) ++ [Msg system "Interrupted" (clock E 1)] /\
   calls_model (cycle_events (interactive_cycle E st)) = true /\
   calls_model (cycle_events (scripted_cycle E st)) = true)
  /\
  (needs_input (log (fst st)) = true ->
   forall (inquiry : string) (umsg : Message) (st' : St),
     user_input E = Some inquiry ->
     _include_paths E (replace_quiet true (Msg user inquiry (clock E 0))) = Ok umsg ->
     execute_cmd E umsg (manager_append E umsg st) = (false, st') ->
     reply E (prepare_messages E (log (fst st) ++ [umsg]))
     = ReplyInterrupted streamed ->
     log (fst (manager_append E umsg st)) = log (fst st) ++ [umsg] /\
     cycle_log (interactive_cycle E st)
     = log (fst st') ++ [Msg system "Interrupted" (clock E 1)] /\
     cycle_log (scripted_cycle E st)
     = log (fst st') ++ [Msg system "Interrupted" (clock E 1)] /\
     calls_model (cycle_events (interactive_cycle E st)) = true).
Proof.
  split.
  - intros Hn Hr.
    rewrite (interactive_cancelled E st streamed Hn Hr).
    rewrite (scripted_cancelled E st streamed Hn Hr).
    unfold cycle_log, cycle_events. cbn [fst snd].
    rewrite manager_append_log. repeat split.
  - intros Hn inquiry umsg st' Hu Hi Hc Hr.
    split; [apply manager_append_log |].
    unfold cycle_log.
    rewrite (scripted_prompted_cancelled E st st' inquiry streamed umsg
               Hn Hu Hi Hc Hr).
    rewrite (interactive_prompted_cancelled E st st' inquiry streamed umsg
               Hn Hu Hi Hc Hr).
    unfold cycle_events. cbn [fst snd].
    rewrite manager_append_log. repeat split.
Qed.

(** C1, counterexample.  After [hi] and the sentinel [Interrupted] the
    specification's condition holds, yet [step] prompts; after [hi] and an
    ordinary system message the condition fails, yet [step] does not prompt
    and calls the model. *)
Lemma step_prompts_after_sentinel :
  let sentinel := Msg system "Interrupted" "2024-05-01T10:00:30" in
  let output := Msg system "Ran command: ls" "2024-05-01T10:00:30" in
  demands_response [Demo.hi; sentinel] = true /\
  prompts (fst (step Desk.legacy [Demo.hi; sentinel])) = true /\
  demands_response [Demo.hi; output] = false /\
  prompts (fst (step Desk.legacy [Demo.hi; output])) = false /\
  calls_model (fst (step Desk.legacy [Demo.hi; output])) = true.
Proof. vm_compute. repeat split. Qed.

Lemma step_prompts_exactly_when_witness :
  last [Demo.hi] = Some Demo.hi /\
  role Demo.hi = user /\
  pinned Demo.hi = false /\
  content Demo.hi <> "Interrupted" /\
  needs_input [Demo.hi] = false /\
  prompts (fst (step Desk.legacy [Demo.hi])) = false.
Proof.
  assert (Hc : content Demo.hi <> "Interrupted") by discriminate.
  split; [reflexivity |]. split; [reflexivity |]. split; [reflexivity |].
  split; [exact Hc |].
  pose proof (proj2 (proj2 (proj2
                (step_prompts_exactly_when Desk.legacy [Demo.hi])))
                Demo.hi eq_refl eq_refl eq_refl Hc) as Hn.
  split; [exact Hn |].
  rewrite (proj1 (step_prompts_exactly_when Desk.legacy [Demo.hi])).
  exact Hn.
Defined.

(** C2, counterexample.  The log ends with the assistant's [hello], so the
    interactive cycle prompts; the user types [hi]; the model call is
    cancelled while text is being streamed.  The log has two more messages
    than before the cycle: the user's message and the sentinel. *)
Lemma cancelled_call_after_prompt_adds_two :
  let st := Demo.saved [Demo.hi; Demo.hello] in
  let c := interactive_cycle Desk.legacy st in
  calls_model (cycle_events c) = true /\
  cycle_log c
  = [Demo.hi; Demo.hello;
     replace_quiet true (Msg user "hi" "2024-05-01T10:01:00");
     Msg system "Interrupted" "2024-05-01T10:01:30"] /\
  length (cycle_log c) = length (log (fst st)) + 2.
Proof. vm_compute. repeat split. Qed.

Lemma cancelled_call_appends_sentinel_witness :
  needs_input (log (fst (Demo.saved [Demo.hi]))) = false /\
  reply Desk.legacy (prepare_messages Desk.legacy [Demo.hi])
  = ReplyInterrupted "Sure, let me" /\
  cycle_log (interactive_cycle Desk.legacy (Demo.saved [Demo.hi]))
  = [Demo.hi; Msg system "Interrupted" "2024-05-01T10:01:30"] /\
  cycle_log (scripted_cycle Desk.legacy (Demo.saved [Demo.hi]))
  = [Demo.hi; Msg system "Interrupted" "2024-05-01T10:01:30"].
Proof.
  split; [reflexivity |]. split; [reflexivity |].
  destruct (proj1 (cancelled_call_appends_sentinel Desk.legacy
                     (Demo.saved [Demo.hi]) "Sure, let me")
              eq_refl eq_refl) as (H1 & H2 & _).
  split; [exact H1 | exact H2].
Defined.

(** * Part III: further properties of the embedded code *)

(** ** [is_generated_name], completely *)

Module SplitFacts.

Lemma split_length (c : ascii) (s : string) :
  length (Str.split c s) = S (Str.count c s).
Proof.
  induction s as [|a s IH]; [reflexivity |]. simpl.
  destruct (Ascii.eqb a c); simpl; [now rewrite IH |].
  destruct (Str.split c s); simpl in *; lia.
Qed.

Lemma split_parts (c : ascii) (s : string) :
  Forall (fun w => Str.count c w = 0) (Str.split c s).
Proof.
  induction s as [|a s IH]; simpl.
  - constructor; [reflexivity | constructor].
  - destruct (Ascii.eqb a c) eqn:Ea.
    + constructor; [reflexivity | exact IH].
    + destruct (Str.split c s) as [|w ws]; inversion IH; subst.
      * repeat constructor. simpl. now rewrite Ea.
      * constructor; [| assumption]. simpl. now rewrite Ea.
Qed.

(** Joining the parts with the separator gives the string back. *)
Lemma concat_split (c : ascii) (s : string) :
  String.concat (String c "") (Str.split c s) = s.
Proof.
  induction s as [|a s IH]; [reflexivity |].
  pose proof (StrFacts.split_nonempty c s) as Hne.
  simpl Str.split. revert IH Hne.
  destruct (Str.split c s) as [|w ws]; intros IH Hne; [congruence |].
  destruct (Ascii.eqb a c) eqn:Ea.
  - apply Ascii.eqb_eq in Ea. subst a.
    change (String.concat (String c "") ("" :: w :: ws))
      with ("" +:+ String c "" +:+ String.concat (String c "") (w :: ws)).
    now rewrite IH.
  - destruct ws as [|w' ws].
    + simpl in *. now rewrite IH.
    + change (String.concat (String c "") (String a w :: w' :: ws))
        with (String a (w +:+ String c ""
                          +:+ String.concat (String c "") (w' :: ws))).
      change (String.concat (String c "") (w :: w' :: ws))
        with (w +:+ String c "" +:+ String.concat (String c "") (w' :: ws))
        in IH.
      now rewrite IH.
Qed.

End SplitFacts.

(** X1: [is_generated_name] accepts exactly the strings made of three words
    of the three lists taken together, joined by hyphens: the words may come
    from any list and in any order. *)
Theorem is_generated_name_iff (name : string) :
  GenerateName.is_generated_name name = true <->
  exists a b c,
    let words := GenerateName.actions ++ GenerateName.adjectives
                 ++ GenerateName.nouns in
    In a words /\ In b words /\ In c words /\
    name = a +:+ "-" +:+ b +:+ "-" +:+ c.
Proof.
  cbv zeta. unfold GenerateName.is_generated_name. cbv zeta.
  set (W := GenerateName.actions ++ GenerateName.adjectives ++ GenerateName.nouns).
  rewrite andb_true_iff, Nat.eqb_eq. split.
  - intros [Hc Hall].
    pose proof (SplitFacts.split_length "-" name) as Hlen.
    pose proof (SplitFacts.concat_split "-" name) as Hjoin.
    rewrite Hc in Hlen.
    destruct (Str.split "-" name) as [|a [|b [|c [|d l]]]]; try discriminate.
    unfold Str.all in Hall. simpl in Hall.
    rewrite !andb_true_iff in Hall. destruct Hall as (Ha & Hb & Hc' & _).
    exists a, b, c. rewrite <- !StrFacts.mem_In.
    repeat split; try assumption.
    rewrite <- Hjoin. reflexivity.
  - intros (a & b & c & Ha & Hb & Hc & ->).
    pose proof GenerateNameFacts.words_hyphen_free as HF.
    rewrite Forall_forall in HF.
    pose proof (HF _ (proj2 (list_elem_of_In _ _) Ha)) as Ca.
    pose proof (HF _ (proj2 (list_elem_of_In _ _) Hb)) as Cb.
    pose proof (HF _ (proj2 (list_elem_of_In _ _) Hc)) as Cc.
    split.
    + rewrite !StrFacts.count_append, Ca, Cb, Cc. reflexivity.
    + change ("-" +:+ b +:+ "-" +:+ c) with (String "-" (b +:+ "-" +:+ c)).
      rewrite StrFacts.split_append_sep by exact Ca.
      change ("-" +:+ c) with (String "-" c).
      rewrite StrFacts.split_append_sep by exact Cb.
      rewrite StrFacts.split_no_sep by exact Cc.
      unfold Str.all.
      repeat (apply andb_true_iff; split); try reflexivity;
        now apply StrFacts.mem_In.
Qed.

(** ** More on the log manager *)

Section MoreLogManager.

Variable dumps : json -> string.
Variable shorten : string -> string.

Lemma write_log_appends (p : Path) (msgs : list Message) :
  forall f : gmap Path string,
    fold_left (fun f m => write_log dumps (inl m) p f) msgs f
    = match msgs with
      | [] => f
      | _ :: _ => <[p := default "" (f !! p) +:+ serialize dumps msgs]> f
      end.
Proof.
  induction msgs as [|m msgs IH]; intros f; [reflexivity |].
  cbn [fold_left]. rewrite IH. destruct msgs as [|m' msgs].
  - simpl. now rewrite StrFacts.append_nil_r.
  - cbn [write_log]. rewrite lookup_insert_eq, insert_insert_eq.
    cbn [default]. f_equal.
    change (serialize dumps (m :: m' :: msgs))
      with (record_line dumps m +:+ serialize dumps (m' :: msgs)).
    unfold id. now rewrite StrFacts.append_assoc.
Qed.

(** What [append] does, in one equation. *)
Lemma append_effect (msg : Message) (mgr : LogManager) (w : World) :
  append dumps msg (mgr, w)
  = (Return tt,
     (set_log (log mgr ++ [msg]) mgr,
      mkWorld (<[logfile mgr := serialize dumps (log mgr ++ [msg])]> (fs w))
        (console w ++ (if quiet msg then [] else [PrintMsg msg])))).
Proof.
  unfold append, bind, write. simpl.
  destruct (quiet msg); simpl; [| reflexivity].
  now rewrite app_nil_r.
Qed.

Lemma appends_effect (ms : list Message) : forall (mgr : LogManager) (w : World),
  fold_left (fun st m => snd (append dumps m st)) ms (mgr, w)
  = (set_log (log mgr ++ ms) mgr,
     mkWorld
       (match ms with
        | [] => fs w
        | _ :: _ => <[logfile mgr := serialize dumps (log mgr ++ ms)]> (fs w)
        end)
       (console w
        ++ map PrintMsg (List.filter (fun m => negb (quiet m)) ms))).
Proof.
  induction ms as [|m ms IH]; intros mgr w.
  - simpl. rewrite !app_nil_r. destruct mgr, w; reflexivity.
  - cbn [fold_left]. rewrite append_effect. cbn [snd]. rewrite IH.
    cbn [log set_log logfile show_hidden fs console].
    rewrite <- !app_assoc. cbn [app]. f_equal.
    f_equal.
    + destruct ms; [reflexivity |]. apply insert_insert_eq.
    + cbn [List.filter]. destruct (quiet m); reflexivity.
Qed.

(** Removing a known tail with the loop of [undo]. *)
Lemma for_range_removes (quiet : bool) (removed : list Message) :
  forall (kept : list Message) (mgr : LogManager) (w : World),
    for_range (length removed) (undo_body shorten quiet)
      (set_log (kept ++ removed) mgr, w)
    = (Return tt,
       (set_log kept mgr,
        mkWorld (fs w)
          (console w
           ++ (if quiet then []
               else map (fun m => PrintLine (undo_line shorten m))
                      (rev removed))))).
Proof.
  induction removed as [|m r IH] using rev_ind; intros kept mgr w.
  - simpl. unfold ret. rewrite !app_nil_r.
    destruct quiet; simpl; rewrite ?app_nil_r; destruct w; reflexivity.
  - rewrite length_app. cbn [length]. rewrite Nat.add_1_r.
    cbn [for_range]. unfold bind at 1.
    assert (Hbody :
      undo_body shorten quiet (set_log (kept ++ r ++ [m]) mgr, w)
      = (Return tt,
         (set_log (kept ++ r) mgr,
          mkWorld (fs w)
            (console w
             ++ (if quiet then [] else [PrintLine (undo_line shorten m)]))))).
    { unfold undo_body, bind, pop. cbn [log set_log].
      rewrite app_assoc, last_snoc, removelast_last.
      destruct quiet; simpl.
      - rewrite app_nil_r. destruct w; reflexivity.
      - reflexivity. }
    rewrite Hbody. rewrite IH. cbn [fs console].
    rewrite rev_app_distr. cbn [rev app].
    destruct quiet; [now rewrite !app_nil_r |].
    now rewrite <- app_assoc.
Qed.

End MoreLogManager.

(** X2: on a file that is absent or empty, writing the messages of a
    non-empty list one at a time, each in append mode, leaves the same file
    system as writing the list at once. *)
Theorem write_log_one_by_one (dumps : json -> string) (p : Path)
    (msgs : list Message) (f : gmap Path string) :
  msgs <> [] ->
  f !! p = None \/ f !! p = Some "" ->
  fold_left (fun f m => write_log dumps (inl m) p f) msgs f
  = write_log dumps (inr msgs) p f.
Proof.
  intros Hne Hp. rewrite write_log_appends.
  destruct msgs as [|m msgs]; [congruence |].
  cbn [write_log]. destruct Hp as [-> | ->]; reflexivity.
Qed.

Lemma write_log_one_by_one_witness :
  [Demo.hi; Demo2.tricky] <> [] /\
  (∅ : gmap Path string) !! Demo.logpath = None /\
  fold_left (fun f m => write_log Json.dumps (inl m) Demo.logpath f)
    [Demo.hi; Demo2.tricky] ∅
  = write_log Json.dumps (inr [Demo.hi; Demo2.tricky]) Demo.logpath ∅.
Proof.
  split; [discriminate |]. split; [reflexivity |].
  apply (write_log_one_by_one Json.dumps Demo.logpath
           [Demo.hi; Demo2.tricky] ∅); [discriminate | now left].
Defined.

(** X3: after any number of [append]s the log is the old log followed by the
    appended messages, the log file holds exactly that log, whatever it held
    before, and the display got the messages that are not quiet, in order. *)
Theorem appends_keep_file_and_display (dumps : json -> string)
    (ms : list Message) (st : St) :
  let st' := fold_left (fun st m => snd (append dumps m st)) ms st in
  log (fst st') = log (fst st) ++ ms /\
  logfile (fst st') = logfile (fst st) /\
  console (snd st')
  = console (snd st) ++ map PrintMsg (List.filter (fun m => negb (quiet m)) ms) /\
  match ms with
  | [] => fs (snd st') = fs (snd st)
  | _ :: _ =>
      fs (snd st') !! logfile (fst st) = Some (serialize dumps (log (fst st')))
      /\ forall q, q <> logfile (fst st) -> fs (snd st') !! q = fs (snd st) !! q
  end.
Proof.
  destruct st as [mgr w]. cbv zeta. rewrite appends_effect.
  cbn [fst snd log set_log logfile fs console].
  repeat split. destruct ms as [|m ms]; [reflexivity |]. split.
  - apply lookup_insert_eq.
  - intros q Hq. now apply lookup_insert_ne.
Qed.

(** X4: when the log, once a trailing [.undo] message is discarded, is not
    empty and has at least [n] messages, [undo(n)] returns, removes exactly
    the last [n] of them and, unless quiet, prints the heading and one line
    per removed message, the last message first.  For [n <= 0] it removes
    nothing. *)
Theorem undo_removes_last_n (shorten : string -> string) (n : Z)
    (quiet : bool) (st : St) :
  let l1 := discard_undo_tail (log (fst st)) in
  let k := length l1 - Z.to_nat n in
  l1 <> [] ->
  Z.to_nat n <= length l1 ->
  result (undo shorten n quiet st) = Return tt /\
  final_log (undo shorten n quiet st) = take k l1 /\
  final_console (undo shorten n quiet st)
  = console (snd st)
    ++ (if quiet then []
        else PrintLine "[yellow]Undoing messages:[/yellow]"
             :: map (fun m => PrintLine (undo_line shorten m))
                  (rev (drop k l1))).
Proof.
  destruct st as [mgr w]. cbv zeta. cbn [fst snd]. intros Hne Hle.
  rewrite undo_unfold. cbv zeta.
  remember (discard_undo_tail (log mgr)) as l1 eqn:El.
  remember (length l1 - Z.to_nat n) as k eqn:Ek.
  assert (Hlen : Z.to_nat n = length (drop k l1))
    by (rewrite length_drop; lia).
  assert (Hrun :
    for_range (Z.to_nat n) (undo_body shorten quiet)
      (set_log l1 mgr,
       mkWorld (fs w)
         (if negb quiet
          then console w ++ [PrintLine "[yellow]Undoing messages:[/yellow]"]
          else console w))
    = (Return tt,
       (set_log (take k l1) mgr,
        mkWorld (fs w)
          ((if negb quiet
            then console w ++ [PrintLine "[yellow]Undoing messages:[/yellow]"]
            else console w)
           ++ (if quiet then []
               else map (fun m => PrintLine (undo_line shorten m))
                      (rev (drop k l1))))))).
  { rewrite Hlen.
    replace (set_log l1 mgr)
      with (set_log (take k l1 ++ drop k l1) (set_log (take k l1) mgr))
      by (unfold set_log; cbn [logfile show_hidden]; now rewrite take_drop).
    rewrite for_range_removes. reflexivity. }
  destruct l1 as [|a l]; [congruence |].
  rewrite Hrun. unfold result, final_log, final_console.
  cbn [fst snd log set_log console fs].
  repeat split. destruct quiet; cbn [negb].
  - now rewrite !app_nil_r.
  - now rewrite <- app_assoc.
Qed.

Lemma undo_removes_last_n_witness :
  discard_undo_tail [Demo.hi; Demo.hello; Demo.hi; Demo.undo_cmd]
  = [Demo.hi; Demo.hello; Demo.hi] /\
  final_log (undo Demo.shorten 2 false
               (Demo.saved [Demo.hi; Demo.hello; Demo.hi; Demo.undo_cmd]))
  = [Demo.hi] /\
  final_console (undo Demo.shorten 2 false
                   (Demo.saved [Demo.hi; Demo.hello; Demo.hi; Demo.undo_cmd]))
  = [PrintLine "[yellow]Undoing messages:[/yellow]";
     PrintLine "[red]  user: hi[/]";
     PrintLine "[red]  assistant: hello[/]"].
Proof.
  split; [reflexivity |].
  destruct (undo_removes_last_n Demo.shorten 2 false
              (Demo.saved [Demo.hi; Demo.hello; Demo.hi; Demo.undo_cmd]))
    as (_ & Hlog & Hcon).
  - discriminate.
  - vm_compute. lia.
  - split; [exact Hlog | exact Hcon].
Defined.

(** X5: when the log is empty, or holds nothing but one message whose
    content starts with [.undo], [undo] returns with the log empty and
    prints the notice that there is nothing to undo, for every [n] and also
    when [quiet] is set. *)
Theorem undo_nothing_left (shorten : string -> string) (n : Z) (quiet : bool)
    (st : St) :
  log (fst st) = [] \/
  (exists u, log (fst st) = [u] /\ Str.startswith ".undo" (content u) = true) ->
  undo shorten n quiet st
  = (Return tt,
     (set_log [] (fst st),
      mkWorld (fs (snd st))
        (console (snd st) ++ [PrintLine "[yellow]Nothing to undo.[/]"]))).
Proof.
  destruct st as [mgr w]. cbn [fst snd]. intros H.
  apply undo_nothing. unfold discard_undo_tail.
  destruct H as [-> | (u & -> & Hu)]; [reflexivity |].
  simpl. now rewrite Hu.
Qed.

Lemma undo_nothing_left_witness :
  final_console (undo Demo.shorten 3 true (Demo.saved [Demo.undo_cmd]))
  = [PrintLine "[yellow]Nothing to undo.[/]"] /\
  final_log (undo Demo.shorten 3 true (Demo.saved [Demo.undo_cmd])) = [].
Proof.
  rewrite (undo_nothing_left Demo.shorten 3 true (Demo.saved [Demo.undo_cmd]))
    by (right; exists Demo.undo_cmd; split; reflexivity).
  split; reflexivity.
Defined.

(** X6: [append] followed by [undo(1)] gives the log back, for a message
    whose content does not start with [.undo]; the log file keeps the
    appended message. *)
Theorem append_then_undo (dumps : json -> string) (shorten : string -> string)
    (msg : Message) (quiet : bool) (st : St) :
  Str.startswith ".undo" (content msg) = false ->
  let st' := undo shorten 1 quiet (snd (append dumps msg st)) in
  result st' = Return tt /\
  final_log st' = log (fst st) /\
  final_fs st' !! final_logfile st'
  = Some (serialize dumps (log (fst st) ++ [msg])).
Proof.
  destruct st as [mgr w]. cbv zeta. intros Hm.
  rewrite append_effect. cbn [snd].
  match goal with
  | |- context [undo shorten 1 quiet (?m, ?w')] =>
      destruct (undo_shape shorten 1 quiet m w') as [c Hc]
  end.
  cbv zeta in Hc. rewrite Hc. clear Hc.
  cbn [log set_log fst snd].
  assert (Hd : discard_undo_tail (log mgr ++ [msg]) = log mgr ++ [msg]).
  { unfold discard_undo_tail. now rewrite last_snoc, Hm. }
  rewrite Hd. unfold result, final_log, final_fs, final_logfile.
  cbn [fst snd log set_log logfile fs].
  rewrite length_app. cbn [length].
  replace (length (log mgr) + 1 - Z.to_nat 1) with (length (log mgr)) by lia.
  rewrite take_app_length. repeat split.
  - destruct (log mgr ++ [msg]) eqn:E; [reflexivity |].
    change (Z.to_nat 1) with 1.
    replace (1 <=? length (log mgr) + 1) with true; [reflexivity |].
    symmetry. apply Nat.leb_le. lia.
  - apply lookup_insert_eq.
Qed.

Lemma append_then_undo_witness :
  Str.startswith ".undo" (content Demo.hello) = false /\
  final_log (undo Demo.shorten 1 true
               (snd (append Json.dumps Demo.hello (Demo.saved [Demo.hi]))))
  = [Demo.hi].
Proof.
  split; [reflexivity |].
  exact (proj1 (proj2 (append_then_undo Json.dumps Demo.shorten Demo.hello
                         true (Demo.saved [Demo.hi]) eq_refl))).
Defined.

(** ** More on [load] and [rename] *)

Section MoreLoad.

Variable dumps : json -> string.
Variable loads : string -> option json.
Variable now : Timestamp.
Variable LOGSDIR : Path.
Variable is_dir : Path -> bool.

Lemma map_outcome_app_raise {A B} (f : A -> outcome B) (l1 l2 : list A)
    (ys : list B) (x : A) (e : exn) :
  map_outcome f l1 = Return ys ->
  f x = Raise e ->
  map_outcome f (l1 ++ x :: l2) = Raise e.
Proof.
  revert ys. induction l1 as [|a l1 IH]; simpl; intros ys Hl Hx.
  - now rewrite Hx.
  - destruct (f a); [| discriminate].
    destruct (map_outcome f l1) as [zs|] eqn:Hz; [| discriminate].
    now rewrite (IH zs eq_refl Hx).
Qed.

Lemma universal_newlines_app (a b : string) :
  Str.count CR a = 0 ->
  universal_newlines (a +:+ b) = a +:+ universal_newlines b.
Proof.
  induction a as [|c a IH]; [reflexivity |]. simpl.
  destruct (Ascii.eqb c CR); [discriminate |].
  intros H. now rewrite IH.
Qed.

Lemma splitlines_serialize_app (msgs : list Message) (rest : string) :
  Forall (codec_ok dumps loads) msgs ->
  splitlines (serialize dumps msgs +:+ rest)
  = map (record_line dumps) msgs ++ splitlines rest.
Proof.
  induction 1 as [|m l (Hlf & _ & _) _ IH]; [reflexivity |].
  simpl. unfold record_line at 1. rewrite !StrFacts.append_assoc.
  change (NL +:+ serialize dumps l +:+ rest)
    with (String LF (serialize dumps l +:+ rest)).
  rewrite splitlines_line by exact Hlf. now rewrite IH.
Qed.

(** [load] looks at the files only. *)
Lemma load_fs_only (p : Path) (initial : list Message) (show : bool)
    (w w' : World) :
  fs w = fs w' ->
  load loads now LOGSDIR is_dir p initial show w
  = load loads now LOGSDIR is_dir p initial show w'.
Proof. intros H. unfold load, path_exists. now rewrite H. Qed.

(** A directory at the path given exists, so the conventional location is
    not tried and [open] fails on the directory. *)
Lemma load_directory (p : Path) (initial : list Message) (show : bool)
    (w : World) :
  fs w !! p = None ->
  is_dir p = true ->
  load loads now LOGSDIR is_dir p initial show w = Raise (OSError EISDIR).
Proof.
  intros Hp Hdir.
  assert (Hex : path_exists is_dir w p = true).
  { unfold path_exists. rewrite Hdir. apply orb_true_r. }
  unfold load. cbv zeta. rewrite Hex. cbv iota. rewrite Hex. cbn [negb].
  cbv iota. unfold Path in *. now rewrite Hp.
Qed.

End MoreLoad.

(** X7: when nothing is at the path given, neither a file nor a directory,
    and the conventional file [LOGSDIR / path / "conversation.jsonl"] holds
    a written log, [load] returns that log and a manager that points at the
    conventional file.  For an absolute path the conventional file is
    [path / "conversation.jsonl"]. *)
Theorem load_conventional_location (dumps : json -> string)
    (loads : string -> option json) (now : Timestamp) (LOGSDIR : Path)
    (is_dir : Path -> bool) (p : Path)
    (msgs initial : list Message) (show : bool) (w : World) :
  (forall m, codec_ok dumps loads m) ->
  msgs <> [] ->
  fs w !! p = None ->
  is_dir p = false ->
  fs w !! (join_paths LOGSDIR p ++ ["conversation.jsonl"])
  = Some (serialize dumps msgs) ->
  load loads now LOGSDIR is_dir p initial show w
  = Return (mkLogManager msgs
              (join_paths LOGSDIR p ++ ["conversation.jsonl"]) show).
Proof.
  intros Hcodec Hne Hp Hdir Hq.
  assert (Hno : path_exists is_dir w p = false).
  { unfold path_exists. rewrite Hp, Hdir.
    now rewrite bool_decide_eq_false_2 by (intros [x Hx]; discriminate). }
  assert (Hex : path_exists is_dir w
                  (join_paths LOGSDIR p ++ ["conversation.jsonl"]) = true).
  { unfold path_exists. unfold Path in *. rewrite Hq.
    now rewrite bool_decide_eq_true_2 by (eexists; reflexivity). }
  unfold load. cbv zeta. rewrite Hno. cbv iota. rewrite Hex. cbn [negb].
  cbv iota. unfold Path in *. rewrite Hq.
  assert (HF : Forall (codec_ok dumps loads) msgs)
    by (apply Forall_forall; intros; apply Hcodec).
  rewrite (readlines_serialize dumps loads msgs HF).
  rewrite (decode_lines dumps loads now msgs HF).
  destruct msgs; [congruence | reflexivity].
Qed.

Lemma load_conventional_location_witness :
  load Json.loads "2024-05-02T08:00:00" ["logs"] Demo.is_dir ["demo"] [] false
    (mkWorld {[ Demo.logpath := serialize Json.dumps [Demo.hi; Demo.hello] ]} [])
  = Return (mkLogManager [Demo.hi; Demo.hello] Demo.logpath false).
Proof.
  apply (load_conventional_location Json.dumps Json.loads
           "2024-05-02T08:00:00" ["logs"] Demo.is_dir ["demo"]
           [Demo.hi; Demo.hello] [] false
           (mkWorld {[ Demo.logpath
                       := serialize Json.dumps [Demo.hi; Demo.hello] ]} [])).
  - exact JsonFacts.Json_codec_ok.
  - discriminate.
  - reflexivity.
  - reflexivity.
  - apply lookup_singleton_eq.
Defined.

(** X8: a log file with a line that is not JSON cannot be loaded, even when
    every line before it is a well-formed record: [load] raises the decoding
    error and recovers nothing. *)
Theorem load_corrupt_line (dumps : json -> string)
    (loads : string -> option json) (now : Timestamp) (LOGSDIR : Path)
    (is_dir : Path -> bool) (p : Path)
    (good initial : list Message) (bad rest : string) (show : bool)
    (w : World) :
  Forall (codec_ok dumps loads) good ->
  Str.count LF bad = 0 ->
  Str.count CR bad = 0 ->
  loads (bad +:+ NL) = None ->
  fs w !! p = Some (serialize dumps good +:+ bad +:+ NL +:+ rest) ->
  load loads now LOGSDIR is_dir p initial show w = Raise JSONDecodeError.
Proof.
  intros HF Hlf Hcr Hbad Hp.
  rewrite (load_file_at loads now LOGSDIR is_dir p _ initial show w Hp).
  unfold readlines.
  rewrite universal_newlines_app by (eapply serialize_no_cr; exact HF).
  rewrite universal_newlines_app by exact Hcr.
  change (universal_newlines (NL +:+ rest))
    with (String LF (universal_newlines rest)).
  rewrite (splitlines_serialize_app dumps loads good _ HF).
  rewrite splitlines_line by exact Hlf.
  erewrite map_outcome_app_raise; [reflexivity | |].
  - apply (decode_lines dumps loads now good HF).
  - cbv beta. now rewrite Hbad.
Qed.

Lemma load_corrupt_line_witness :
  Json.loads ("{oops" +:+ NL) = None /\
  load Json.loads "2024-05-02T08:00:00" ["logs"] Demo.is_dir Demo.logpath []
    false
    (mkWorld {[ Demo.logpath
                := serialize Json.dumps [Demo.hi] +:+ "{oops" +:+ NL
                     +:+ serialize Json.dumps [Demo.hello] ]} [])
  = Raise JSONDecodeError.
Proof.
  split; [reflexivity |].
  apply (load_corrupt_line Json.dumps Json.loads "2024-05-02T08:00:00"
           ["logs"] Demo.is_dir Demo.logpath [Demo.hi] [] "{oops"
           (serialize Json.dumps [Demo.hello]) false).
  - repeat constructor; apply JsonFacts.Json_codec_ok.
  - reflexivity.
  - reflexivity.
  - reflexivity.
  - apply lookup_singleton_eq.
Defined.

(** X9: after every [append], loading the log file gives back the log in
    memory: the appended message is the last one of the loaded log. *)
Theorem load_after_append (dumps : json -> string)
    (loads : string -> option json) (now : Timestamp) (LOGSDIR : Path)
    (is_dir : Path -> bool)
    (msg : Message) (initial : list Message) (show : bool) (st : St) :
  (forall m, codec_ok dumps loads m) ->
  load loads now LOGSDIR is_dir (logfile (fst st)) initial show
    (snd (snd (append dumps msg st)))
  = Return (mkLogManager (log (fst st) ++ [msg]) (logfile (fst st)) show).
Proof.
  intros Hcodec. destruct st as [mgr w]. rewrite append_effect.
  cbn [fst snd].
  rewrite (load_fs_only loads now LOGSDIR is_dir _ initial show _
             (set_fs (write_log dumps (inr (log mgr ++ [msg])) (logfile mgr)
                        (fs w)) w)) by reflexivity.
  rewrite (load_after_write_log dumps loads now LOGSDIR is_dir)
    by (apply Forall_forall; intros; apply Hcodec).
  destruct (log mgr ++ [msg]) eqn:E; [now destruct (log mgr) | reflexivity].
Qed.

Lemma load_after_append_witness :
  load Json.loads "2024-05-02T08:00:00" ["logs"] Demo.is_dir Demo.logpath []
    false
    (snd (snd (append Json.dumps Demo2.tricky (Demo.saved [Demo.hi]))))
  = Return (mkLogManager [Demo.hi; Demo2.tricky] Demo.logpath false).
Proof.
  apply (load_after_append Json.dumps Json.loads "2024-05-02T08:00:00"
           ["logs"] Demo.is_dir Demo2.tricky [] false (Demo.saved [Demo.hi])).
  exact JsonFacts.Json_codec_ok.
Defined.

(** X10: [rename] moves the log file: its text is at the new path, nothing
    is left at the old one, the other files and the log are untouched, and
    the next [append] writes the new file only. *)
Theorem rename_moves_file (dumps : json -> string) (name text : string)
    (msg : Message) (st : St) :
  let old := logfile (fst st) in
  let new := joinpath (parent old) (name +:+ ".log") in
  fs (snd st) !! old = Some text ->
  new <> old ->
  let st' := rename name st in
  let st'' := append dumps msg (snd st') in
  result st' = Return tt /\
  final_log st' = log (fst st) /\
  final_logfile st' = new /\
  final_fs st' !! new = Some text /\
  final_fs st' !! old = None /\
  (forall q, q <> new -> q <> old -> final_fs st' !! q = fs (snd st) !! q) /\
  final_fs st'' !! new = Some (serialize dumps (log (fst st) ++ [msg])) /\
  final_fs st'' !! old = None.
Proof.
  destruct st as [mgr w]. cbv zeta. cbn [fst snd]. intros Hold Hne.
  unfold rename. rewrite Hold.
  unfold result, final_log, final_logfile, final_fs, set_fs, set_logfile.
  cbn [fst snd log logfile fs].
  split; [reflexivity |]. split; [reflexivity |]. split; [reflexivity |].
  split; [apply lookup_insert_eq |].
  split; [rewrite lookup_insert_ne by exact Hne; apply lookup_delete_eq |].
  split.
  - intros q Hq1 Hq2. rewrite lookup_insert_ne by congruence.
    now rewrite lookup_delete_ne by congruence.
  - rewrite append_effect. cbn [fst snd fs log logfile].
    split; [apply lookup_insert_eq |].
    rewrite !lookup_insert_ne by congruence. apply lookup_delete_eq.
Qed.

Lemma rename_moves_file_witness :
  let st' := rename "kept" (Demo.saved [Demo.hi]) in
  final_logfile st' = ["logs"; "demo"; "kept.log"] /\
  final_fs st' !! ["logs"; "demo"; "kept.log"]
  = Some (serialize Json.dumps [Demo.hi]) /\
  final_fs st' !! Demo.logpath = None.
Proof.
  cbv zeta.
  destruct (rename_moves_file Json.dumps "kept"
              (serialize Json.dumps [Demo.hi]) Demo.hello
              (Demo.saved [Demo.hi]))
    as (_ & _ & Hfile & Hnew & Hold & _).
  - apply lookup_singleton_eq.
  - discriminate.
  - split; [exact Hfile |]. split; [exact Hnew | exact Hold].
Defined.

(** ** [get_last_code_block] *)

Module SubFacts.

Lemma split_from_length (pat s : string) (skip : nat) :
  length (Sub.split_from skip pat s) = S (Sub.count_from skip pat s).
Proof.
  revert skip. induction s as [|c s IH]; intros skip; [reflexivity |].
  cbn [Sub.split_from Sub.count_from]. destruct skip as [|k]; [| apply IH].
  destruct (String.prefix pat (String c s)).
  - cbn [length]. now rewrite IH.
  - specialize (IH 0). destruct (Sub.split_from 0 pat s); [discriminate |].
    exact IH.
Qed.

Lemma sub_split_length (pat s : string) :
  length (Sub.split pat s) = S (Sub.count pat s).
Proof. apply split_from_length. Qed.

Lemma penultimate_returns {A} (l : list A) :
  2 <= length l -> exists x, Sub.penultimate l = Return x.
Proof.
  intros H. unfold Sub.penultimate. rewrite <- length_rev in H.
  destruct (rev l) as [|a [|b r]]; simpl in H; try lia. now exists b.
Qed.

Lemma penultimate_app {A} (l : list A) (a b : A) :
  Sub.penultimate (l ++ [a; b]) = Return a.
Proof. unfold Sub.penultimate. now rewrite rev_app_distr. Qed.

Lemma prefix_fence_other (c : ascii) (s : string) :
  c <> Text.BACKTICK -> String.prefix Text.FENCE (String c s) = false.
Proof.
  intros Hc. unfold Text.FENCE. cbn [String.prefix].
  destruct (Ascii.ascii_dec _ c) as [E | _];
    [unfold Text.BACKTICK in Hc; congruence |].
  reflexivity.
Qed.

Lemma split_from_match (pat s : string) (c : ascii) :
  String.prefix pat (String c s) = true ->
  Sub.split_from 0 pat (String c s)
  = "" :: Sub.split_from (String.length pat - 1) pat s.
Proof. intros H. cbn [Sub.split_from]. now rewrite H. Qed.

Lemma split_from_fence (t : string) :
  Sub.split_from 0 Text.FENCE (Text.FENCE +:+ t)
  = "" :: Sub.split_from 0 Text.FENCE t.
Proof.
  change (Text.FENCE +:+ t)
    with (String Text.BACKTICK (String Text.BACKTICK (String Text.BACKTICK t))).
  rewrite split_from_match by (destruct t; reflexivity).
  reflexivity.
Qed.

Lemma split_free (a : string) :
  Str.count Text.BACKTICK a = 0 -> Sub.split Text.FENCE a = [a].
Proof.
  unfold Sub.split. induction a as [|c a IH]; [reflexivity |].
  cbn [Str.count Sub.split_from].
  destruct (Ascii.eqb_spec c Text.BACKTICK) as [-> | Hc]; [discriminate |].
  intros H. rewrite prefix_fence_other by exact Hc. now rewrite (IH H).
Qed.

Lemma split_part (a t : string) :
  Str.count Text.BACKTICK a = 0 ->
  Sub.split Text.FENCE (a +:+ Text.FENCE +:+ t) = a :: Sub.split Text.FENCE t.
Proof.
  unfold Sub.split. induction a as [|c a IH].
  - intros _. apply split_from_fence.
  - cbn [Str.count]. change (String c a +:+ Text.FENCE +:+ t)
      with (String c (a +:+ Text.FENCE +:+ t)). cbn [Sub.split_from].
    destruct (Ascii.eqb_spec c Text.BACKTICK) as [-> | Hc]; [discriminate |].
    intros H. rewrite prefix_fence_other by exact Hc. now rewrite (IH H).
Qed.

Lemma split_concat (parts : list string) :
  parts <> [] ->
  Forall (fun a => Str.count Text.BACKTICK a = 0) parts ->
  Sub.split Text.FENCE (String.concat Text.FENCE parts) = parts.
Proof.
  intros Hne H. induction H as [|a l Ha Hl IH]; [congruence |].
  destruct l as [|b l].
  - now apply split_free.
  - change (String.concat Text.FENCE (a :: b :: l))
      with (a +:+ Text.FENCE +:+ String.concat Text.FENCE (b :: l)).
    rewrite split_part by exact Ha. now rewrite IH.
Qed.

End SubFacts.

Lemma scan_code_block_returns (reversed : list Message) :
  exists r, scan_code_block reversed = Return r.
Proof.
  induction reversed as [|m l IH]; [now exists None |].
  cbn [scan_code_block]. destruct (2 <=? _) eqn:E; [| exact IH].
  apply Nat.leb_le in E. unfold code_block_of.
  destruct (SubFacts.penultimate_returns
              (Sub.split Text.FENCE (content m))) as [x Hx].
  - rewrite SubFacts.sub_split_length. lia.
  - rewrite Hx. eexists. reflexivity.
Qed.

Lemma scan_code_block_none (reversed : list Message) :
  scan_code_block reversed = Return None <->
  Forall (fun m => Sub.count Text.FENCE (content m) < 2) reversed.
Proof.
  induction reversed as [|m l IH]; [split; [constructor | reflexivity] |].
  cbn [scan_code_block]. destruct (2 <=? _) eqn:E.
  - apply Nat.leb_le in E. split.
    + destruct (code_block_of (content m)); discriminate.
    + intros H. inversion H; subst. lia.
  - apply Nat.leb_gt in E. rewrite IH. split.
    + intros H. now constructor.
    + intros H. now inversion H.
Qed.

Lemma scan_code_block_skips (l2 rest : list Message) :
  Forall (fun m => Sub.count Text.FENCE (content m) < 2) l2 ->
  scan_code_block (rev l2 ++ rest) = scan_code_block rest.
Proof.
  intros H. revert rest. induction H as [|m l Hm _ IH]; intros rest;
    [reflexivity |].
  cbn [rev]. rewrite <- app_assoc, IH. cbn [app scan_code_block].
  apply Nat.leb_gt in Hm. now rewrite Hm.
Qed.

(** X11: [get_last_code_block] never raises (the index [-2] is guarded by
    the count of fences), and it returns [None] exactly when no message of
    the log has two fences. *)
Theorem get_last_code_block_total (mgr : LogManager) :
  (exists r, get_last_code_block mgr = Return r) /\
  (get_last_code_block mgr = Return None <->
   Forall (fun m => Sub.count Text.FENCE (content m) < 2) (log mgr)).
Proof.
  unfold get_last_code_block. split; [apply scan_code_block_returns |].
  rewrite scan_code_block_none. split; intros H.
  - rewrite <- (rev_involutive (log mgr)). now apply Forall_rev.
  - now apply Forall_rev.
Qed.

(** X12: the block comes from the last message that has two fences, and it
    is the text between the last two fences of that message without its
    first line, whether or not these two fences open and close one block. *)
Theorem get_last_code_block_last_fenced (mgr : LogManager)
    (l1 l2 : list Message) (m : Message) (parts : list string)
    (a b : string) :
  log mgr = l1 ++ m :: l2 ->
  Forall (fun m' => Sub.count Text.FENCE (content m') < 2) l2 ->
  content m = String.concat Text.FENCE (parts ++ [a; b]) ->
  parts <> [] ->
  Forall (fun s => Str.count Text.BACKTICK s = 0) (parts ++ [a; b]) ->
  get_last_code_block mgr = Return (Some (Sub.last_of_split1 LF a)).
Proof.
  intros Hlog Hl2 Hc Hne Hfree. unfold get_last_code_block.
  rewrite Hlog, rev_app_distr. cbn [rev]. rewrite <- app_assoc.
  rewrite scan_code_block_skips by exact Hl2.
  cbn [app scan_code_block]. unfold code_block_of.
  assert (Hsplit : Sub.split Text.FENCE (content m) = parts ++ [a; b]).
  { rewrite Hc. apply SubFacts.split_concat; [| exact Hfree].
    now destruct parts. }
  assert (Hcount : 2 <= Sub.count Text.FENCE (content m)).
  { pose proof (SubFacts.sub_split_length Text.FENCE (content m)) as Hlen.
    rewrite Hsplit, length_app in Hlen. cbn [length] in Hlen.
    destruct parts; [congruence |]. cbn [length] in Hlen. lia. }
  apply Nat.leb_le in Hcount. rewrite Hcount, Hsplit.
  now rewrite SubFacts.penultimate_app.
Qed.

Lemma get_last_code_block_last_fenced_witness :
  get_last_code_block
    (mkLogManager [Blocks.closed; Blocks.unclosed; Blocks.thanks]
       Demo.logpath false)
  = Return (Some "done").
Proof.
  apply (get_last_code_block_last_fenced _
           [Blocks.closed] [Blocks.thanks] Blocks.unclosed
           [""; "py" +:+ NL +:+ "x = 1"] "done" ("sh" +:+ NL +:+ "pwd")).
  - reflexivity.
  - repeat constructor.
  - reflexivity.
  - discriminate.
  - repeat constructor.
Defined.

(** ** [prompt_user] *)

Module PromptFacts.

Import Prompt.

Lemma prompt_input_no_value (P : string) (value : option string) (t : Term) :
  default "" value = "" -> prompt_input P value t = get_input t.
Proof.
  destruct value as [v|]; [| reflexivity]. simpl. intros ->.
  reflexivity.
Qed.

Lemma prompt_loop_arm (k : nat) (P : string) (value : option string)
    (t : Term) :
  prompt_loop (S k) P value (arm t) = prompt_loop (S k) P value t.
Proof. reflexivity. Qed.

Lemma prompt_loop_S (k : nat) (P : string) (value : option string)
    (t : Term) :
  prompt_loop (S k) P value t
  = match prompt_round P value t with
    | (Some r, t') => (Some r, t')
    | (None, t') => prompt_loop k P value t'
    end.
Proof. reflexivity. Qed.

Lemma prompt_loop_idle (P : string) (value : option string)
    (idles rest : list Input) (k : nat) (t : Term) :
  default "" value = "" ->
  pending t = idles ++ rest ->
  forallb idle idles = true ->
  prompt_loop (length idles + S k) P value t
  = prompt_loop (S k) P value
      (mkTerm rest (shown t ++ notices idles) (history t) (interruptible t)).
Proof.
  intros Hv. revert t. induction idles as [|i idles IH]; intros t Hp Hi.
  - destruct t as [p s h f]. cbn [app] in Hp. cbn [pending] in Hp. subst p.
    unfold notices. cbn [List.filter map length Nat.add shown history
                          interruptible].
    now rewrite app_nil_r.
  - cbn [forallb] in Hi. apply andb_prop in Hi. destruct Hi as [Hi Hrest].
    cbn [length Nat.add]. rewrite (prompt_loop_S (length idles + S k)).
    unfold prompt_round.
    rewrite (prompt_input_no_value P value _ Hv). unfold get_input.
    cbn [arm pending]. rewrite Hp. cbn [app].
    destruct i as [s |].
    + cbn [idle] in Hi. apply String.eqb_eq in Hi. subst s.
      unfold arm. cbn [String.eqb negb shown history interruptible].
      rewrite (IH (mkTerm (idles ++ rest) (shown t) (history t) true)
                 eq_refl Hrest).
      cbn [shown history interruptible].
      rewrite <- (prompt_loop_arm k P value (mkTerm rest _ _ _)).
      reflexivity.
    + unfold say, arm.
      cbn [pending shown history interruptible].
      rewrite (IH (mkTerm (idles ++ rest)
                     (shown t ++ [NL +:+ "Interrupted. Press Ctrl-D to exit."])
                     (history t) true) eq_refl Hrest).
      cbn [shown history interruptible]. unfold notices.
      cbn [List.filter is_ctrl_c map]. rewrite <- app_assoc. cbn [app].
      rewrite <- (prompt_loop_arm k P value (mkTerm rest _ _ _)).
      reflexivity.
Qed.

Lemma prompt_loop_ends (P : string) (value : option string) (k : nat)
    (t : Term) :
  length (pending t) < k ->
  exists r t', prompt_loop k P value t = (Some r, t') /\
               (forall s, r = Ok s -> s <> "").
Proof.
  revert t. induction k as [|k IH]; intros t Hk; [lia |].
  cbn [prompt_loop]. unfold prompt_round, prompt_input.
  destruct value as [v|].
  - destruct (String.eqb v "") eqn:Ev; cbn [negb].
    + unfold get_input. cbn [arm pending].
      destruct (pending t) as [|[s|] rest] eqn:Hp.
      * eexists _, _. split; [reflexivity | discriminate].
      * cbn [shown history interruptible].
        destruct (String.eqb s "") eqn:Es; cbn [negb].
        -- apply IH. cbn [pending]. cbn [length] in Hk. lia.
        -- eexists _, _. split; [reflexivity |].
           intros s' H. injection H as <-. now apply String.eqb_neq.
      * apply IH. unfold say. cbn [pending]. cbn [length] in Hk. lia.
    + rewrite Ev. cbn [negb]. eexists _, _. split; [reflexivity |].
      intros s' H. injection H as <-. now apply String.eqb_neq.
  - unfold get_input. cbn [arm pending].
    destruct (pending t) as [|[s|] rest] eqn:Hp.
    + eexists _, _. split; [reflexivity | discriminate].
    + cbn [shown history interruptible].
      destruct (String.eqb s "") eqn:Es; cbn [negb].
      * apply IH. cbn [pending]. cbn [length] in Hk. lia.
      * eexists _, _. split; [reflexivity |].
        intros s' H. injection H as <-. now apply String.eqb_neq.
    + apply IH. unfold say. cbn [pending]. cbn [length] in Hk. lia.
Qed.

End PromptFacts.

(** X13: [prompt_user] skips empty lines and interrupts, printing one notice
    for every interrupt, and returns the first non-empty line; that line is
    added to the history, the rest of the input is left unread and the
    interrupt flag is cleared. *)
Theorem prompt_user_first_answer (P : string) (value : option string)
    (idles rest : list Prompt.Input) (s : string) (t : Prompt.Term) :
  default "" value = "" ->
  Prompt.pending t = idles ++ Prompt.Line s :: rest ->
  forallb Prompt.idle idles = true ->
  s <> "" ->
  Prompt.prompt_user P value t
  = (Some (Ok s),
     Prompt.mkTerm rest (Prompt.shown t ++ Prompt.notices idles)
       (Prompt.history t ++ [s]) false).
Proof.
  intros Hv Hp Hi Hs. unfold Prompt.prompt_user. rewrite Hp.
  rewrite length_app. cbn [length].
  replace (S (length idles + S (length rest)))
    with (length idles + S (S (length rest))) by lia.
  rewrite (PromptFacts.prompt_loop_idle P value idles _ _ t Hv Hp Hi).
  cbn [Prompt.prompt_loop]. unfold Prompt.prompt_round.
  rewrite (PromptFacts.prompt_input_no_value P value _ Hv).
  unfold Prompt.get_input. cbn [Prompt.arm Prompt.pending].
  apply String.eqb_neq in Hs. rewrite Hs. reflexivity.
Qed.

Lemma prompt_user_first_answer_witness :
  Prompt.prompt_user "User" None
    (Prompt.mkTerm
       [Prompt.Line ""; Prompt.CtrlC; Prompt.Line "hi"; Prompt.Line "more"]
       [] ["old"] false)
  = (Some (Ok "hi"),
     Prompt.mkTerm [Prompt.Line "more"]
       [NL +:+ "Interrupted. Press Ctrl-D to exit."] ["old"; "hi"] false).
Proof.
  apply (prompt_user_first_answer "User" None
           [Prompt.Line ""; Prompt.CtrlC] [Prompt.Line "more"] "hi"
           (Prompt.mkTerm
              [Prompt.Line ""; Prompt.CtrlC; Prompt.Line "hi";
               Prompt.Line "more"] [] ["old"] false)).
  - reflexivity.
  - reflexivity.
  - reflexivity.
  - discriminate.
Defined.

(** X14: when the input ends before a non-empty line was given,
    [prompt_user] says goodbye and exits; nothing is added to the history
    and the interrupt flag stays set. *)
Theorem prompt_user_end_of_input (P : string) (value : option string)
    (t : Prompt.Term) :
  default "" value = "" ->
  forallb Prompt.idle (Prompt.pending t) = true ->
  Prompt.prompt_user P value t
  = (Some (Err SystemExit),
     Prompt.mkTerm []
       (Prompt.shown t ++ Prompt.notices (Prompt.pending t)
          ++ [NL +:+ "Goodbye!"])
       (Prompt.history t) true).
Proof.
  intros Hv Hi. unfold Prompt.prompt_user.
  replace (S (length (Prompt.pending t)))
    with (length (Prompt.pending t) + 1) by lia.
  rewrite (PromptFacts.prompt_loop_idle P value (Prompt.pending t) [] 0 t Hv
             (eq_sym (app_nil_r _)) Hi).
  cbn [Prompt.prompt_loop]. unfold Prompt.prompt_round.
  rewrite (PromptFacts.prompt_input_no_value P value _ Hv).
  unfold Prompt.get_input, Prompt.say.
  cbn [Prompt.arm Prompt.pending Prompt.shown Prompt.history
       Prompt.interruptible].
  now rewrite <- app_assoc.
Qed.

Lemma prompt_user_end_of_input_witness :
  Prompt.prompt_user "User" (Some "")
    (Prompt.mkTerm [Prompt.CtrlC; Prompt.Line ""] [] ["old"] false)
  = (Some (Err SystemExit),
     Prompt.mkTerm []
       [NL +:+ "Interrupted. Press Ctrl-D to exit."; NL +:+ "Goodbye!"]
       ["old"] true).
Proof.
  apply (prompt_user_end_of_input "User" (Some "")
           (Prompt.mkTerm [Prompt.CtrlC; Prompt.Line ""] [] ["old"] false)).
  - reflexivity.
  - reflexivity.
Defined.

(** X15: [prompt_user] always ends, with a response or by leaving the
    program, and the response it returns is never empty. *)
Theorem prompt_user_ends_nonempty (P : string) (value : option string)
    (t : Prompt.Term) :
  exists r t', Prompt.prompt_user P value t = (Some r, t') /\
               (forall s, r = Ok s -> s <> "").
Proof. apply PromptFacts.prompt_loop_ends. lia. Qed.

(** ** The cycles of [chat] *)

Section CycleFacts.

Variable E : Env.

Lemma consume_state (evs : list Event) : forall (in_try : bool) (st : St),
  fst (consume E in_try evs st) = append_responses E (yielded evs) st.
Proof.
  induction evs as [|e evs IH]; intros in_try st; [reflexivity |].
  destruct e as [| | | msgs | msg]; cbn [consume yielded append_responses].
  - specialize (IH in_try st). destruct (consume E in_try evs st). exact IH.
  - specialize (IH in_try st). destruct (consume E in_try evs st). exact IH.
  - specialize (IH in_try st). destruct (consume E in_try evs st). exact IH.
  - specialize (IH true st). destruct (consume E true evs st). exact IH.
  - destruct (Role_eqb (role msg) user).
    + destruct (execute_cmd E msg (manager_append E msg st)) as [handled st2].
      destruct handled; [reflexivity |].
      specialize (IH in_try st2). destruct (consume E in_try evs st2).
      exact IH.
    + specialize (IH in_try (manager_append E msg st)).
      destruct (consume E in_try evs (manager_append E msg st)). exact IH.
Qed.

Lemma yielded_app (a b : list Event) : yielded (a ++ b) = yielded a ++ yielded b.
Proof.
  induction a as [|e a IH]; [reflexivity |].
  destruct e; cbn [app yielded]; now rewrite ?IH.
Qed.

Lemma yielded_map_Yield (l : list Message) : yielded (map Yield l) = l.
Proof. induction l as [|m l IH]; [reflexivity |]. cbn. now rewrite IH. Qed.

Lemma yielded_respond (l : list Message) :
  yielded (respond E l)
  = match reply E (prepare_messages E l) with
    | ReplyInterrupted _ => [interrupted_msg E]
    | Replied r =>
        replace_quiet true r :: produced (execute_msg E r)
        ++ (if tools_interrupted (execute_msg E r)
            then [interrupted_msg E] else [])
    end.
Proof.
  unfold respond. cbv zeta. cbn [app yielded].
  destruct (reply E (prepare_messages E l)) as [r | s]; [| reflexivity].
  cbn [app yielded]. rewrite <- app_assoc, yielded_app, yielded_map_Yield.
  destruct (tools_interrupted (execute_msg E r)); reflexivity.
Qed.

(** Without a user message among them, the responses are all appended. *)
Lemma append_responses_no_user (msgs : list Message) : forall st,
  Forall (fun m => Role_eqb (role m) user = false) msgs ->
  append_responses E msgs st
  = fold_left (fun s m => snd (append (json_dumps E) m s)) msgs st.
Proof.
  induction msgs as [|m msgs IH]; intros st H; [reflexivity |].
  inversion H as [|? ? Hm Hrest]; subst.
  cbn [append_responses fold_left]. rewrite Hm. now apply IH.
Qed.

(** With the [try] block entered, the loop ends disarmed wherever it is
    left. *)
Lemma consume_in_try_disarms (evs : list Event) : forall (armed : bool) (st : St),
  flag_after armed (snd (consume E true (evs ++ [Disarmed]) st)) = false.
Proof.
  induction evs as [|e evs IH]; intros armed st; [reflexivity |].
  destruct e as [| | | msgs | msg]; cbn [app consume].
  - specialize (IH true st).
    destruct (consume E true (evs ++ [Disarmed]) st). exact IH.
  - specialize (IH false st).
    destruct (consume E true (evs ++ [Disarmed]) st). exact IH.
  - specialize (IH armed st).
    destruct (consume E true (evs ++ [Disarmed]) st). exact IH.
  - specialize (IH armed st).
    destruct (consume E true (evs ++ [Disarmed]) st). exact IH.
  - destruct (Role_eqb (role msg) user).
    + destruct (execute_cmd E msg (manager_append E msg st)) as [handled st2].
      destruct handled; [reflexivity |].
      specialize (IH armed st2).
      destruct (consume E true (evs ++ [Disarmed]) st2). exact IH.
    + specialize (IH armed (manager_append E msg st)).
      destruct (consume E true (evs ++ [Disarmed]) (manager_append E msg st)).
      exact IH.
Qed.

Lemma respond_shape (l : list Message) :
  exists body,
    respond E l = Armed :: ModelCalled (prepare_messages E l) :: body ++ [Disarmed].
Proof. unfold respond. cbv zeta. cbn [app]. eexists. reflexivity. Qed.

Lemma consume_respond_disarms (l : list Message) (armed : bool) (st : St) :
  flag_after armed (snd (consume E false (respond E l) st)) = false.
Proof.
  destruct (respond_shape l) as [body ->]. cbn [consume].
  pose proof (consume_in_try_disarms body true st) as H.
  destruct (consume E true (body ++ [Disarmed]) st). exact H.
Qed.

Lemma include_paths_user (m m' : Message) :
  _include_paths E m = Ok m' -> role m = user.
Proof.
  unfold _include_paths. destruct (role m); try discriminate. reflexivity.
Qed.

End CycleFacts.

(** X16: the loop of the interactive branch, which appends while the
    generator runs, and the loop of the scripted branch, which appends after
    the generator has run to its end, leave the same log, files and display
    and end the same way. *)
Theorem cycles_agree (E : Env) (st : St) :
  fst (fst (interactive_cycle E st)) = fst (fst (scripted_cycle E st)) /\
  snd (interactive_cycle E st) = snd (scripted_cycle E st).
Proof.
  unfold interactive_cycle, scripted_cycle.
  destruct (step E (log (fst st))) as [evs r] eqn:Hstep.
  pose proof (consume_state E (Disarmed :: evs) false st) as Hc.
  destruct (consume E false (Disarmed :: evs) st) as [st' done].
  cbn [fst snd] in *. subst st'. cbn [yielded].
  destruct r as [[] | e]; [split; reflexivity |].
  split; [| reflexivity].
  unfold step in Hstep. destruct (needs_input (log (fst st))).
  - destruct (user_input E); [| injection Hstep as <- _; reflexivity].
    destruct (_include_paths E _); [discriminate |].
    injection Hstep as <- _. reflexivity.
  - discriminate.
Qed.

(** X17: a cycle of the interactive branch leaves the interrupt flag set
    only when the input ended at the prompt and the program exits; in every
    other case, also when a command or an exception cuts the cycle short,
    the flag is cleared.  A round of the scripted branch always clears it. *)
Theorem cycle_ends_disarmed (E : Env) (armed : bool) (st : St) :
  flag_after armed (cycle_events (interactive_cycle E st))
  = needs_input (log (fst st)) && negb (bool_decide (is_Some (user_input E))) /\
  flag_after armed (cycle_events (scripted_cycle E st)) = false.
Proof.
  split.
  - unfold interactive_cycle, cycle_events, step.
    destruct (needs_input (log (fst st))).
    + destruct (user_input E) as [inquiry |]; [| reflexivity].
      destruct (_include_paths E _) as [msg | e] eqn:Hinc; [| reflexivity].
      cbn [app consume].
      rewrite (include_paths_role E _ _ Hinc). cbn [role replace_quiet Msg].
      change (Role_eqb user user) with true. cbv iota.
      destruct (execute_cmd E msg (manager_append E msg st)) as [handled st2].
      destruct handled; [reflexivity |].
      pose proof (consume_respond_disarms E (log (fst st) ++ [msg]) false st2)
        as H.
      destruct (consume E false (respond E (log (fst st) ++ [msg])) st2).
      exact H.
    + cbn [consume].
      pose proof (consume_respond_disarms E (log (fst st)) false st) as H.
      destruct (consume E false (respond E (log (fst st))) st). exact H.
  - unfold scripted_cycle, cycle_events.
    destruct (step E (log (fst st))) as [evs r].
    assert (H : forall b, flag_after b (evs ++ [Disarmed]) = false).
    { induction evs as [|e evs IH]; intros b; [reflexivity |].
      destruct e; cbn [app flag_after]; apply IH. }
    destruct r; cbn [fst snd flag_after]; apply H.
Qed.

(** X18: a command typed at the prompt of the interactive branch is
    appended and run, and the cycle ends there without a call of the model.
    The scripted branch reaches the same state, but only after it has called
    the model and dropped what the model said. *)
Theorem command_at_prompt (E : Env) (st : St) (inquiry : string)
    (msg : Message) :
  needs_input (log (fst st)) = true ->
  user_input E = Some inquiry ->
  _include_paths E (replace_quiet true (Msg user inquiry (clock E 0))) = Ok msg ->
  fst (execute_cmd E msg (manager_append E msg st)) = true ->
  let st' := snd (execute_cmd E msg (manager_append E msg st)) in
  interactive_cycle E st
  = (st', [Disarmed; Armed; Prompted; Disarmed; Yield msg], Ok tt) /\
  fst (fst (scripted_cycle E st)) = st' /\
  model_calls (cycle_events (scripted_cycle E st)) = 1.
Proof.
  intros Hneed Hin Hinc Hcmd. cbv zeta.
  assert (Hrole : Role_eqb (role msg) user = true).
  { rewrite (include_paths_role E _ _ Hinc). reflexivity. }
  unfold interactive_cycle, scripted_cycle, step.
  rewrite Hneed, Hin, Hinc. cbn [app consume yielded append_responses].
  rewrite Hrole.
  destruct (execute_cmd E msg (manager_append E msg st)) as [handled st2].
  cbn [fst snd] in *. subst handled.
  split; [reflexivity |]. split; [reflexivity |].
  unfold cycle_events, model_calls. cbn [fst snd].
  destruct (respond_shape E (log (fst st) ++ [msg])) as [body Hbody].
  assert (Hcalls : List.filter is_model_call (respond E (log (fst st) ++ [msg]))
                   = [ModelCalled (prepare_messages E (log (fst st) ++ [msg]))]).
  { unfold respond. cbv zeta. cbn [app List.filter is_model_call].
    f_equal. rewrite !List.filter_app.
    destruct (reply E _) as [r | s]; cbn [List.filter is_model_call app];
      [| reflexivity].
    rewrite List.filter_app.
    assert (Hy : forall l, List.filter is_model_call (map Yield l) = []).
    { induction l as [|x l IH]; [reflexivity | exact IH]. }
    rewrite Hy. destruct (tools_interrupted _); reflexivity. }
  cbn [List.filter is_model_call]. rewrite !List.filter_app.
  cbn [List.filter is_model_call]. fold (@app Event).
  rewrite Hcalls. reflexivity.
Qed.

Lemma command_at_prompt_witness :
  interactive_cycle (Office.env "/exit") (Demo.saved [Demo.hi; Demo.hello])
  = (snd (execute_cmd (Office.env "/exit")
            (replace_quiet true (Msg user "/exit" "2024-05-01T10:01:00"))
            (manager_append (Office.env "/exit")
               (replace_quiet true (Msg user "/exit" "2024-05-01T10:01:00"))
               (Demo.saved [Demo.hi; Demo.hello]))),
     [Disarmed; Armed; Prompted; Disarmed;
      Yield (replace_quiet true (Msg user "/exit" "2024-05-01T10:01:00"))],
     Ok tt).
Proof.
  apply (command_at_prompt (Office.env "/exit")
           (Demo.saved [Demo.hi; Demo.hello]) "/exit"
           (replace_quiet true (Msg user "/exit" "2024-05-01T10:01:00"))).
  - reflexivity.
  - reflexivity.
  - vm_compute. reflexivity.
  - reflexivity.
Defined.

Section ScriptedReply.

Variable E : Env.

(** A round of the scripted branch on a log that needs no input, with a
    model that answers: the quiet response and what the tools produce are
    appended. *)
Lemma scripted_cycle_reply (st : St) (r : Message) :
  needs_input (log (fst st)) = false ->
  reply E (prepare_messages E (log (fst st))) = Replied r ->
  Role_eqb (role r) user = false ->
  Forall (fun m => Role_eqb (role m) user = false)
         (produced (execute_msg E r)) ->
  scripted_cycle E st
  = (fold_left (fun s m => snd (append (json_dumps E) m s))
       (replace_quiet true r :: produced (execute_msg E r)
        ++ (if tools_interrupted (execute_msg E r)
            then [interrupted_msg E] else []))
       st,
     Armed :: respond E (log (fst st)) ++ [Disarmed], Ok tt).
Proof.
  intros Hneed Hreply Hr Htools. unfold scripted_cycle, step.
  rewrite Hneed. rewrite yielded_respond, Hreply.
  rewrite append_responses_no_user; [reflexivity |].
  constructor; [exact Hr |]. apply Forall_app. split; [exact Htools |].
  destruct (tools_interrupted (execute_msg E r)); repeat constructor.
Qed.

Lemma first_assistant_content_skip (sys rest : list Message) :
  Forall (fun m => Role_eqb (role m) assistant = false) sys ->
  first_assistant_content (rev sys ++ rest) = first_assistant_content rest.
Proof.
  intros H. revert rest. induction H as [|m l Hm _ IH]; intros rest;
    [reflexivity |].
  cbn [rev]. rewrite <- app_assoc, IH. cbn [app first_assistant_content].
  now rewrite Hm.
Qed.

Lemma model_calls_respond (l : list Message) :
  model_calls (respond E l) = 1.
Proof.
  unfold model_calls, respond. cbv zeta. cbn [app List.filter is_model_call].
  rewrite !List.filter_app.
  assert (Hy : forall ms, List.filter is_model_call (map Yield ms) = []).
  { induction ms as [|x ms IH]; [reflexivity | exact IH]. }
  destruct (reply E _) as [r | s]; cbn [List.filter is_model_call app];
    [| reflexivity].
  rewrite List.filter_app, Hy.
  destruct (tools_interrupted _); reflexivity.
Qed.

End ScriptedReply.

(** X19: a queued prompt that is no command, answered by the model without
    a runnable tool use left: the log grows by the prompt with its included
    paths, the quiet response and what the tools produced, in this order,
    and the log file holds the same; the user is not prompted and the model
    is called once. *)
Theorem run_prompt_plain (E : Env) (runnable : string -> bool) (rounds : nat)
    (msg msg' r : Message) (st : St) :
  Str.startswith "/" (content msg) = false ->
  _include_paths E msg = Ok msg' ->
  pinned msg' = false ->
  content msg' <> "Interrupted" ->
  execute_cmd E msg' (manager_append E msg' st)
  = (false, manager_append E msg' st) ->
  reply E (prepare_messages E (log (fst st) ++ [msg'])) = Replied r ->
  role r = assistant ->
  Forall (fun m => role m = system) (produced (execute_msg E r)) ->
  runnable (content r) = false ->
  let run := execute_msg E r in
  let added :=
    msg' :: replace_quiet true r :: produced run
    ++ (if tools_interrupted run then [interrupted_msg E] else []) in
  let res := run_prompt E runnable (S rounds) msg st in
  snd res = Finished /\
  log (fst (fst (fst res))) = log (fst st) ++ added /\
  fs (snd (fst (fst res))) !! logfile (fst st)
  = Some (serialize (json_dumps E) (log (fst st) ++ added)) /\
  prompts (snd (fst res)) = false /\
  model_calls (snd (fst res)) = 1.
Proof.
  intros Hslash Hinc Hpin Hcontent Hcmd Hreply Hrole Htools Hrun.
  cbv zeta. unfold run_prompt. rewrite Hslash. cbn [negb]. rewrite Hinc, Hcmd.
  cbn [respond_rounds].
  assert (Huser : role msg' = user).
  { rewrite (include_paths_role E _ _ Hinc).
    exact (include_paths_user E _ _ Hinc). }
  assert (Hlog : log (fst (manager_append E msg' st)) = log (fst st) ++ [msg'])
    by apply manager_append_log.
  assert (Hneed : needs_input (log (fst (manager_append E msg' st))) = false).
  { rewrite Hlog. unfold needs_input. rewrite last_snoc, Huser, Hpin.
    apply String.eqb_neq in Hcontent. rewrite Hcontent.
    rewrite map_app, existsb_app. cbn [map existsb]. rewrite Huser.
    change (Role_eqb user user) with true.
    change (Role_eqb user assistant) with false.
    now rewrite orb_true_r. }
  assert (Htools' : Forall (fun m => Role_eqb (role m) user = false)
                      (produced (execute_msg E r))).
  { eapply Forall_impl; [exact Htools |]. cbv beta. intros m ->. reflexivity. }
  rewrite (scripted_cycle_reply E _ r Hneed); cycle 1.
  { now rewrite Hlog. }
  { now rewrite Hrole. }
  { exact Htools'. }
  rewrite Hlog.
  destruct st as [mgr w]. unfold manager_append.
  rewrite append_effect. cbn [snd].
  rewrite appends_effect.
  cbn [fst snd log set_log logfile fs].
  assert (Hlast : last_assistant_content
                    ((log mgr ++ [msg']) ++ replace_quiet true r
                       :: produced (execute_msg E r)
                       ++ (if tools_interrupted (execute_msg E r)
                           then [interrupted_msg E] else []))
                  = content r).
  { unfold last_assistant_content. rewrite rev_app_distr. cbn [rev].
    rewrite <- app_assoc. rewrite first_assistant_content_skip.
    - cbn [app first_assistant_content role replace_quiet content].
      now rewrite Hrole.
    - apply Forall_app. split.
      + eapply Forall_impl; [exact Htools |]. cbv beta. intros m ->.
        reflexivity.
      + destruct (tools_interrupted (execute_msg E r)); repeat constructor. }
  rewrite Hlast, Hrun. unfold set_log. cbn [negb fst snd log fs].
  split; [reflexivity |].
  split; [now rewrite <- app_assoc |].
  split; [rewrite lookup_insert_eq; now rewrite <- app_assoc |].
  split.
  - unfold prompts. cbn [existsb is_prompt orb].
    rewrite existsb_app. cbn [existsb is_prompt orb].
    rewrite orb_false_r. apply (prompts_respond E).
  - unfold model_calls. cbn [List.filter is_model_call].
    rewrite List.filter_app. cbn [List.filter is_model_call].
    rewrite app_nil_r. apply (model_calls_respond E).
Qed.

Lemma run_prompt_plain_witness :
  let res := run_prompt (Office.env "unused") Office.nothing_runnable 1
               (Desk.ask "list the files") (Demo.saved []) in
  snd res = Finished /\
  log (fst (fst (fst res)))
  = [Desk.ask "list the files"; replace_quiet true Office.answer;
     Office.tool_output] /\
  model_calls (snd (fst res)) = 1.
Proof.
  cbv zeta.
  destruct (run_prompt_plain (Office.env "unused") Office.nothing_runnable 0
              (Desk.ask "list the files") (Desk.ask "list the files")
              Office.answer (Demo.saved []))
    as (Hend & Hlog & _ & _ & Hcalls).
  - reflexivity.
  - vm_compute. reflexivity.
  - reflexivity.
  - discriminate.
  - reflexivity.
  - reflexivity.
  - reflexivity.
  - repeat constructor.
  - reflexivity.
  - split; [exact Hend |]. split; [exact Hlog | exact Hcalls].
Defined.

(** ** More on [_include_paths] *)

Section IncludeMore.

Variable E : Env.

Lemma include_word_files_extend (w : string) (a a' : string)
    (f f' : list string) :
  include_word E w (a, f) = Ok (a', f') -> exists more, f' = f ++ more.
Proof.
  unfold include_word.
  assert (Hsame : forall x : string * list string,
             Ok (a, f) = Ok x -> exists more, snd x = f ++ more).
  { intros x Hx. injection Hx as <-. exists []. simpl.
    now rewrite app_nil_r. }
  destruct (String.eqb w ""); [intros H; exact (Hsame _ H) |].
  destruct (is_candidate E w); [| intros H; exact (Hsame _ H)].
  destruct (if use_fresh_context E then Ok None else _parse_prompt E w)
    as [contents|e]; [| discriminate].
  destruct (negb (String.eqb (default "" contents) "")).
  - intros H. injection H as <- <-. exists []. now rewrite app_nil_r.
  - destruct (_parse_prompt_files E w) as [[file|]|e]; try discriminate.
    + destruct (stored_path E file); [| discriminate].
      intros H. injection H as <- <-. eexists. reflexivity.
    + intros H. exact (Hsame _ H).
Qed.

Lemma include_words_files_extend (ws : list string) :
  forall a f a' f',
    include_words E ws (a, f) = Ok (a', f') -> exists more, f' = f ++ more.
Proof.
  induction ws as [|w ws IH]; cbn [include_words]; intros a f a' f'.
  - intros H. injection H as <- <-. exists []. now rewrite app_nil_r.
  - destruct (include_word E w (a, f)) as [[a1 f1]|e] eqn:Hw;
      [intros H | discriminate].
    destruct (include_word_files_extend _ _ _ _ _ Hw) as [m1 ->].
    destruct (IH _ _ _ _ H) as [m2 ->].
    exists (m1 ++ m2). now rewrite app_assoc.
Qed.

(** In fresh-context mode no text is gathered. *)
Lemma include_word_fresh (w : string) (a a' : string) (f f' : list string) :
  use_fresh_context E = true ->
  include_word E w (a, f) = Ok (a', f') -> a' = a.
Proof.
  intros Hfresh. unfold include_word. rewrite Hfresh.
  destruct (String.eqb w ""); [now intros [= <- <-] |].
  destruct (is_candidate E w); [| now intros [= <- <-]].
  cbn [default]. change (negb (String.eqb (default "" None) "")) with false.
  cbv iota.
  destruct (_parse_prompt_files E w) as [[file|]|e]; try discriminate.
  - destruct (stored_path E file); [| discriminate]. now intros [= <- <-].
  - now intros [= <- <-].
Qed.

Lemma include_words_fresh (ws : list string) :
  use_fresh_context E = true ->
  forall a f a' f', include_words E ws (a, f) = Ok (a', f') -> a' = a.
Proof.
  intros Hfresh. induction ws as [|w ws IH]; cbn [include_words];
    intros a f a' f'.
  - now intros [= <- <-].
  - destruct (include_word E w (a, f)) as [[a1 f1]|e] eqn:Hw;
      [intros H | discriminate].
    rewrite (IH _ _ _ _ H). exact (include_word_fresh _ _ _ _ _ Hfresh Hw).
Qed.

(** Words that are no candidates leave what was gathered as it is. *)
Lemma include_words_no_candidate (ws : list string) (acc : string * list string) :
  Forall (fun w => w = "" \/ is_candidate E w = false) ws ->
  include_words E ws acc = Ok acc.
Proof.
  induction 1 as [|w ws Hw _ IH]; [reflexivity |].
  cbn [include_words]. unfold include_word. destruct acc as [a f].
  destruct Hw as [-> | Hw]; [exact IH |].
  rewrite Hw. destruct (String.eqb w ""); exact IH.
Qed.

(** The exceptions of [_parse_prompt] are those of the file system: the
    nested call on a word that is a file returns at once, so the recursion
    never goes deeper. *)
Lemma parse_prompt_file_errors (w : string) (e : exn_chat) :
  is_file E w = Ok true ->
  parse_prompt_at E 0 w = Err e -> exists n, e = Exn (OSError n).
Proof.
  unfold is_file. cbn [parse_prompt_at]. unfold parse_prompt_direct.
  destruct (is_command E w); [discriminate |].
  destruct (probe E w) as [| n | [t | | n]]; try discriminate.
  - intros _ [= <-]. now exists n.
Qed.

Lemma add_paths_errors (paths : list string) : forall result e,
  Forall (fun w => is_file E w = Ok true) paths ->
  add_paths (parse_prompt_at E 0) paths result = Err e ->
  exists n, e = Exn (OSError n).
Proof.
  induction paths as [|p paths IH]; intros result e H; [discriminate |].
  inversion H as [|? ? Hp Hrest]; subst. cbn [add_paths].
  destruct (parse_prompt_at E 0 p) as [r | e'] eqn:Hpp.
  - apply IH. exact Hrest.
  - intros [= <-]. exact (parse_prompt_file_errors p e' Hp Hpp).
Qed.

Lemma classify_words_errors (ws : list string) (e : exn_chat) :
  classify_words E ws = Err e -> exists n, e = Exn (OSError n).
Proof.
  induction ws as [|w ws IH]; [discriminate |]. cbn [classify_words].
  unfold is_file at 1.
  destruct (probe E w) as [| n | r].
  - destruct (classify_words E ws) as [[paths urls] | e']; [| exact IH].
    cbv iota. destruct (has_netloc E w); discriminate.
  - intros [= <-]. now exists n.
  - destruct (classify_words E ws) as [[paths urls] | e']; [| exact IH].
    discriminate.
Qed.

Lemma parse_prompt_depth_one (p : string) :
  _parse_prompt E p = parse_prompt_at E 1 p.
Proof. exact (parse_prompt_at_enough E 999 p). Qed.

Lemma parse_prompt_errors (p : string) (e : exn_chat) :
  _parse_prompt E p = Err e -> exists n, e = Exn (OSError n).
Proof.
  rewrite parse_prompt_depth_one. cbn [parse_prompt_at].
  destruct (parse_prompt_direct E p) as [[r |] | e'] eqn:Hd.
  - discriminate.
  - destruct (classify_words E (Text.split_whitespace p))
      as [[paths urls] | e'] eqn:Hc.
    + pose proof (classify_words_files E _ _ _ Hc) as Hfiles.
      destruct (add_paths _ paths _) as [result | e'] eqn:Ha.
      * destruct (has_browser E); discriminate.
      * intros [= <-]. exact (add_paths_errors _ _ _ Hfiles Ha).
    + intros [= <-]. exact (classify_words_errors _ _ Hc).
  - intros [= <-]. unfold parse_prompt_direct in Hd.
    destruct (is_command E p); [discriminate |].
    destruct (probe E p) as [| n | [t | | n]]; try discriminate;
      injection Hd as <-; now exists n.
Qed.

Lemma parse_prompt_files_errors (p : string) (e : exn_chat) :
  _parse_prompt_files E p = Err e -> e = Exn (OSError ENAMETOOLONG).
Proof.
  unfold _parse_prompt_files, on_oserror.
  destruct (is_command E p); [discriminate |].
  destruct (probe E p) as [| n | [t | | n]]; try discriminate.
  - destruct (Nat.eqb_spec n ENAMETOOLONG) as [-> |]; [| discriminate].
    now intros [= <-].
  - destruct (Str.mem _ _); discriminate.
  - destruct (Nat.eqb_spec n ENAMETOOLONG) as [-> |]; [| discriminate].
    now intros [= <-].
Qed.

Lemma include_word_errors (w : string) (acc : string * list string)
    (e : exn_chat) :
  include_word E w acc = Err e -> include_error E e.
Proof.
  unfold include_word. destruct acc as [a f].
  destruct (String.eqb w ""); [discriminate |].
  destruct (is_candidate E w); [| discriminate].
  destruct (use_fresh_context E) eqn:Hfresh.
  - change (negb (String.eqb (default "" None) "")) with false. cbv iota.
    destruct (_parse_prompt_files E w) as [[file|]|e'] eqn:Hf;
      try discriminate.
    + unfold stored_path. destruct (workspace E) as [ws|] eqn:Hws;
        [| discriminate].
      destruct (negb _); [| discriminate].
      destruct (relative_to E ws _); [discriminate |].
      intros [= <-]. right. split; [reflexivity | now exists ws].
    + intros [= <-]. rewrite (parse_prompt_files_errors _ _ Hf).
      left. exists ENAMETOOLONG. split; reflexivity.
  - destruct (_parse_prompt E w) as [contents | e'] eqn:Hp.
    + destruct (negb _); [discriminate |].
      destruct (_parse_prompt_files E w) as [[file|]|e'] eqn:Hf;
        try discriminate.
      * unfold stored_path. destruct (workspace E) as [ws|] eqn:Hws;
          [| discriminate].
        destruct (negb _); [| discriminate].
        destruct (relative_to E ws _); [discriminate |].
        intros [= <-]. right. split; [reflexivity | now exists ws].
      * intros [= <-]. rewrite (parse_prompt_files_errors _ _ Hf).
        left. exists ENAMETOOLONG. split; reflexivity.
    + intros [= <-]. destruct (parse_prompt_errors _ _ Hp) as [n ->].
      left. exists n. split; [reflexivity | intros H; congruence].
Qed.

Lemma include_words_errors (ws : list string) :
  forall acc e, include_words E ws acc = Err e -> include_error E e.
Proof.
  induction ws as [|w ws IH]; intros acc e; [discriminate |].
  cbn [include_words].
  destruct (include_word E w acc) as [acc' | e'] eqn:Hw.
  - apply IH.
  - intros [= <-]. exact (include_word_errors _ _ _ Hw).
Qed.

End IncludeMore.

(** X20: [_include_paths] only adds: the role, the flags and the timestamp
    of the message are kept, the content is the old content followed by what
    was gathered, and the files are the old files followed by the new ones. *)
Theorem include_paths_frame (E : Env) (m m' : Message) :
  _include_paths E m = Ok m' ->
  role m' = role m /\ hide m' = hide m /\ quiet m' = quiet m /\
  pinned m' = pinned m /\ timestamp m' = timestamp m /\
  (exists suf, content m' = content m +:+ suf) /\
  (exists more, files m' = files m ++ more).
Proof.
  unfold _include_paths. destruct (negb _); [discriminate |].
  destruct (include_words E (cleaned_words (content m)) ("", []))
    as [[a f] | e] eqn:Hw; [| discriminate].
  intros [= <-].
  destruct (include_words_files_extend E _ _ _ _ _ Hw) as [more Hmore].
  cbn [app] in Hmore. subst f.
  destruct more as [|x more]; destruct (String.eqb a "") eqn:Ea;
    cbn [role hide quiet pinned timestamp content files replace_content
         replace_files];
    repeat (split; [reflexivity |]); split.
  - exists "". now rewrite StrFacts.append_nil_r.
  - exists []. now rewrite app_nil_r.
  - now exists a.
  - exists []. now rewrite app_nil_r.
  - exists "". now rewrite StrFacts.append_nil_r.
  - now exists (x :: more).
  - now exists a.
  - now exists (x :: more).
Qed.

Lemma include_paths_frame_witness :
  quiet (Desk.ask ("see ./notes.txt" +:+ NL +:+ NL +:+ "```./notes.txt"
                     +:+ NL +:+ "hello" +:+ NL +:+ "```"))
  = quiet (Desk.ask "see ./notes.txt") /\
  exists suf,
    content (Desk.ask ("see ./notes.txt" +:+ NL +:+ NL +:+ "```./notes.txt"
                         +:+ NL +:+ "hello" +:+ NL +:+ "```"))
    = content (Desk.ask "see ./notes.txt") +:+ suf.
Proof.
  destruct (include_paths_frame Desk.legacy (Desk.ask "see ./notes.txt")
              (Desk.ask ("see ./notes.txt" +:+ NL +:+ NL +:+ "```./notes.txt"
                           +:+ NL +:+ "hello" +:+ NL +:+ "```")))
    as (_ & _ & Hq & _ & _ & Hc & _).
  - vm_compute. reflexivity.
  - split; [exact Hq | exact Hc].
Defined.

(** X21: in fresh-context mode [_include_paths] never changes the content
    of the message: what it finds goes to the files only. *)
Theorem include_paths_fresh_keeps_content (E : Env) (m m' : Message) :
  use_fresh_context E = true ->
  _include_paths E m = Ok m' ->
  content m' = content m.
Proof.
  intros Hfresh. unfold _include_paths. destruct (negb _); [discriminate |].
  destruct (include_words E (cleaned_words (content m)) ("", []))
    as [[a f] | e] eqn:Hw; [| discriminate].
  rewrite (include_words_fresh E _ Hfresh _ _ _ _ Hw).
  intros [= <-]. cbn [String.eqb]. destruct f; reflexivity.
Qed.

Lemma include_paths_fresh_keeps_content_witness :
  content (mkMessage user "see ./notes.txt" ["./notes.txt"] false false false
             "2024-05-01T10:00:00")
  = content (Desk.ask "see ./notes.txt").
Proof.
  apply (include_paths_fresh_keeps_content Desk.fresh
           (Desk.ask "see ./notes.txt")
           (mkMessage user "see ./notes.txt" ["./notes.txt"] false false false
              "2024-05-01T10:00:00")).
  - reflexivity.
  - vm_compute. reflexivity.
Defined.

(** X22: a user message none of whose words starts like a path or a URL or
    names an entry of the working directory is returned as it is. *)
Theorem include_paths_no_candidate (E : Env) (m : Message) :
  role m = user ->
  Forall (fun w => w = "" \/ is_candidate E w = false)
         (cleaned_words (content m)) ->
  _include_paths E m = Ok m.
Proof.
  intros Hrole Hws. unfold _include_paths. rewrite Hrole.
  change (negb (Role_eqb user user)) with false. cbv iota.
  now rewrite (include_words_no_candidate E _ _ Hws).
Qed.

Lemma include_paths_no_candidate_witness :
  _include_paths Desk.legacy (Desk.ask "what is  a monad?")
  = Ok (Desk.ask "what is  a monad?").
Proof.
  apply (include_paths_no_candidate Desk.legacy
           (Desk.ask "what is  a monad?")).
  - reflexivity.
  - vm_compute. repeat (constructor; [right; reflexivity |]). constructor.
Defined.

Lemma include_error_kinds (E : Env) (e : exn_chat) :
  include_error E e -> e <> AssertionError /\ e <> RecursionError.
Proof.
  intros [(n & -> & _) | (-> & _)]; split; discriminate.
Qed.

(** X23: two exceptions of [_include_paths].  The failed assertion is
    raised exactly for a message that is not from the user.  And the
    recursion of [_parse_prompt] never reaches a limit, however small: the
    nested call is made on a word that is a file and returns at once, so
    neither [_parse_prompt], at any limit of one or more, nor
    [_include_paths] ends with [RecursionError]. *)
Theorem include_paths_errors (E : Env) (m : Message) :
  (_include_paths E m = Err AssertionError <-> role m <> user) /\
  _include_paths E m <> Err RecursionError /\
  (forall depth prompt,
     parse_prompt_at E (S depth) prompt <> Err RecursionError).
Proof.
  assert (Hwords : forall e,
            match include_words E (cleaned_words (content m)) ("", []) with
            | Err e' => e' = e
            | Ok _ => False
            end -> e <> AssertionError /\ e <> RecursionError).
  { intros e.
    destruct (include_words E _ _) as [acc | e'] eqn:Hw; [tauto |].
    intros <-. exact (include_error_kinds E _ (include_words_errors E _ _ _ Hw)). }
  split; [| split].
  - unfold _include_paths. destruct (role m); cbn [Role_eqb negb].
    + split; [discriminate | reflexivity].
    + split; [| congruence].
      destruct (include_words E _ _) as [[a f] | e'] eqn:Hw; [discriminate |].
      intros [= ->]. destruct (Hwords AssertionError eq_refl) as [H _].
      congruence.
    + split; [discriminate | reflexivity].
  - unfold _include_paths. destruct (role m); cbn [Role_eqb negb];
      try discriminate.
    destruct (include_words E _ _) as [[a f] | e'] eqn:Hw; [discriminate |].
    intros [= ->]. destruct (Hwords RecursionError eq_refl) as [_ H].
    congruence.
  - intros depth prompt H.
    rewrite (parse_prompt_at_enough E depth prompt) in H.
    rewrite <- (parse_prompt_depth_one E prompt) in H.
    destruct (parse_prompt_errors E _ _ H) as [n Hn]. discriminate.
Qed.

Section UrlFacts.

Variable E : Env.

(** A word that is a URL and no file, when the page cannot be read: the
    result of [_parse_prompt] is the blank lines that were to precede the
    page. *)
Lemma parse_prompt_url_unread (w : string) :
  is_command E w = false ->
  probe E w = NoFile ->
  Text.split_whitespace w = [w] ->
  has_netloc E w = true ->
  has_browser E = false \/ read_url E w = None ->
  _parse_prompt E w = Ok (Some (NL +:+ NL)).
Proof.
  intros Hcmd Hprobe Hsplit Hurl Hread.
  rewrite parse_prompt_depth_one. cbn [parse_prompt_at].
  unfold parse_prompt_direct. rewrite Hcmd, Hprobe, Hsplit.
  cbn [classify_words]. unfold is_file. rewrite Hprobe, Hurl.
  cbn [add_paths].
  destruct (has_browser E) eqn:Hb; [| reflexivity].
  destruct Hread as [Hread | Hread]; [discriminate |].
  cbn [add_urls]. now rewrite Hread.
Qed.

End UrlFacts.

(** X24: a message that is one URL, when there is no browser tool or the
    page cannot be read, still gets text appended: four line feeds and
    nothing else. *)
Theorem include_paths_url_unread (E : Env) (m : Message) (w : string) :
  role m = user ->
  use_fresh_context E = false ->
  cleaned_words (content m) = [w] ->
  Str.startswith "http" w = true ->
  is_command E w = false ->
  probe E w = NoFile ->
  Text.split_whitespace w = [w] ->
  has_netloc E w = true ->
  has_browser E = false \/ read_url E w = None ->
  _include_paths E m
  = Ok (replace_content (content m +:+ NL +:+ NL +:+ NL +:+ NL) m).
Proof.
  intros Hrole Hfresh Hws Hhttp Hcmd Hprobe Hsplit Hurl Hread.
  unfold _include_paths. rewrite Hrole, Hws.
  change (negb (Role_eqb user user)) with false. cbv iota.
  cbn [include_words]. unfold include_word.
  assert (Hne : String.eqb w "" = false).
  { destruct w; [discriminate | reflexivity]. }
  assert (Hcand : is_candidate E w = true).
  { unfold is_candidate. rewrite Hhttp. now rewrite orb_true_r. }
  rewrite Hne, Hcand, Hfresh.
  rewrite (parse_prompt_url_unread E w Hcmd Hprobe Hsplit Hurl Hread).
  reflexivity.
Qed.

Lemma include_paths_url_unread_witness :
  _include_paths (Office.env "unused") (Desk.ask "https://example.com/doc")
  = Ok (Desk.ask ("https://example.com/doc" +:+ NL +:+ NL +:+ NL +:+ NL)).
Proof.
  apply (include_paths_url_unread (Office.env "unused")
           (Desk.ask "https://example.com/doc") "https://example.com/doc").
  - reflexivity.
  - reflexivity.
  - reflexivity.
  - reflexivity.
  - reflexivity.
  - reflexivity.
  - reflexivity.
  - reflexivity.
  - left. reflexivity.
Defined.

(** ** Code blocks are not searched *)

Module CodeblockFacts.

Import Text.

Lemma prefix_close_inside (c : ascii) (inner rest : string) :
  Str.count BACKTICK (String c inner) = 0 ->
  String.prefix (NL +:+ FENCE) (String c (inner +:+ NL +:+ rest)) = false.
Proof.
  cbn [Str.count].
  destruct (Ascii.eqb_spec c BACKTICK) as [-> | Hc]; [discriminate |].
  intros Hin. change (NL +:+ FENCE) with (String LF FENCE).
  cbn [String.prefix]. destruct (Ascii.ascii_dec LF c); [| reflexivity].
  destruct inner as [|c' inner]; [reflexivity |].
  cbn [Str.count] in Hin.
  destruct (Ascii.eqb_spec c' BACKTICK) as [-> | Hc']; [discriminate |].
  apply (SubFacts.prefix_fence_other c' _ Hc').
Qed.

Lemma find_close_block (inner post : string) :
  Str.count BACKTICK inner = 0 ->
  find_close (inner +:+ NL +:+ FENCE +:+ post)
  = Some (String.length inner + 4).
Proof.
  induction inner as [|c inner IH]; intros Hin.
  - change ("" +:+ NL +:+ FENCE +:+ post)
      with (String LF (String BACKTICK (String BACKTICK
              (String BACKTICK post)))).
    cbn [find_close].
    replace (String.prefix (NL +:+ FENCE) _) with true; [reflexivity |].
    destruct post; reflexivity.
  - change (String c inner +:+ NL +:+ FENCE +:+ post)
      with (String c (inner +:+ NL +:+ FENCE +:+ post)).
    cbn [find_close]. rewrite (prefix_close_inside c inner _ Hin).
    cbn [Str.count] in Hin.
    destruct (Ascii.eqb c BACKTICK); [discriminate |].
    rewrite (IH Hin). reflexivity.
Qed.

Lemma strip_skip (a t : string) :
  strip_codeblocks_from (String.length a) (a +:+ t) = strip_codeblocks_from 0 t.
Proof. induction a as [|c a IH]; [reflexivity | exact IH]. Qed.

Lemma strip_free_app (pre t : string) :
  Str.count BACKTICK pre = 0 ->
  strip_codeblocks_from 0 (pre +:+ t) = pre +:+ strip_codeblocks_from 0 t.
Proof.
  induction pre as [|c pre IH]; [reflexivity |]. cbn [Str.count].
  destruct (Ascii.eqb_spec c BACKTICK) as [-> | Hc]; [discriminate |].
  intros H. change (String c pre +:+ t) with (String c (pre +:+ t)).
  cbn [strip_codeblocks_from].
  rewrite (SubFacts.prefix_fence_other c _ Hc). now rewrite (IH H).
Qed.

Lemma strip_free (s : string) :
  Str.count BACKTICK s = 0 -> strip_codeblocks s = s.
Proof.
  intros H. unfold strip_codeblocks.
  rewrite <- (StrFacts.append_nil_r s) at 1.
  rewrite (strip_free_app s "" H). apply StrFacts.append_nil_r.
Qed.

Lemma strip_from_fence (c : ascii) (s' : string) (n : nat) :
  String.prefix FENCE (String c s') = true ->
  find_close (drop 3 (String c s')) = Some n ->
  strip_codeblocks_from 0 (String c s') = strip_codeblocks_from (2 + n) s'.
Proof.
  intros H1 H2. cbn [strip_codeblocks_from]. now rewrite H1, H2.
Qed.

Lemma strip_block (inner post : string) :
  Str.count BACKTICK inner = 0 ->
  strip_codeblocks_from 0 (FENCE +:+ inner +:+ NL +:+ FENCE +:+ post)
  = strip_codeblocks_from 0 post.
Proof.
  intros Hin.
  change (FENCE +:+ inner +:+ NL +:+ FENCE +:+ post)
    with (String BACKTICK (String BACKTICK (String BACKTICK
            (inner +:+ NL +:+ FENCE +:+ post)))).
  rewrite (strip_from_fence _ _ (String.length inner + 4)).
  - replace (String BACKTICK (String BACKTICK (inner +:+ NL +:+ FENCE +:+ post)))
      with (String BACKTICK (String BACKTICK (inner +:+ NL +:+ FENCE)) +:+ post).
    + replace (2 + (String.length inner + 4))
        with (String.length
                (String BACKTICK (String BACKTICK (inner +:+ NL +:+ FENCE)))).
      * apply strip_skip.
      * cbn [String.length]. rewrite StrFacts.length_append. reflexivity.
    + change (String BACKTICK (String BACKTICK (inner +:+ NL +:+ FENCE)) +:+ post)
        with (String BACKTICK (String BACKTICK
                ((inner +:+ NL +:+ FENCE) +:+ post))).
      now rewrite StrFacts.append_assoc.
  - destruct (inner +:+ NL +:+ FENCE +:+ post); reflexivity.
  - cbn [drop]. exact (find_close_block inner post Hin).
Qed.

End CodeblockFacts.

(** X25: a closed code block is not searched for paths.  For a content
    [pre ++ block ++ post] whose parts have no backtick of their own, the
    block is cut out before the words are split, so the words looked at are
    those of [pre ++ post]; a content without a backtick is searched as it
    is. *)
Theorem cleaned_words_skip_codeblock (pre label code post : string) :
  Str.count Text.BACKTICK pre = 0 ->
  Str.count Text.BACKTICK label = 0 ->
  Str.count Text.BACKTICK code = 0 ->
  Str.count Text.BACKTICK post = 0 ->
  Text.strip_codeblocks (pre +:+ Text.FENCE +:+ label +:+ NL +:+ code +:+ NL
                           +:+ Text.FENCE +:+ post)
  = pre +:+ post /\
  cleaned_words (pre +:+ Text.FENCE +:+ label +:+ NL +:+ code +:+ NL
                   +:+ Text.FENCE +:+ post)
  = cleaned_words (pre +:+ post).
Proof.
  intros Hpre Hlabel Hcode Hpost.
  assert (Hstrip :
    Text.strip_codeblocks (pre +:+ Text.FENCE +:+ label +:+ NL +:+ code +:+ NL
                             +:+ Text.FENCE +:+ post)
    = pre +:+ post).
  { unfold Text.strip_codeblocks.
    rewrite (CodeblockFacts.strip_free_app pre _ Hpre).
    replace (Text.FENCE +:+ label +:+ NL +:+ code +:+ NL +:+ Text.FENCE +:+ post)
      with (Text.FENCE +:+ (label +:+ NL +:+ code) +:+ NL +:+ Text.FENCE +:+ post).
    - rewrite CodeblockFacts.strip_block.
      + f_equal. apply (CodeblockFacts.strip_free post Hpost).
      + rewrite StrFacts.count_append. cbn [Str.count String.append].
        rewrite Hlabel.
        change (Str.count Text.BACKTICK (NL +:+ code))
          with (Str.count Text.BACKTICK code).
        now rewrite Hcode.
    - f_equal. rewrite StrFacts.append_assoc. reflexivity. }
  split; [exact Hstrip |].
  unfold cleaned_words. rewrite Hstrip.
  rewrite CodeblockFacts.strip_free; [reflexivity |].
  rewrite StrFacts.count_append. now rewrite Hpre, Hpost.
Qed.

Lemma cleaned_words_skip_codeblock_witness :
  cleaned_words ("like this:" +:+ NL +:+ "```sh" +:+ NL +:+ "cat ./notes.txt"
                   +:+ NL +:+ "``` ok?")
  = ["like"; "this:"; ""; "ok"].
Proof.
  destruct (cleaned_words_skip_codeblock ("like this:" +:+ NL) "sh"
              "cat ./notes.txt" " ok?") as [_ H].
  - reflexivity.
  - reflexivity.
  - reflexivity.
  - reflexivity.
  - etransitivity; [exact H |]. vm_compute. reflexivity.
Defined.

(** ** The workspace prompt *)

(** X26: adding the workspace prompt is idempotent, so that resuming a
    conversation does not add it again, and it shows nothing on the
    display. *)
Theorem add_workspace_prompt_idempotent (E : Env) (workspace_prompt : string)
    (now now' : Timestamp) (st : St) :
  add_workspace_prompt E workspace_prompt now'
    (add_workspace_prompt E workspace_prompt now st)
  = add_workspace_prompt E workspace_prompt now st /\
  console (snd (add_workspace_prompt E workspace_prompt now st))
  = console (snd st).
Proof.
  unfold add_workspace_prompt at 2 3 4.
  destruct (negb (String.eqb workspace_prompt "")
            && negb (Str.mem workspace_prompt (map content (log (fst st))))
            && negb (existsb (fun r => Role_eqb r user)
                       (map role (log (fst st))))) eqn:Hc.
  - split.
    + unfold add_workspace_prompt. rewrite manager_append_log.
      replace (Str.mem workspace_prompt
                 (map content
                    (log (fst st)
                     ++ [mkMessage system workspace_prompt [] true true false
                           now])))
        with true.
      * now rewrite andb_false_r.
      * symmetry. apply StrFacts.mem_In. rewrite map_app. apply in_or_app.
        right. now left.
    + destruct st as [mgr w]. unfold manager_append. rewrite append_effect.
      cbn [snd console quiet]. apply app_nil_r.
  - split; [| reflexivity]. unfold add_workspace_prompt. now rewrite Hc.
Qed.

(** ** A block written by [codeblock] and read by [get_last_code_block] *)

Lemma after_first_line (label rest : string) :
  Str.count LF label = 0 ->
  Sub.after_first LF (label +:+ NL +:+ rest) = Some rest.
Proof.
  induction label as [|c label IH]; [reflexivity |]. cbn [Str.count].
  change (String c label +:+ NL +:+ rest)
    with (String c (label +:+ NL +:+ rest)).
  cbn [Sub.after_first]. destruct (Ascii.eqb c LF); [discriminate |].
  exact IH.
Qed.

(** X27: when the last message with two fences ends its text with one
    block as [codeblock] writes it, [get_last_code_block] returns the body
    of the block followed by a line feed; the label is left out. *)
Theorem get_last_code_block_of_codeblock (mgr : LogManager)
    (l1 l2 : list Message) (m : Message) (pre label body post : string) :
  log mgr = l1 ++ m :: l2 ->
  Forall (fun m' => Sub.count Text.FENCE (content m') < 2) l2 ->
  content m = pre +:+ codeblock label body +:+ post ->
  Str.count Text.BACKTICK pre = 0 ->
  Str.count Text.BACKTICK label = 0 ->
  Str.count LF label = 0 ->
  Str.count Text.BACKTICK body = 0 ->
  Str.count Text.BACKTICK post = 0 ->
  get_last_code_block mgr = Return (Some (body +:+ NL)).
Proof.
  intros Hlog Hl2 Hc Hpre Hlabel Hline Hbody Hpost.
  unfold get_last_code_block.
  rewrite Hlog, rev_app_distr. cbn [rev]. rewrite <- app_assoc.
  rewrite scan_code_block_skips by exact Hl2.
  cbn [app scan_code_block]. unfold code_block_of.
  assert (Hfree : Str.count Text.BACKTICK (label +:+ NL +:+ body +:+ NL) = 0).
  { rewrite !StrFacts.count_append, Hlabel, Hbody. reflexivity. }
  assert (Hsplit : Sub.split Text.FENCE (content m)
                   = [pre; label +:+ NL +:+ body +:+ NL; post]).
  { rewrite Hc. unfold codeblock.
    replace (pre +:+ (Text.FENCE +:+ label +:+ NL +:+ body +:+ NL
                        +:+ Text.FENCE) +:+ post)
      with (pre +:+ Text.FENCE +:+ (label +:+ NL +:+ body +:+ NL)
              +:+ Text.FENCE +:+ post).
    - rewrite (SubFacts.split_part pre _ Hpre).
      rewrite (SubFacts.split_part _ post Hfree).
      now rewrite (SubFacts.split_free post Hpost).
    - f_equal. change (Text.FENCE +:+ (label +:+ NL +:+ body +:+ NL)
                         +:+ Text.FENCE +:+ post)
        with (String Text.BACKTICK (String Text.BACKTICK (String Text.BACKTICK
                ((label +:+ NL +:+ body +:+ NL) +:+ Text.FENCE +:+ post)))).
      change ((Text.FENCE +:+ label +:+ NL +:+ body +:+ NL +:+ Text.FENCE)
                +:+ post)
        with (String Text.BACKTICK (String Text.BACKTICK (String Text.BACKTICK
                ((label +:+ NL +:+ body +:+ NL +:+ Text.FENCE) +:+ post)))).
      do 3 f_equal. rewrite !StrFacts.append_assoc. reflexivity. }
  assert (Hcount : (2 <=? Sub.count Text.FENCE (content m)) = true).
  { apply Nat.leb_le.
    pose proof (SubFacts.sub_split_length Text.FENCE (content m)) as Hlen.
    rewrite Hsplit in Hlen. cbn [length] in Hlen. lia. }
  rewrite Hcount, Hsplit.
  change (Sub.penultimate [pre; label +:+ NL +:+ body +:+ NL; post])
    with (@Return string (label +:+ NL +:+ body +:+ NL)).
  unfold Sub.last_of_split1.
  now rewrite (after_first_line label (body +:+ NL) Hline).
Qed.

Lemma get_last_code_block_of_codeblock_witness :
  get_last_code_block
    (mkLogManager [Blocks.closed; Blocks.thanks] Demo.logpath false)
  = Return (Some ("ls" +:+ NL)).
Proof.
  apply (get_last_code_block_of_codeblock _ [] [Blocks.thanks] Blocks.closed
           ("Run" +:+ NL) "sh" "ls" "").
  - reflexivity.
  - repeat constructor.
  - reflexivity.
  - reflexivity.
  - reflexivity.
  - reflexivity.
  - reflexivity.
  - reflexivity.
Defined.
